(** * MO2 Modular Dashboard: the profile engine

    A shallow embedding of the line-oriented engine of the dashboard
    ([Data/files.py], [Data/mo2_helpers.py], [Data/plugins.py],
    [Data/plugingroups.py]) and the properties of its mod-list mutator,
    load-order merger, activation synchroniser and group synchroniser. *)

From Stdlib Require Import Ascii NArith ZArith.
From stdpp Require Import base list strings gmap sorting.

(** ** Python strings

    A Python [str] is modelled by a Rocq [string] whose characters are the
    code points U+0000..U+00FF; [isspace] and [lower_char] follow
    [str.isspace] and [str.lower] on that range. *)

Definition isspace (c : ascii) : bool :=
  let n := N_of_ascii c in
  ((9 <=? n) && (n <=? 13) || (28 <=? n) && (n <=? 32)
   || (n =? 133) || (n =? 160))%N.

Definition lower_char (c : ascii) : ascii :=
  let n := N_of_ascii c in
  if ((65 <=? n) && (n <=? 90)
      || (192 <=? n) && (n <=? 222) && negb (n =? 215))%N
  then ascii_of_N (n + 32) else c.

(** [s.lower()] *)
Fixpoint lower (s : string) : string :=
  match s with
  | EmptyString => EmptyString
  | String c s' => String (lower_char c) (lower s')
  end.

(** [s.lstrip()] *)
Fixpoint lstrip (s : string) : string :=
  match s with
  | EmptyString => EmptyString
  | String c s' => if isspace c then lstrip s' else s
  end.

(** [s.rstrip()] *)
Fixpoint rstrip (s : string) : string :=
  match s with
  | EmptyString => EmptyString
  | String c s' =>
      match rstrip s' with
      | EmptyString => if isspace c then EmptyString else String c EmptyString
      | r => String c r
      end
  end.

(** [s.strip()] *)
Definition strip (s : string) : string := lstrip (rstrip s).

(** [s.rstrip("\n")] *)
Fixpoint rstrip_nl (s : string) : string :=
  match s with
  | EmptyString => EmptyString
  | String c s' =>
      match rstrip_nl s' with
      | EmptyString =>
          if Ascii.eqb c "010" then EmptyString else String c EmptyString
      | r => String c r
      end
  end.

(** [s.endswith(suffix)] *)
Fixpoint endswith (s suffix : string) : bool :=
  if String.eqb s suffix then true
  else match s with
       | EmptyString => false
       | String _ s' => endswith s' suffix
       end.

(** [s.startswith(p)] *)
Definition startswith (s p : string) : bool := String.prefix p s.

(** [s[1:]] *)
Definition tail1 (s : string) : string :=
  match s with
  | EmptyString => EmptyString
  | String _ s' => s'
  end.

(** The line terminator ["\n"]. *)
Definition nl : string := String "010" EmptyString.

(** [ln if ln.endswith("\n") else ln + "\n"] *)
Definition add_nl (ln : string) : string :=
  if endswith ln nl then ln else ln +:+ nl.

(** [str.join] with the empty separator. *)
Definition join (parts : list string) : string :=
  foldr String.append EmptyString parts.

(** [c in s] for a one-character needle. *)
Fixpoint contains_char (c : ascii) (s : string) : bool :=
  match s with
  | EmptyString => false
  | String d s' => if Ascii.eqb c d then true else contains_char c s'
  end.

(** [s.split(sep, 1)] when [sep] occurs in [s]: the text before the first
    separator and the text after it. *)
Fixpoint split_once (sep : ascii) (s : string) : string * string :=
  match s with
  | EmptyString => (EmptyString, EmptyString)
  | String d s' =>
      if Ascii.eqb sep d then (EmptyString, s')
      else let '(l, r) := split_once sep s' in (String d l, r)
  end.

(** The line boundaries of [str.splitlines] below U+0100. *)
Definition is_linebreak (c : ascii) : bool :=
  let n := N_of_ascii c in
  ((10 <=? n) && (n <=? 13) || (28 <=? n) && (n <=? 30) || (n =? 133))%N.

(** [s.splitlines(keepends)]; [cur] is the line being read.  A carriage
    return followed by a line feed is one boundary. *)
Fixpoint splitlines_go (keepends : bool) (cur s : string) : list string :=
  match s with
  | EmptyString => if decide (cur = EmptyString) then [] else [cur]
  | String c s' =>
      if is_linebreak c then
        match s' with
        | String d s'' =>
            if Ascii.eqb c "013" && Ascii.eqb d "010" then
              (if keepends then cur +:+ String c (String d EmptyString)
               else cur) :: splitlines_go keepends EmptyString s''
            else
              (if keepends then cur +:+ String c EmptyString else cur)
                :: splitlines_go keepends EmptyString s'
        | EmptyString =>
            [if keepends then cur +:+ String c EmptyString else cur]
        end
      else splitlines_go keepends (cur +:+ String c EmptyString) s'
  end.

Definition splitlines (keepends : bool) (s : string) : list string :=
  splitlines_go keepends EmptyString s.

(** [lst.insert(i, x)] for [i >= 0]: past the end it appends. *)
Definition py_insert {A} (i : nat) (x : A) (l : list A) : list A :=
  take i l ++ x :: drop i l.

(** [sorted(xs, key=key)]: a stable sort, here by insertion from the right
    end, each element going in front of the elements that are not smaller;
    [le] compares the keys. *)
Fixpoint insert_sorted {A} (le : A -> A -> bool) (x : A) (l : list A)
  : list A :=
  match l with
  | [] => [x]
  | y :: l' => if le x y then x :: y :: l'
               else y :: insert_sorted le x l'
  end.

Definition sorted_by {A} (le : A -> A -> bool) (l : list A) : list A :=
  foldr (insert_sorted le) [] l.

(** ** The file system ([Data/files.py])

    A file holds the text Python reads from it.  Every call that can raise
    [OSError] is recorded; [faulty] says, from the calls made so far, which
    call raises.  A call that raises leaves the files as they were. *)

Inductive fs_call : Type :=
  | MkdirParents (path : string)     (* path.parent.mkdir(parents=True, exist_ok=True) *)
  | WriteText (path text : string)   (* path.write_text(text, encoding="utf-8") *)
  | Replace (src dst : string)       (* os.replace(src, dst) *)
  | Unlink (path : string).          (* path.unlink() *)

Record fs : Type := mk_fs {
  files : gmap string string;
  calls : list fs_call;
  log : list string
}.

Inductive outcome (A : Type) : Type :=
  | Returned (a : A)
  | Raised (c : fs_call).
Arguments Returned {A} a.
Arguments Raised {A} c.

Definition io (A : Type) : Type := fs -> outcome A * fs.

#[global] Instance io_ret : MRet io := fun A a st => (Returned a, st).

#[global] Instance io_bind : MBind io := fun A B k m st =>
  match m st with
  | (Returned a, st') => k a st'
  | (Raised c, st') => (Raised c, st')
  end.

Definition io_raise {A} (c : fs_call) : io A := fun st => (Raised c, st).

(** [try: body  except Exception: handler] *)
Definition try_except {A} (body : io A) (handler : fs_call -> io A) : io A :=
  fun st =>
    match body st with
    | (Returned a, st') => (Returned a, st')
    | (Raised c, st') => handler c st'
    end.

(** [_LOG.info], [_LOG.error], ... *)
Definition log_msg (msg : string) : io unit :=
  fun st => (Returned (), mk_fs (files st) (calls st) (log st ++ [msg])).

(** What a call that succeeds does to the files. *)
Definition apply_call (c : fs_call) (fsys : gmap string string)
  : gmap string string :=
  match c with
  | MkdirParents _ => fsys
  | WriteText path text => <[path := text]> fsys
  | Replace src dst =>
      match fsys !! src with
      | Some text => <[dst := text]> (delete src fsys)
      | None => fsys
      end
  | Unlink path => delete path fsys
  end.

Section FileSystem.
Variable faulty : list fs_call -> fs_call -> bool.

Definition perform (c : fs_call) : io unit :=
  fun st =>
    if faulty (calls st) c
    then (Raised c, mk_fs (files st) (calls st ++ [c]) (log st))
    else (Returned (),
          mk_fs (apply_call c (files st)) (calls st ++ [c]) (log st)).

(** [path.read_text(...)]: [None] stands for [FileNotFoundError].  The
    text is the text as Python reads it: the decoding of the bytes and the
    translation of line ends on reading and writing are left out. *)
Definition read_file (path : string) : io (option string) :=
  fun st => (Returned (files st !! path), st).

Definition _write_text (p text : string) : io unit :=
  perform (MkdirParents p) ;;
  perform (WriteText p text).

Definition atomic_write (path text : string) : io unit :=
  let tmp := path +:+ ".tmp" in
  _write_text tmp text ;;
  try_except (perform (Replace tmp path))
    (fun e =>
       try_except (perform (Unlink tmp)) (fun _ => mret ()) ;;
       io_raise e).
End FileSystem.

(** ** The mod list ([Data/mo2_helpers.py]) *)

(** [not (not s or s.startswith("#"))] *)
Definition is_entry (s : string) : bool :=
  negb (String.eqb s EmptyString) && negb (startswith s "#").

(** [len(s) >= 2 and s[1:].strip() == mod_name] *)
Definition payload_is (mod_name s : string) : bool :=
  (2 <=? String.length s) && String.eqb (strip (tail1 s)) mod_name.

(** The indices [i], counted from [i0], of the elements that satisfy [p]:
    [for i, x in enumerate(l): if p(x): positions.append(i)]. *)
Fixpoint positions_from {A} (p : A -> bool) (i0 : nat) (l : list A)
  : list nat :=
  match l with
  | [] => []
  | x :: l' =>
      if p x then i0 :: positions_from p (S i0) l'
      else positions_from p (S i0) l'
  end.

Definition set_mod_enabled_in_lines
    (lines : list string) (mod_name : string) (enable : bool) : list string :=
  let prefix := if enable then "+" else "-" in
  let entry := prefix +:+ mod_name in
  let norm := map add_nl lines in
  let positions :=
    positions_from
      (fun ln => let s := strip ln in is_entry s && payload_is mod_name s)
      0 norm in
  match last positions with
  | None => norm ++ [entry +:+ nl]
  | Some keep_idx =>
      let filtered :=
        filter (fun ln => negb (payload_is mod_name (strip ln))) norm in
      let insert_idx := min keep_idx (length filtered) in
      py_insert insert_idx (entry +:+ nl) filtered
  end.

(** [sorted(names)] for a set of names: by code points. *)
Definition sorted_names (names : gset string) : list string :=
  sorted_by String.leb (elements names).

(** The two loops of [apply_mod_sets] over the lines read. *)
Definition apply_mod_sets_lines
    (lines : list string) (mods_to_enable mods_to_disable : gset string)
  : list string :=
  let final_enable := mods_to_enable ∖ mods_to_disable in
  let final_disable := mods_to_disable in
  let lines1 :=
    foldl (fun ls m => set_mod_enabled_in_lines ls m true)
      lines (sorted_names final_enable) in
  foldl (fun ls m => set_mod_enabled_in_lines ls m false)
    lines1 (sorted_names final_disable).

(** The names [enabled_mod_names] reads from the lines of a mod list. *)
Definition enabled_names (lines : list string) : list string :=
  omap (fun ln =>
          let s := strip ln in
          if is_entry s && startswith s "+" then Some (strip (tail1 s))
          else None) lines.

Section ModListFile.
Variable faulty : list fs_call -> fs_call -> bool.

Definition read_modlist (path : string) : io (list string) :=
  text ← read_file path;
  mret (match text with
        | Some t => splitlines false t
        | None => []
        end).

Definition write_modlist (path : string) (lines : list string) : io unit :=
  try_except
    (let normalized := map add_nl lines in
     perform faulty (WriteText path (join normalized)))
    (fun e => log_msg "write_modlist error").

(** [apply_mod_sets], for the path [modlist_path] returns (the profile
    directory is there); the warning about names unknown in [mods/] only
    logs and is left out. *)
Definition apply_mod_sets
    (path : string) (mods_to_enable mods_to_disable : gset string)
  : io unit :=
  lines ← read_modlist path;
  let original := lines in
  let lines' := apply_mod_sets_lines lines mods_to_enable mods_to_disable in
  if decide (lines' ≠ original)
  then write_modlist path lines' ;; log_msg "Applied to profile"
  else log_msg "no changes".
End ModListFile.


(** ** The load order and the activation list ([Data/plugins.py]) *)

Definition _plugin_ext_rank (name : string) : nat :=
  let n := lower name in
  if endswith n ".esm" then 0
  else if endswith n ".esp" then 1
  else if endswith n ".esl" then 2
  else 3.

(** [_read_loadorder_file], from the lines of the file. *)
Definition _read_loadorder_lines (file_lines : list string) : list string :=
  map strip (filter (fun ln => is_entry (strip ln)) file_lines).

(** The text [_write_loadorder_file] writes. *)
Definition _write_loadorder_text (order : list string) : string :=
  join (map (fun p => p +:+ nl) order).

(** The test of the loop of [_set_plugin_enabled_in_plugins_lines]: the
    line is an entry and names the plugin [tgt_low]. *)
Definition plugin_line_is (tgt_low ln : string) : bool :=
  let s := strip ln in
  if negb (is_entry s) then false
  else
    let name := if startswith s "*" then strip (tail1 s) else s in
    String.eqb (lower name) tgt_low.

(** The loop itself: [last_idx] after the lines from index [i] on. *)
Fixpoint scan_last_idx (tgt_low : string) (i : nat) (last_idx : Z)
    (lines : list string) : Z :=
  match lines with
  | [] => last_idx
  | ln :: rest =>
      scan_last_idx tgt_low (S i)
        (if plugin_line_is tgt_low ln then Z.of_nat i else last_idx) rest
  end.

Definition plugin_entry (tgt : string) (enable : bool) : string :=
  if enable then "*" +:+ tgt +:+ nl else tgt +:+ nl.

Definition _set_plugin_enabled_in_plugins_lines
    (lines : list string) (plugin : string) (enable : bool)
  : list string * bool :=
  let tgt := strip plugin in
  let tgt_low := lower tgt in
  let last_idx := scan_last_idx tgt_low 0 (-1) lines in
  if (0 <=? last_idx)%Z then
    let new := <[Z.to_nat last_idx := plugin_entry tgt enable]> lines in
    (new,
     bool_decide (new !! Z.to_nat last_idx ≠ lines !! Z.to_nat last_idx))
  else (lines ++ [plugin_entry tgt enable], true).

(** The loop of [_ensure_all_enabled] over the lines read. *)
Definition _ensure_all_enabled_lines
    (lines : list string) (plugins : list string) : list string * bool :=
  foldl (fun '(lines, changed) pl =>
           let '(lines', c) :=
             _set_plugin_enabled_in_plugins_lines lines pl true in
           (lines', changed || c))
    (lines, false) plugins.

(** [anchor_set_ci] is used for its keys only, the lower-cased anchors. *)
Definition _pick_anchor_in_current_order
    (current_order : list string) (anchors : gset string) : option string :=
  if decide (anchors = ∅) then None
  else
    let anchor_set_ci : gset string := set_map lower anchors in
    snd <$> list_find (fun name => lower name ∈ anchor_set_ci) current_order.

(** The anchor selection of [sync_new_plugins_incremental]: a [before]
    hit first, an [after] hit otherwise. *)
Definition select_anchor
    (names_now : list string) (before after : gset string)
  : option string * string :=
  let first :=
    if decide (before ≠ ∅) then
      match _pick_anchor_in_current_order names_now before with
      | Some anc =>
          if decide (anc ≠ EmptyString) then (Some anc, "before") else (None, "end")
      | None => (None, "end")
      end
    else (None, "end") in
  if decide (first.1 = None ∧ after ≠ ∅) then
    match _pick_anchor_in_current_order names_now after with
    | Some anc => if decide (anc ≠ EmptyString) then (Some anc, "after") else first
    | None => first
    end
  else first.

(** [buckets[k].append(n)]; the keys 0..3 are always there. *)
Definition bucket_append (bk : gmap nat (list string)) (k : nat) (n : string)
  : gmap nat (list string) :=
  <[k := bk !!! k ++ [n]]> bk.

Definition empty_buckets : gmap nat (list string) :=
  <[0 := []]> (<[1 := []]> (<[2 := []]> (<[3 := []]> ∅))).

Definition _partition_by_ext (order : list string)
  : gmap nat (list string) :=
  foldl (fun buckets n => bucket_append buckets (_plugin_ext_rank n) n)
    empty_buckets order.

Definition _merge_buckets (bk : gmap nat (list string)) : list string :=
  bk !!! 0 ++ bk !!! 1 ++ bk !!! 2 ++ bk !!! 3.

(** The key two names are compared by: [n.strip().lower()]. *)
Definition name_key (n : string) : string := lower (strip n).

(** [tgt] is the list object stored in [bk] under [pr]: what [insert] and
    [append] do to it is what [bk[pr] = tgt] stores.  An [anchor] that is
    [None] or empty is no anchor; [StopIteration] appends. *)
Definition _insert_relative_once
    (current_order : list string) (plugin : string)
    (anchor : option string) (position : string) : list string :=
  let order := filter (fun n => name_key n ≠ name_key plugin) current_order in
  let pr := _plugin_ext_rank plugin in
  let bk := _partition_by_ext order in
  let tgt := default [] (bk !! pr) in
  let tgt' :=
    match anchor with
    | Some a =>
        if decide (a ≠ EmptyString) then
          if decide (_plugin_ext_rank a = pr) then
            match list_find (fun n => name_key n = name_key a) tgt with
            | Some (idx, _) =>
                py_insert
                  (if decide (lower position = "before") then idx else idx + 1)
                  plugin tgt
            | None => tgt ++ [plugin]
            end
          else tgt ++ [plugin]
        else tgt ++ [plugin]
    | None => tgt ++ [plugin]
    end in
  _merge_buckets (<[pr := tgt']> bk).

(** One turn of the loop of [sync_new_plugins_incremental] on the order it
    read, given the anchor sets resolved from the rule of [p]. *)
Definition place_new_plugin
    (names_now : list string) (p : string) (before after : gset string)
  : list string :=
  let '(anchor, pos) := select_anchor names_now before after in
  _insert_relative_once names_now p anchor pos.

Section Merger.
(** [anchors_for p names_now] stands for the [before] and [after] sets that
    [_match_rule_for_plugin] and [_resolve_anchor_ci] compute with the
    regular expressions of the [re] module. *)
Variable anchors_for : string -> list string -> gset string * gset string.

(** The loop over [new_plugins] on the order kept in memory: a turn works
    on the order the turn before returned.  The program writes the order
    and reads it again in between ([sync_new_plugins_incremental] below),
    which gives the same order when the new plugins are names the
    load-order file keeps. *)
Definition insert_new_plugins
    (order : list string) (new_plugins : list string) : list string :=
  foldl (fun order p =>
           let '(before, after) := anchors_for p order in
           place_new_plugin order p before after)
    order new_plugins.
End Merger.

(** ** The group file ([Data/plugingroups.py])

    A [dict] keeps its keys in insertion order, which [sorted] with a key
    function sees: it is an association list with one pair per key. *)

Fixpoint dict_get (d : list (string * string)) (k : string) : option string :=
  match d with
  | [] => None
  | (k', v) :: d' => if decide (k' = k) then Some v else dict_get d' k
  end.

(** [d[k] = v] *)
Fixpoint dict_set (d : list (string * string)) (k v : string)
  : list (string * string) :=
  match d with
  | [] => [(k, v)]
  | (k', v') :: d' =>
      if decide (k' = k) then (k, v) :: d' else (k', v') :: dict_set d' k v
  end.

(** [d1 == d2]: the same keys with the same values, in any order. *)
Definition dict_eqb (d1 d2 : list (string * string)) : bool :=
  bool_decide (length d1 = length d2)
  && forallb (fun kv => bool_decide (dict_get d2 kv.1 = Some kv.2)) d1.

Definition default_header : string :=
  "# This file is managed by StartupDashboard (plugin_groups)" +:+ nl.

(** The state of the loop of [_read_plugingroups_file]. *)
Record groups_acc : Type := mk_groups_acc {
  acc_mapping : list (string * string);
  acc_header : list string;
  acc_others : list string;
  comments_passed : bool
}.

Definition read_groups_step (st : groups_acc) (raw : string) : groups_acc :=
  let line := rstrip_nl raw in
  let s := strip line in
  if negb (is_entry s) then
    if negb (comments_passed st)
    then mk_groups_acc (acc_mapping st) (acc_header st ++ [line])
           (acc_others st) (comments_passed st)
    else mk_groups_acc (acc_mapping st) (acc_header st)
           (acc_others st ++ [line]) (comments_passed st)
  else
    let keep_line :=
      mk_groups_acc (acc_mapping st) (acc_header st)
        (acc_others st ++ [line]) true in
    if contains_char "|" s then
      let '(left_, right_) := split_once "|" s in
      let plg := strip left_ in
      let grp := strip right_ in
      if negb (String.eqb plg EmptyString) && negb (String.eqb grp EmptyString)
      then mk_groups_acc (dict_set (acc_mapping st) plg grp) (acc_header st)
             (acc_others st) true
      else keep_line
    else keep_line.

(** [_read_plugingroups_file]; [None] is a file that cannot be read. *)
Definition _read_plugingroups_file (file_lines : option (list string))
  : list (string * string) * list string * list string :=
  match file_lines with
  | None => ([], [default_header], [])
  | Some lines =>
      let st := foldl read_groups_step (mk_groups_acc [] [] [] false) lines in
      (acc_mapping st,
       if decide (acc_header st = []) then [default_header]
       else acc_header st,
       acc_others st)
  end.

Definition group_line (p grp : string) : string :=
  p +:+ "|" +:+ grp +:+ nl.

(** One turn of the two loops that emit the mapping. *)
Definition emit_group (mapping : list (string * string))
    (st : list string * gset string) (p : string)
  : list string * gset string :=
  match dict_get mapping p with
  | Some grp =>
      if decide (p ∉ st.2) then (st.1 ++ [group_line p grp], st.2 ∪ {[p]})
      else st
  | None => st
  end.

(** The lines [_write_plugingroups_file] joins and writes. *)
Definition _write_plugingroups_lines
    (ordered_plugins : list string) (mapping : list (string * string))
    (header others : list string) : list string :=
  let out := map add_nl header in
  let out :=
    match last out with
    | Some l => if negb (String.eqb (strip l) EmptyString) then out ++ [nl] else out
    | None => out
    end in
  let out := out ++ map add_nl others in
  let st := foldl (emit_group mapping) (out, ∅) ordered_plugins in
  let st :=
    foldl (emit_group mapping) st
      (sorted_by (fun a b => String.leb (lower a) (lower b))
         (map fst mapping)) in
  st.1.

(** The merge of [sync_plugingroups]. *)
Definition merge_group_map
    (existing_map group_map : list (string * string))
  : list (string * string) :=
  foldl (fun target_map '(plugin, group) =>
           let plg := strip plugin in
           let grp := strip group in
           if negb (String.eqb plg EmptyString) && negb (String.eqb grp EmptyString)
           then dict_set target_map plg grp else target_map)
    existing_map group_map.

(** [sync_plugingroups] from the lines of the load-order file and of the
    group file: the lines it writes, or [None] when it writes nothing. *)
Definition sync_plugingroups_lines
    (group_map : list (string * string)) (loadorder_lines : list string)
    (groups_file : option (list string)) : option (list string) :=
  if decide (group_map = []) then None
  else
    let order :=
      map strip
        (filter (fun x => negb (String.eqb (strip x) EmptyString)) loadorder_lines) in
    let '(existing_map, header, others) :=
      _read_plugingroups_file groups_file in
    let target_map := merge_group_map existing_map group_map in
    if negb (dict_eqb target_map existing_map)
    then Some (_write_plugingroups_lines order target_map header others)
    else None.

Section EngineWrites.
Variable faulty : list fs_call -> fs_call -> bool.

Definition _write_loadorder_file (path : string) (order : list string)
  : io unit :=
  let text := _write_loadorder_text order in
  perform faulty (MkdirParents path) ;;
  atomic_write faulty path text.

(** The default content of the activation file; the dash of its second
    line lies outside the modelled range of code points and is written as
    a hyphen. *)
Definition plugins_default_lines : list string :=
  ["# This file is used by Skyrim to keep track of your downloaded content."
     +:+ nl;
   "# Managed by StartupDashboard - auto-enabled plugins" +:+ nl].

Definition _write_plugins_file (path : string) (lines : list string)
  : io unit :=
  let lines := if decide (lines = []) then plugins_default_lines else lines in
  let lines :=
    match last lines with
    | Some l => if endswith l nl then lines else lines ++ [nl]
    | None => lines
    end in
  perform faulty (MkdirParents path) ;;
  atomic_write faulty path (join lines).

End EngineWrites.

(** ** The vocabulary of the properties *)

(** The entries of rank [k], in the order they have in [l]. *)
Definition rank_bucket (k : nat) (l : list string) : list string :=
  filter (fun n => _plugin_ext_rank n = k) l.

(** The order regrouped by rank, each group in its own order. *)
Definition stable_by_rank (l : list string) : list string :=
  rank_bucket 0 l ++ rank_bucket 1 l ++ rank_bucket 2 l ++ rank_bucket 3 l.

(** Every rank-0 entry precedes every rank-1 entry, and so on: ranks never
    decrease along the list. *)
Definition rank_partitioned (l : list string) : Prop :=
  ∀ i j x y, i < j → l !! i = Some x → l !! j = Some y →
    _plugin_ext_rank x ≤ _plugin_ext_rank y.

(** [new] is [old] with [p] put in at one place. *)
Definition spliced_into (p : string) (old new : list string) : Prop :=
  ∃ l1 l2, new = l1 ++ p :: l2 ∧ old = l1 ++ l2.

(** The order without the entries that name [p]. *)
Definition without_plugin (p : string) (order : list string) : list string :=
  filter (fun n => name_key n ≠ name_key p) order.

(** [i] is the index of the last line of [lines] that satisfies [p]. *)
Definition last_match_at (p : string → bool) (lines : list string) (i : nat)
  : Prop :=
  (∃ ln, lines !! i = Some ln ∧ p ln = true) ∧
  ∀ j ln, i < j → lines !! j = Some ln → p ln = false.

(** The test of the first loop of [set_mod_enabled_in_lines] (the line is
    an entry of the mod) and the test of its second loop (the line has the
    payload of the mod, comment or not). *)
Definition is_mod_entry (mod_name ln : string) : bool :=
  let s := strip ln in is_entry s && payload_is mod_name s.

Definition has_mod_payload (mod_name ln : string) : bool :=
  payload_is mod_name (strip ln).

(** The line [set_mod_enabled_in_lines] writes for a mod:
    [entry + "\n"]. *)
Definition mod_entry (mod_name : string) (enable : bool) : string :=
  (if enable then "+" else "-") +:+ mod_name +:+ nl.

(** What the specification asks of [setEntry], in its words: with no
    occurrence a new signed entry is appended; otherwise every occurrence
    but the last is removed and the last one is rewritten where it is. *)
Fixpoint rewrite_last_occurrence (occurs : string → bool) (entry : string)
    (lines : list string) : list string :=
  match lines with
  | [] => []
  | ln :: rest =>
      if occurs ln then
        if existsb occurs rest
        then rewrite_last_occurrence occurs entry rest
        else entry :: rest
      else ln :: rewrite_last_occurrence occurs entry rest
  end.

Definition set_entry_spec (lines : list string) (mod_name : string)
    (enable : bool) : list string :=
  let norm := map add_nl lines in
  if existsb (is_mod_entry mod_name) norm
  then rewrite_last_occurrence (is_mod_entry mod_name)
         (mod_entry mod_name enable) norm
  else norm ++ [mod_entry mod_name enable].

(** The line feed. *)
Definition lf : ascii := "010"%char.

(** Every line of a result ends with a line feed. *)
Definition newline_ended (lines : list string) : Prop :=
  lines ≠ [] ∧ Forall (fun ln => endswith ln nl = true) lines.

(** No call raises. *)
Definition no_fault : list fs_call → fs_call → bool := fun _ _ => false.

(** A profile whose mod list is as a run with [A] to enable and [B] to
    disable leaves it. *)
Definition synced_profile : fs :=
  mk_fs {["modlist.txt" := "+A" +:+ nl +:+ "-B" +:+ nl]} [] [].

(** The line [ln] puts the mod [m] among the enabled names. *)
Definition enables (m ln : string) : bool :=
  let s := strip ln in
  is_entry s && startswith s "+" && String.eqb (strip (tail1 s)) m.

(** Enable wins conflicts: a mod named in both sets is among the enabled
    names of the lines [apply_mod_sets] computes. *)
Definition enable_wins (lines : list string)
    (mods_to_enable mods_to_disable : gset string) : Prop :=
  ∀ m, m ∈ mods_to_enable → m ∈ mods_to_disable →
       m ∈ enabled_names
             (apply_mod_sets_lines lines mods_to_enable mods_to_disable).


(** Failing calls to [os.replace]. *)
Definition replace_fails : list fs_call → fs_call → bool :=
  fun _ c => match c with Replace _ _ => true | _ => false end.

(** The lines [_read_plugingroups_file] reads as [name|group] entries. *)
Definition is_group_line (raw : string) : bool :=
  let s := strip (rstrip_nl raw) in
  is_entry s && contains_char "|" s &&
  negb (String.eqb (strip (split_once "|" s).1) EmptyString) &&
  negb (String.eqb (strip (split_once "|" s).2) EmptyString).

(** The other lines, as they are kept: the free-form lines. *)
Definition free_lines (file_lines : list string) : list string :=
  map rstrip_nl (filter (fun raw => negb (is_group_line raw)) file_lines).

(** The plugin is active in the activation list: the last line that names
    it starts with a star. *)
Definition plugin_active (lines : list string) (plugin : string) : Prop :=
  ∃ i ln,
    last_match_at (plugin_line_is (name_key plugin)) lines i ∧
    lines !! i = Some ln ∧
    startswith (strip ln) "*" = true.

(** [s] holds a line boundary of [str.splitlines]. *)
Fixpoint has_linebreak (s : string) : bool :=
  match s with
  | EmptyString => false
  | String c s' => is_linebreak c || has_linebreak s'
  end.

(** A name the load-order file keeps as it is: stripped, not empty, no
    comment, on one line. *)
Definition loadorder_name (n : string) : Prop :=
  has_linebreak n = false ∧ strip n = n ∧ is_entry n = true.

Section PluginsFile.
Variable faulty : list fs_call -> fs_call -> bool.

(** [_read_plugins_file]; a file that is not there reads as the default
    lines. *)
Definition _read_plugins_file (path : string) : io (list string) :=
  text ← read_file path;
  mret (match text with
        | Some t => splitlines true t
        | None => plugins_default_lines
        end).

Definition _ensure_plugin_enabled (ppath plugin : string) : io unit :=
  lines ← _read_plugins_file ppath;
  let '(new_lines, changed) :=
    _set_plugin_enabled_in_plugins_lines lines plugin true in
  if changed
  then _write_plugins_file faulty ppath new_lines ;;
       log_msg "plugins.txt: enabled"
  else mret ().

Definition _ensure_all_enabled (ppath : string) (plugins : list string)
  : io unit :=
  lines ← _read_plugins_file ppath;
  let '(lines, changed) := _ensure_all_enabled_lines lines plugins in
  if changed
  then _write_plugins_file faulty ppath lines ;;
       log_msg "plugins.txt: batch activation"
  else mret ().
End PluginsFile.

(** ** The sets of the caller ([StartupDashboard.py])

    [_merge_rules_key] on the [enable] and [disable] lists of the rule it
    looked up ([data.get("enable", [])], [data.get("disable", [])]) and
    the two sets of mod names. *)
Definition _merge_rules_key (data_enable data_disable : list string)
    (sets : gset string * gset string) : gset string * gset string :=
  let sets :=
    foldl (fun '(mods_enable, mods_disable) m =>
             (mods_enable ∪ {[m]}, mods_disable ∖ {[m]}))
      sets data_enable in
  foldl (fun '(mods_enable, mods_disable) m =>
           (mods_enable ∖ {[m]}, mods_disable ∪ {[m]}))
    sets data_disable.

(** The sets [on_apply] builds from the rules of the selections, in their
    order, starting from two empty sets. *)
Definition merged_sets (rules : list (list string * list string))
  : gset string * gset string :=
  foldl (fun sets '(data_enable, data_disable) =>
           _merge_rules_key data_enable data_disable sets)
    (∅, ∅) rules.

(** The elements of a list, each at its first occurrence. *)
Fixpoint first_occurrences (l : list string) : list string :=
  match l with
  | [] => []
  | x :: l' => x :: filter (fun y => y ≠ x) (first_occurrences l')
  end.

(** The line of the group file for a plugin of the mapping. *)
Definition group_line_of (mapping : list (string * string)) (p : string)
  : option string :=
  group_line p <$> dict_get mapping p.

(** The part of the written group file before the mapping: the header,
    a blank line after a header that does not end with one, the free-form
    lines. *)
Definition groups_preamble (header others : list string) : list string :=
  _write_plugingroups_lines [] [] header others.

(** The group the merge source gives to the plugin [k]: that of its last
    pair that names [k] once stripped, with a name and a group that are
    not blank. *)
Definition source_group (group_map : list (string * string)) (k : string)
  : option string :=
  last (omap (fun '(plugin, group) =>
                if negb (String.eqb (strip plugin) EmptyString)
                   && negb (String.eqb (strip group) EmptyString)
                   && String.eqb (strip plugin) k
                then Some (strip group) else None)
          group_map).

Section AnchorRules.
(** [re_search pattern] stands for [re.compile(pattern, re.IGNORECASE)]
    and the [search] of the compiled pattern; it is [None] for a pattern
    that does not compile. *)
Variable re_search : string -> option (string -> bool).

(** [_resolve_anchor_ci]; [None] is a rule without the key. *)
Definition _resolve_anchor_ci (name_or_regex : option string)
    (names : list string) (allow_regex : bool) : gset string :=
  match name_or_regex with
  | None => ∅
  | Some s =>
      if decide (s = EmptyString) then ∅
      else
        match (if allow_regex then re_search s else None) with
        | Some rgx => list_to_set (filter (fun n => rgx n = true) names)
        | None =>
            let low := lower (strip s) in
            list_to_set (filter (fun n => lower (strip n) = low) names)
        end
  end.
End AnchorRules.

(** Some character of [s] satisfies [P]. *)
Fixpoint string_any (P : ascii → bool) (s : string) : bool :=
  match s with
  | EmptyString => false
  | String c s' => P c || string_any P s'
  end.

(** A plugin name and a group name as a line of the group file can hold
    them: stripped, not empty, on one line; a plugin name holds no bar and
    does not start a comment. *)
Definition group_key (p : string) : Prop :=
  strip p = p ∧ is_entry p = true ∧
  contains_char "|" p = false ∧ has_linebreak p = false.

Definition group_name (g : string) : Prop :=
  strip g = g ∧ g ≠ EmptyString ∧ has_linebreak g = false.

(** ** The selected profile ([Data/mo2_helpers.py]) *)

(** [s.replace(old, "")]: the occurrences of [old] are taken out from left
    to right; [skip] counts the characters of an occurrence that are still
    to pass. *)
Fixpoint remove_all_from (skip : nat) (old s : string) : string :=
  match s with
  | EmptyString => EmptyString
  | String c s' =>
      match skip with
      | S k => remove_all_from k old s'
      | 0 =>
          if negb (String.eqb old EmptyString) && String.prefix old s
          then remove_all_from (String.length old - 1) old s'
          else String c (remove_all_from 0 old s')
      end
  end.

Definition remove_all (old s : string) : string := remove_all_from 0 old s.

(** [selected_profile_from_ini], from the text of [ModOrganizer.ini];
    [None] is a file that is not there or cannot be read. *)
Definition selected_profile_from_ini (ini : option string) : string :=
  match ini with
  | None => "Default"
  | Some text =>
      match list_find
              (fun line => startswith (strip line) "selected_profile" = true)
              (splitlines false text) with
      | Some (_, line) =>
          let raw :=
            strip (if contains_char "=" line
                   then (split_once "=" line).2 else line) in
          let name := strip (remove_all ")" (remove_all "@ByteArray(" raw)) in
          if decide (name = EmptyString) then "Default" else name
      | None => "Default"
      end
  end.

(** A line of the mod list as it is read or written: one line, with or
    without the line feed that ends it. *)
Definition one_line (ln : string) : Prop :=
  ∃ x, has_linebreak x = false ∧ (ln = x ∨ ln = x +:+ nl).

(** ** The incremental synchronisation ([Data/plugins.py]) *)

(** [for x in l: body(x)] *)
Fixpoint for_each {A} (l : list A) (body : A → io unit) : io unit :=
  match l with
  | [] => mret ()
  | x :: l' => body x ;; for_each l' body
  end.

Section IncrementalSync.
Variable faulty : list fs_call → fs_call → bool.
(** The anchor sets of the rule of a plugin, as in [insert_new_plugins]. *)
Variable anchors_for : string → list string → gset string * gset string.

(** [_read_loadorder_file]; a file that is not there reads as no entry. *)
Definition _read_loadorder_file (path : string) : io (list string) :=
  text ← read_file path;
  mret (match text with
        | Some t => _read_loadorder_lines (splitlines false t)
        | None => []
        end).

(** [sync_new_plugins_incremental] from the point where the plugins of the
    enabled mods are discovered: [discovered] is
    [sorted(discovered, key=str.lower)], [lpath] and [ppath] are the
    load-order file and the activation file of the profile. *)
Definition sync_new_plugins_incremental
    (lpath ppath : string) (discovered : list string) : io unit :=
  order ← _read_loadorder_file lpath;
  let order_ci : gset string := list_to_set (map name_key order) in
  let new_plugins := filter (fun p => name_key p ∉ order_ci) discovered in
  log_msg "Incremental loadorder: new plugin(s) to place" ;;
  for_each new_plugins
    (fun p =>
       order ← _read_loadorder_file lpath;
       let names_now := order in
       let '(before, after) := anchors_for p names_now in
       let '(anchor, pos) := select_anchor names_now before after in
       let new_order := _insert_relative_once names_now p anchor pos in
       _write_loadorder_file faulty lpath new_order ;;
       log_msg "Inserted" ;;
       try_except (_ensure_plugin_enabled faulty ppath p)
         (fun e => log_msg "Auto-activation in plugins.txt failed")) ;;
  final_order ← _read_loadorder_file lpath;
  try_except (_ensure_all_enabled faulty ppath final_order)
    (fun e => log_msg "Batch activation in plugins.txt failed") ;;
  log_msg "loadorder.txt up-to-date".
End IncrementalSync.

(** * Properties *)

(** ** Lists *)

Lemma py_insert_splits {A} (i : nat) (x : A) (l : list A) :
  ∃ l1 l2, l = l1 ++ l2 ∧ py_insert i x l = l1 ++ x :: l2.
Proof.
  exists (take i l), (drop i l). split; [|done]. by rewrite take_drop.
Qed.

Lemma py_insert_at_length {A} (x : A) (l1 l2 : list A) :
  py_insert (length l1) x (l1 ++ l2) = l1 ++ x :: l2.
Proof.
  unfold py_insert. by rewrite take_app_length, drop_app_length.
Qed.

Lemma py_insert_at_end {A} (x : A) (l : list A) :
  py_insert (length l) x l = l ++ [x].
Proof.
  unfold py_insert. by rewrite firstn_all, drop_all.
Qed.

Lemma StronglySorted_lookup {A} (R : relation A) (l : list A) i j x y :
  StronglySorted R l → i < j → l !! i = Some x → l !! j = Some y → R x y.
Proof.
  intros Hs. revert i j. induction Hs as [|a l Hs IH Hall]; intros i j Hij Hi Hj.
  - done.
  - destruct j as [|j]; [lia|]. destruct i as [|i]; simpl in *.
    + simplify_eq. rewrite Forall_forall in Hall. apply Hall.
      by eapply list_elem_of_lookup_2.
    + eapply IH; [|done..]. lia.
Qed.

(** ** Extension ranks and buckets *)

Lemma _plugin_ext_rank_le_3 name : _plugin_ext_rank name ≤ 3.
Proof. unfold _plugin_ext_rank. repeat case_match; lia. Qed.

Lemma bucket_append_lookup bk r n k :
  bucket_append bk r n !!! k =
    if decide (r = k) then bk !!! k ++ [n] else bk !!! k.
Proof.
  unfold bucket_append. case_decide as Hk.
  - subst. by rewrite lookup_total_insert_eq.
  - by rewrite lookup_total_insert_ne.
Qed.

Lemma partition_fold_lookup order bk k :
  foldl (fun buckets n => bucket_append buckets (_plugin_ext_rank n) n)
    bk order !!! k = bk !!! k ++ rank_bucket k order.
Proof.
  revert bk. induction order as [|n order IH]; intros bk; simpl.
  - by rewrite app_nil_r.
  - rewrite IH, bucket_append_lookup. unfold rank_bucket.
    rewrite filter_cons. repeat case_decide; simplify_eq; try done.
    by rewrite <- app_assoc.
Qed.

Lemma _partition_by_ext_lookup order k :
  _partition_by_ext order !!! k = rank_bucket k order.
Proof.
  unfold _partition_by_ext. rewrite partition_fold_lookup.
  assert (empty_buckets !!! k = []) as ->; [|done].
  unfold empty_buckets.
  destruct k as [|[|[|[|k]]]]; [reflexivity..|].
  by rewrite !lookup_total_insert_ne, lookup_total_empty by lia.
Qed.

Lemma _merge_partition order :
  _merge_buckets (_partition_by_ext order) = stable_by_rank order.
Proof.
  unfold _merge_buckets, stable_by_rank.
  by rewrite !_partition_by_ext_lookup.
Qed.

Lemma _merge_buckets_insert bk pr tgt :
  pr ≤ 3 →
  _merge_buckets (<[pr := tgt]> bk) =
    (if decide (pr = 0) then tgt else bk !!! 0) ++
    (if decide (pr = 1) then tgt else bk !!! 1) ++
    (if decide (pr = 2) then tgt else bk !!! 2) ++
    (if decide (pr = 3) then tgt else bk !!! 3).
Proof.
  intros Hpr. unfold _merge_buckets.
  destruct pr as [|[|[|[|pr]]]]; try lia; simpl;
    rewrite lookup_total_insert_eq, !lookup_total_insert_ne by done; done.
Qed.

Lemma rank_bucket_all k l :
  Forall (fun n => _plugin_ext_rank n = k) (rank_bucket k l).
Proof.
  apply Forall_forall. intros x Hx.
  apply list_elem_of_filter in Hx. tauto.
Qed.

Lemma same_rank_sorted k l :
  Forall (fun n => _plugin_ext_rank n = k) l →
  StronglySorted (fun x y => _plugin_ext_rank x ≤ _plugin_ext_rank y) l.
Proof.
  induction 1 as [|x l Hx Hl IH]; constructor; [done|].
  eapply Forall_impl; [exact Hl|]. simpl. intros; lia.
Qed.

Lemma ranked_groups_sorted b0 b1 b2 b3 :
  Forall (fun n => _plugin_ext_rank n = 0) b0 →
  Forall (fun n => _plugin_ext_rank n = 1) b1 →
  Forall (fun n => _plugin_ext_rank n = 2) b2 →
  Forall (fun n => _plugin_ext_rank n = 3) b3 →
  rank_partitioned (b0 ++ b1 ++ b2 ++ b3).
Proof.
  intros H0 H1 H2 H3 i j x y Hij Hi Hj.
  eapply (StronglySorted_lookup
            (fun x y => _plugin_ext_rank x ≤ _plugin_ext_rank y));
    [|exact Hij|exact Hi|exact Hj].
  repeat apply StronglySorted_app_2; eauto using same_rank_sorted.
  all: rewrite Forall_forall in H0, H1, H2, H3.
  all: intros x1 x2 Hx1 Hx2; rewrite ?elem_of_app in Hx2.
  all: repeat match goal with
       | H : _ ∨ _ |- _ => destruct H
       | H : ?x ∈ ?b, Hb : ∀ x, x ∈ ?b → _ |- _ => apply Hb in H
       end; lia.
Qed.

Lemma rank_bucket_above k l : 3 < k → rank_bucket k l = [].
Proof.
  intros Hk. induction l as [|x l IH]; [done|].
  unfold rank_bucket in *. rewrite filter_cons, IH.
  pose proof (_plugin_ext_rank_le_3 x). case_decide; [lia|done].
Qed.

Lemma rank_bucket_bucket k j l :
  rank_bucket k (rank_bucket j l) =
    if decide (k = j) then rank_bucket k l else [].
Proof.
  unfold rank_bucket. induction l as [|x l IH]; [by case_decide|].
  rewrite !filter_cons.
  destruct (decide (_plugin_ext_rank x = j)) as [Hj|Hj];
    destruct (decide (k = j)) as [Hk|Hk]; subst;
    rewrite ?filter_cons, ?IH;
    repeat case_decide; simplify_eq; try lia; done.
Qed.

Lemma rank_bucket_stable k l :
  rank_bucket k (stable_by_rank l) = rank_bucket k l.
Proof.
  unfold stable_by_rank.
  assert (∀ a b, rank_bucket k (a ++ b) = rank_bucket k a ++ rank_bucket k b)
    as Happ by (intros; apply filter_app).
  rewrite !Happ, !rank_bucket_bucket.
  destruct (decide (3 < k)) as [Hk|Hk].
  - rewrite (rank_bucket_above k l Hk).
    repeat case_decide; try lia; done.
  - destruct k as [|[|[|[|k]]]]; try lia; simpl; by rewrite ?app_nil_r.
Qed.

Lemma rank_bucket_filter (P : string → Prop) `{∀ x, Decision (P x)} k l :
  rank_bucket k (filter P l) = filter P (rank_bucket k l).
Proof.
  unfold rank_bucket. rewrite !list_filter_filter.
  apply list_filter_iff. tauto.
Qed.

Lemma stable_by_rank_filter (P : string → Prop) `{∀ x, Decision (P x)} l :
  stable_by_rank (filter P l) = filter P (stable_by_rank l).
Proof.
  unfold stable_by_rank. by rewrite !filter_app, !rank_bucket_filter.
Qed.

Lemma rank_partitioned_cons x l :
  rank_partitioned (x :: l) →
  rank_partitioned l ∧ Forall (fun y => _plugin_ext_rank x ≤ _plugin_ext_rank y) l.
Proof.
  intros Hp. split.
  - intros i j a b Hij Hi Hj. apply (Hp (S i) (S j)); [lia|done..].
  - apply Forall_forall. intros y Hy.
    apply list_elem_of_lookup in Hy as [j Hj].
    apply (Hp 0 (S j)); [lia|done..].
Qed.

Lemma rank_bucket_below k r l :
  Forall (fun y => r ≤ _plugin_ext_rank y) l → k < r → rank_bucket k l = [].
Proof.
  intros Hall Hk. unfold rank_bucket.
  induction Hall as [|y l Hy Hl IH]; [done|].
  rewrite filter_cons, IH. case_decide; [lia|done].
Qed.

Lemma rank_bucket_cons k x l :
  rank_bucket k (x :: l) =
    if decide (_plugin_ext_rank x = k) then x :: rank_bucket k l
    else rank_bucket k l.
Proof. unfold rank_bucket. by rewrite filter_cons. Qed.

Lemma stable_by_rank_partitioned l :
  rank_partitioned l → stable_by_rank l = l.
Proof.
  induction l as [|x l IH]; [done|].
  intros [Hl Hx]%rank_partitioned_cons.
  specialize (IH Hl). unfold stable_by_rank in *.
  rewrite !rank_bucket_cons.
  pose proof (_plugin_ext_rank_le_3 x) as Hr.
  pose proof (fun k => rank_bucket_below k _ l Hx) as Hbelow.
  destruct (_plugin_ext_rank x) as [|[|[|[|r]]]] eqn:Er; try lia;
    repeat case_decide; try lia; simpl.
  - by rewrite IH.
  - rewrite (Hbelow 0) in * by lia. simpl in *. by rewrite IH.
  - rewrite (Hbelow 0), (Hbelow 1) in * by lia. simpl in *. by rewrite IH.
  - rewrite (Hbelow 0), (Hbelow 1), (Hbelow 2) in * by lia. simpl in *.
    by rewrite IH.
Qed.

(** The shape of every result of [_insert_relative_once]: the buckets of
    the order without [plugin], with [plugin] put somewhere into the bucket
    of its own rank. *)
Lemma _insert_relative_once_shape current_order plugin anchor position :
  let order := without_plugin plugin current_order in
  let pr := _plugin_ext_rank plugin in
  ∃ t1 t2,
    rank_bucket pr order = t1 ++ t2 ∧
    _insert_relative_once current_order plugin anchor position =
      _merge_buckets (<[pr := t1 ++ plugin :: t2]> (_partition_by_ext order)).
Proof.
  intros order pr. unfold _insert_relative_once.
  fold (without_plugin plugin current_order). fold order. fold pr.
  change (default [] (_partition_by_ext order !! pr))
    with (_partition_by_ext order !!! pr).
  rewrite _partition_by_ext_lookup.
  set (tgt := rank_bucket pr order).
  assert (∃ t1 t2, tgt = t1 ++ t2 ∧ tgt ++ [plugin] = t1 ++ plugin :: t2)
    as Hend by (exists tgt, []; by rewrite app_nil_r).
  assert (∀ idx, ∃ t1 t2, tgt = t1 ++ t2 ∧
            py_insert idx plugin tgt = t1 ++ plugin :: t2) as Hins
    by (intros; apply py_insert_splits).
  destruct anchor as [a|]; repeat case_decide;
    try destruct (list_find _ tgt) as [[idx ?]|].
  all: first
    [ destruct Hend as (t1 & t2 & ? & ->); by eauto
    | destruct (Hins idx) as (t1 & t2 & ? & ->); by eauto
    | destruct (Hins (idx + 1)) as (t1 & t2 & ? & ->); by eauto ].
Qed.

Lemma _insert_relative_once_partitioned current_order plugin anchor position :
  rank_partitioned
    (_insert_relative_once current_order plugin anchor position).
Proof.
  destruct (_insert_relative_once_shape current_order plugin anchor position)
    as (t1 & t2 & Ht & ->).
  pose proof (_plugin_ext_rank_le_3 plugin) as Hr.
  rewrite _merge_buckets_insert, !_partition_by_ext_lookup by done.
  pose proof (rank_bucket_all (_plugin_ext_rank plugin)
                (without_plugin plugin current_order)) as Hall.
  rewrite Ht in Hall. apply Forall_app in Hall as [Ht1 Ht2].
  assert (Forall (fun n => _plugin_ext_rank n = _plugin_ext_rank plugin)
            (t1 ++ plugin :: t2)) as Hnew.
  { apply Forall_app. split; [done|]. by constructor. }
  apply ranked_groups_sorted; case_decide as Hk;
    try apply rank_bucket_all; by rewrite <- Hk.
Qed.

(** The merged buckets around the bucket of one rank: the entries of
    lower rank, the bucket, the entries of higher rank. *)
Lemma _merge_buckets_around order pr :
  pr ≤ 3 →
  ∃ lo hi,
    (∀ tgt, _merge_buckets (<[pr := tgt]> (_partition_by_ext order))
            = lo ++ tgt ++ hi) ∧
    stable_by_rank order = lo ++ rank_bucket pr order ++ hi ∧
    Forall (fun n => _plugin_ext_rank n < pr) lo ∧
    Forall (fun n => pr < _plugin_ext_rank n) hi.
Proof.
  intros Hpr.
  assert (∀ k (P : string → Prop),
            (∀ n, _plugin_ext_rank n = k → P n) →
            Forall P (rank_bucket k order)) as Hb.
  { intros k P HP. eapply Forall_impl; [apply rank_bucket_all|done]. }
  destruct pr as [|[|[|[|pr]]]]; [| | | |lia].
  - exists [], (rank_bucket 1 order ++ rank_bucket 2 order
                  ++ rank_bucket 3 order).
    split_and!; [|done|done|].
    + intros tgt. by rewrite _merge_buckets_insert,
                    !_partition_by_ext_lookup by done.
    + rewrite !Forall_app. split_and!; apply Hb; lia.
  - exists (rank_bucket 0 order), (rank_bucket 2 order ++ rank_bucket 3 order).
    split_and!; [|done| |].
    + intros tgt. by rewrite _merge_buckets_insert,
                    !_partition_by_ext_lookup by done.
    + apply Hb; lia.
    + rewrite !Forall_app. split_and!; apply Hb; lia.
  - exists (rank_bucket 0 order ++ rank_bucket 1 order), (rank_bucket 3 order).
    split_and!.
    + intros tgt. rewrite _merge_buckets_insert,
                    !_partition_by_ext_lookup by done.
      simpl. by rewrite <- !app_assoc.
    + unfold stable_by_rank. by rewrite <- !app_assoc.
    + rewrite !Forall_app. split_and!; apply Hb; lia.
    + apply Hb; lia.
  - exists (rank_bucket 0 order ++ rank_bucket 1 order ++ rank_bucket 2 order),
      [].
    split_and!; [| | |done].
    + intros tgt. rewrite _merge_buckets_insert,
                    !_partition_by_ext_lookup by done.
      simpl. by rewrite <- !app_assoc, app_nil_r.
    + unfold stable_by_rank. by rewrite <- !app_assoc, app_nil_r.
    + rewrite !Forall_app. split_and!; apply Hb; lia.
Qed.

(** ** Anchors *)

Lemma filter_all {A} (P : A → Prop) `{∀ x, Decision (P x)} (l : list A) :
  Forall P l → filter P l = l.
Proof.
  induction 1 as [|x l Hx Hl IH]; [done|].
  by rewrite filter_cons_True, IH.
Qed.

Lemma select_anchor_Some names_now before after a pos :
  select_anchor names_now before after = (Some a, pos) →
  a ≠ EmptyString ∧
  (pos = "before" ∧ _pick_anchor_in_current_order names_now before = Some a
   ∨ pos = "after" ∧ _pick_anchor_in_current_order names_now after = Some a).
Proof.
  unfold select_anchor.
  destruct (decide (before ≠ ∅)) as [Hb|Hb];
    [destruct (_pick_anchor_in_current_order names_now before) as [b|];
     [destruct (decide (b ≠ EmptyString)) as [Hne|Hne]|]|]; cbn [fst].
  1: { rewrite decide_False by (intros [? _]; done).
       intros [= <- <-]. auto. }
  all: destruct (decide (None = None ∧ after ≠ ∅)) as [[_ Ha]|Hn]; [|done].
  all: destruct (_pick_anchor_in_current_order names_now after) as [c|];
    [destruct (decide (c ≠ EmptyString)) as [Hc|Hc]|]; try done.
  all: intros [= <- <-]; auto.
Qed.

Lemma select_anchor_None names_now before after pos :
  select_anchor names_now before after = (None, pos) → pos = "end".
Proof.
  unfold select_anchor.
  destruct (decide (before ≠ ∅)) as [Hb|Hb];
    [destruct (_pick_anchor_in_current_order names_now before) as [b|];
     [destruct (decide (b ≠ EmptyString)) as [Hne|Hne]|]|]; cbn [fst].
  1: { rewrite decide_False by (intros [? _]; done). done. }
  all: destruct (decide (None = None ∧ after ≠ ∅)) as [[_ Ha]|Hn];
    [|by intros [= <-]].
  all: destruct (_pick_anchor_in_current_order names_now after) as [c|];
    [destruct (decide (c ≠ EmptyString)) as [Hc|Hc]|]; try done.
  all: by intros [= <-].
Qed.

Lemma _pick_anchor_Some current_order anchors a :
  _pick_anchor_in_current_order current_order anchors = Some a →
  ∃ i, current_order !! i = Some a ∧
       lower a ∈ (set_map lower anchors : gset string) ∧
       ∀ j y, current_order !! j = Some y → j < i →
              lower y ∉ (set_map lower anchors : gset string).
Proof.
  unfold _pick_anchor_in_current_order. case_decide; [done|].
  intros ([i x] & Hfind & ->)%fmap_Some.
  apply list_find_Some in Hfind. exists i. naive_solver.
Qed.

(** In an order whose entries are stripped, as [_read_loadorder_file] leaves
    them, the picked anchor is the first entry of its bucket with its key. *)
Lemma picked_anchor_in_bucket order anchors a :
  Forall (fun n => strip n = n) order →
  _pick_anchor_in_current_order order anchors = Some a →
  ∃ l1 l2,
    rank_bucket (_plugin_ext_rank a) order = l1 ++ a :: l2 ∧
    Forall (fun n => name_key n ≠ name_key a) l1 ∧
    list_find (fun n => name_key n = name_key a)
      (rank_bucket (_plugin_ext_rank a) order) = Some (length l1, a).
Proof.
  intros Hclean Hpick.
  apply _pick_anchor_Some in Hpick as (i & Hi & Ha & Hfirst).
  set (r := _plugin_ext_rank a).
  exists (rank_bucket r (take i order)), (rank_bucket r (drop (S i) order)).
  assert (rank_bucket r order =
          rank_bucket r (take i order) ++ a :: rank_bucket r (drop (S i) order))
    as Hsplit.
  { rewrite <- (take_drop_middle order i a Hi) at 1.
    unfold rank_bucket. rewrite filter_app, filter_cons_True; done. }
  assert (Forall (fun n => name_key n ≠ name_key a)
            (rank_bucket r (take i order))) as Hl1.
  { apply Forall_forall. intros n Hn.
    apply list_elem_of_filter in Hn as [_ Hn].
    apply elem_of_take in Hn as (j & Hj & Hlt).
    rewrite Forall_forall in Hclean. unfold name_key.
    rewrite (Hclean n), (Hclean a) by (by eapply list_elem_of_lookup_2).
    intros Heq. apply (Hfirst j n Hj Hlt). by rewrite Heq. }
  split_and!; [done..|].
  rewrite Hsplit, list_find_app_r.
  - simpl. rewrite decide_True by done. simpl. f_equal.
  - apply list_find_None. eapply Forall_impl; [exact Hl1|]. naive_solver.
Qed.

(** ** The load-order merger *)

(** C1, as amended: [_insert_relative_once] puts the plugin in at one place
    of the order regrouped by extension rank (and without the entries that
    name the plugin, compared stripped and lower-cased), in the group of
    its rank: the entries before it have its rank or a lower one, the
    entries after it its rank or a higher one.  The entries of one rank
    keep their relative order, and when the order read is already
    partitioned by rank every entry does. *)
Theorem insert_relative_once_keeps_rank_order
    current_order plugin anchor position :
  let old := without_plugin plugin current_order in
  let pr := _plugin_ext_rank plugin in
  ∃ l1 l2,
    _insert_relative_once current_order plugin anchor position
      = l1 ++ plugin :: l2 ∧
    l1 ++ l2 = stable_by_rank old ∧
    Forall (fun n => _plugin_ext_rank n ≤ pr) l1 ∧
    Forall (fun n => pr ≤ _plugin_ext_rank n) l2 ∧
    (∀ k, rank_bucket k (l1 ++ l2) = rank_bucket k old) ∧
    (rank_partitioned current_order → l1 ++ l2 = old).
Proof.
  intros old pr.
  destruct (_insert_relative_once_shape current_order plugin anchor position)
    as (t1 & t2 & Ht & ->). fold old in Ht |- *. fold pr in Ht |- *.
  destruct (_merge_buckets_around old pr (_plugin_ext_rank_le_3 plugin))
    as (lo & hi & -> & Hold & Hlo & Hhi).
  pose proof (rank_bucket_all pr old) as Hall.
  rewrite Ht in Hold, Hall. apply Forall_app in Hall as [Ht1 Ht2].
  exists (lo ++ t1), (t2 ++ hi). split_and!.
  - by rewrite <- !app_assoc.
  - by rewrite Hold, <- !app_assoc.
  - apply Forall_app. split.
    + eapply Forall_impl; [exact Hlo|]. simpl. intros; lia.
    + eapply Forall_impl; [exact Ht1|]. simpl. intros; lia.
  - apply Forall_app. split.
    + eapply Forall_impl; [exact Ht2|]. simpl. intros; lia.
    + eapply Forall_impl; [exact Hhi|]. simpl. intros; lia.
  - intros k. rewrite <- (rank_bucket_stable k old), Hold.
    by rewrite <- !app_assoc.
  - intros Hpart.
    assert ((lo ++ t1) ++ t2 ++ hi = stable_by_rank old) as ->
      by (by rewrite Hold, <- !app_assoc).
    unfold old, without_plugin.
    by rewrite stable_by_rank_filter, stable_by_rank_partitioned.
Qed.

(** The order [a.esp, b.esm] is not partitioned by rank: inserting [c.esp]
    moves [b.esm] in front of [a.esp]. *)
Example insert_relative_once_unpartitioned_order :
  _insert_relative_once ["a.esp"; "b.esm"] "c.esp" None "end"
    = ["b.esm"; "a.esp"; "c.esp"].
Proof. reflexivity. Qed.

(** C1, as stated, fails: the entries already there do not keep their
    relative order when the order read is not partitioned by rank. *)
Lemma insert_relative_once_reorders_across_ranks :
  ¬ spliced_into "c.esp"
      (without_plugin "c.esp" ["a.esp"; "b.esm"])
      (_insert_relative_once ["a.esp"; "b.esm"] "c.esp" None "end").
Proof.
  intros (l1 & l2 & Hnew & Hold).
  vm_compute in Hnew, Hold.
  destruct l1 as [|x1 [|x2 [|x3 l1]]]; simplify_eq/=.
Qed.

Lemma insert_relative_once_keeps_rank_order_witness :
  rank_partitioned ["A.esm"; "B.esp"] ∧
  spliced_into "X.esp" ["A.esm"; "B.esp"]
    (_insert_relative_once ["A.esm"; "B.esp"] "X.esp" None "end").
Proof.
  assert (rank_partitioned ["A.esm"; "B.esp"]) as Hpart.
  { apply (ranked_groups_sorted ["A.esm"] ["B.esp"] [] []);
      repeat constructor. }
  split; [exact Hpart|].
  destruct (insert_relative_once_keeps_rank_order
              ["A.esm"; "B.esp"] "X.esp" None "end")
    as (l1 & l2 & Hnew & _ & _ & _ & _ & Hold).
  exists l1, l2. split; [exact Hnew|]. symmetry. exact (Hold Hpart).
Defined.

(** C3: after the merger has inserted new plugins one by one, whatever
    anchors their rules resolve to and in whatever order they come, the
    order is partitioned by extension rank: ranks never decrease along it.
    (With nothing to insert, the order is left as it was read.) *)
Theorem insert_new_plugins_rank_partitioned
    (anchors_for : string → list string → gset string * gset string)
    (order new_plugins : list string) :
  new_plugins ≠ [] ∨ rank_partitioned order →
  rank_partitioned (insert_new_plugins anchors_for order new_plugins).
Proof.
  unfold insert_new_plugins.
  induction new_plugins as [|p ps _] using rev_ind; intros Hne.
  - by destruct Hne.
  - rewrite foldl_snoc. destruct (anchors_for _ _) as [before after].
    unfold place_new_plugin. destruct (select_anchor _ _ _).
    apply _insert_relative_once_partitioned.
Qed.

Lemma insert_new_plugins_rank_partitioned_witness :
  (["d.esl"; "c.esp"] ≠ [] ∨ rank_partitioned ["b.esp"; "a.esm"]) ∧
  rank_partitioned
    (insert_new_plugins (fun _ _ => (∅, ∅))
       ["b.esp"; "a.esm"] ["d.esl"; "c.esp"]).
Proof.
  assert (["d.esl"; "c.esp"] ≠ [] ∨ rank_partitioned ["b.esp"; "a.esm"])
    as Hne by (left; discriminate).
  split; [exact Hne|].
  exact (insert_new_plugins_rank_partitioned _ _ _ Hne).
Defined.

Lemma py_insert_after {A} (x a : A) (l1 l2 : list A) :
  py_insert (length l1 + 1) x (l1 ++ a :: l2) = l1 ++ a :: x :: l2.
Proof.
  unfold py_insert.
  rewrite take_app, drop_app, take_ge, drop_ge by lia.
  replace (length l1 + 1 - length l1) with 1 by lia.
  by rewrite <- app_assoc.
Qed.

Lemma same_key_same_rank n a :
  strip n = n → strip a = a → name_key n = name_key a →
  _plugin_ext_rank n = _plugin_ext_rank a.
Proof.
  unfold name_key, _plugin_ext_rank. intros -> -> ->. done.
Qed.

(** C2: in an order as [_read_loadorder_file] leaves it (entries stripped)
    and for a plugin [p] that no entry names, the order returned is the
    order regrouped by rank with [p] put in: immediately before the
    selected anchor on a "before" hit and immediately after it on an
    "after" hit when the anchor has the rank of [p] (the anchor is the
    first entry with its name); when the anchor has another rank, or there
    is no anchor, at the end of the bucket of its own rank, after every
    entry of its rank or a lower one and before every entry of a higher
    rank. *)
Theorem place_new_plugin_at_anchor
    (order : list string) (p : string) (before after : gset string) :
  Forall (fun n => strip n = n) order →
  Forall (fun n => name_key n ≠ name_key p) order →
  let pr := _plugin_ext_rank p in
  let out := place_new_plugin order p before after in
  let at_end_of_bucket :=
    ∃ l1 l2,
      out = l1 ++ p :: l2 ∧
      stable_by_rank order = l1 ++ l2 ∧
      Forall (fun n => _plugin_ext_rank n ≤ pr) l1 ∧
      Forall (fun n => pr < _plugin_ext_rank n) l2 in
  match select_anchor order before after with
  | (Some a, pos) =>
      if decide (_plugin_ext_rank a = pr) then
        ∃ l1 l2,
          stable_by_rank order = l1 ++ a :: l2 ∧
          Forall (fun n => name_key n ≠ name_key a) l1 ∧
          (pos = "before" ∧ out = l1 ++ p :: a :: l2
           ∨ pos = "after" ∧ out = l1 ++ a :: p :: l2)
      else at_end_of_bucket
  | (None, _) => at_end_of_bucket
  end.
Proof.
  intros Hclean Hnew pr out at_end. subst out at_end.
  unfold place_new_plugin.
  set (bk := _partition_by_ext order).
  destruct (_merge_buckets_around order pr (_plugin_ext_rank_le_3 p))
    as (lo & hi & Hmerge & Hold & Hlo & Hhi). fold bk in Hmerge.
  assert (bk !!! pr = rank_bucket pr order) as Hbk
    by apply _partition_by_ext_lookup.
  assert (∃ l1 l2,
            _merge_buckets (<[pr := bk !!! pr ++ [p]]> bk) = l1 ++ p :: l2 ∧
            stable_by_rank order = l1 ++ l2 ∧
            Forall (fun n => _plugin_ext_rank n ≤ pr) l1 ∧
            Forall (fun n => pr < _plugin_ext_rank n) l2) as Hend.
  { exists (lo ++ rank_bucket pr order), hi. split_and!.
    - by rewrite Hmerge, Hbk, <- !app_assoc.
    - by rewrite Hold, <- !app_assoc.
    - apply Forall_app. split.
      + eapply Forall_impl; [exact Hlo|]. simpl. intros; lia.
      + eapply Forall_impl; [apply rank_bucket_all|]. simpl. intros; lia.
    - done. }
  destruct (select_anchor order before after) as [[a|] pos] eqn:Hsel;
    unfold _insert_relative_once; rewrite (filter_all _ _ Hnew);
    fold bk; fold pr;
    change (default [] (bk !! pr)) with (bk !!! pr).
  2: done.
  apply select_anchor_Some in Hsel as [Ha Hsel].
  destruct (decide (a ≠ EmptyString)) as [_|?]; [|done].
  destruct (decide (_plugin_ext_rank a = pr)) as [Hr|Hr]; [|done].
  assert (∃ anchors, _pick_anchor_in_current_order order anchors = Some a)
    as [anchors Hpick] by (destruct Hsel as [[_ ?]|[_ ?]]; eauto).
  destruct (picked_anchor_in_bucket order anchors a Hclean Hpick)
    as (b1 & b2 & Hb & Hb1 & Hfind).
  rewrite Hr in Hb, Hfind. rewrite Hb in Hold.
  rewrite !Hbk, Hfind, !Hb.
  assert (a ∈ order) as Hin.
  { assert (a ∈ rank_bucket pr order) as Ha'
      by (rewrite Hb; apply elem_of_app; right; by left).
    by apply list_elem_of_filter in Ha' as [_ ?]. }
  rewrite Forall_forall in Hclean.
  exists (lo ++ b1), (b2 ++ hi). split_and!.
  - by rewrite Hold, <- !app_assoc.
  - apply Forall_app. split; [|done].
    apply Forall_forall. intros n Hn Hkey.
    assert (n ∈ order) as Hn'.
    { assert (n ∈ stable_by_rank order) as Hs
        by (rewrite Hold; apply elem_of_app; by left).
      unfold stable_by_rank, rank_bucket in Hs.
      rewrite !elem_of_app, !list_elem_of_filter in Hs. tauto. }
    rewrite Forall_forall in Hlo. specialize (Hlo n Hn).
    rewrite (same_key_same_rank n a) in Hlo by auto. lia.
  - destruct Hsel as [[-> _]|[-> _]]; [left|right]; (split; [done|]).
    + destruct (decide (lower "before" = "before")) as [_|Hn];
        [|by destruct Hn].
      by rewrite py_insert_at_length, Hmerge, <- !app_assoc.
    + destruct (decide (lower "after" = "before")) as [He|_];
        [by vm_compute in He|].
      by rewrite py_insert_after, Hmerge, <- !app_assoc.
Qed.

Lemma place_new_plugin_at_anchor_witness :
  let order := ["A.esp"; "B.esp"; "C.esp"] in
  Forall (fun n => strip n = n) order ∧
  Forall (fun n => name_key n ≠ name_key "X.esp") order ∧
  ∃ l1 l2,
    stable_by_rank order = l1 ++ "B.esp" :: l2 ∧
    place_new_plugin order "X.esp" {["B.esp"]} ∅
      = l1 ++ "X.esp" :: "B.esp" :: l2.
Proof.
  intros order.
  assert (Forall (fun n => strip n = n) order)
    as Hclean by (repeat constructor).
  assert (Forall (fun n => name_key n ≠ name_key "X.esp") order)
    as Hnew by (repeat constructor; discriminate).
  split_and!; [exact Hclean|exact Hnew|].
  pose proof (place_new_plugin_at_anchor
                order "X.esp" {["B.esp"]} ∅ Hclean Hnew) as H.
  cbv zeta in H.
  change (select_anchor order {["B.esp"]} ∅)
    with (Some "B.esp", "before") in H.
  change (_plugin_ext_rank "X.esp") with 1 in H.
  change (_plugin_ext_rank "B.esp") with 1 in H.
  destruct (decide (1 = 1)) as [_|Hne]; [|by destruct Hne].
  destruct H as (l1 & l2 & Hb & _ & [[_ Hout]|[Hpos _]]);
    [|discriminate Hpos].
  exists l1, l2. split; [exact Hb|exact Hout].
Defined.

(** The placements of the specification's examples. *)
Example place_before_anchor :
  place_new_plugin ["A.esp"; "B.esp"; "C.esp"] "X.esp" {["B.esp"]} ∅
    = ["A.esp"; "X.esp"; "B.esp"; "C.esp"].
Proof. reflexivity. Qed.

Example place_after_anchor :
  place_new_plugin ["A.esp"; "B.esp"; "C.esp"] "X.esp" ∅ {["B.esp"]}
    = ["A.esp"; "B.esp"; "X.esp"; "C.esp"].
Proof. reflexivity. Qed.

Example place_cross_rank_anchor :
  place_new_plugin ["M.esm"; "A.esp"; "B.esp"] "Y.esm" {["B.esp"]} ∅
    = ["M.esm"; "Y.esm"; "A.esp"; "B.esp"].
Proof. reflexivity. Qed.

Example place_without_anchor :
  place_new_plugin ["M.esm"; "A.esp"; "L.esl"] "X.esp" {["Z.esp"]} ∅
    = ["M.esm"; "A.esp"; "X.esp"; "L.esl"].
Proof. reflexivity. Qed.

(** ** Strings *)

Lemma lstrip_cons_nonspace c s :
  isspace c = false → lstrip (String c s) = String c s.
Proof. intros Hc. simpl. by rewrite Hc. Qed.

Lemma rstrip_cons_nonspace c s :
  isspace c = false → rstrip (String c s) = String c (rstrip s).
Proof. intros Hc. simpl. destruct (rstrip s); by rewrite ?Hc. Qed.

Lemma lstrip_idem s : lstrip (lstrip s) = lstrip s.
Proof.
  induction s as [|c s IH]; [done|]. simpl.
  destruct (isspace c) eqn:Hc; [done|]. simpl. by rewrite Hc.
Qed.

Lemma rstrip_idem s : rstrip (rstrip s) = rstrip s.
Proof.
  induction s as [|c s IH]; [done|]. simpl.
  destruct (rstrip s) as [|d r] eqn:Hr.
  - destruct (isspace c) eqn:Hc; [done|]. simpl. by rewrite Hc.
  - change (rstrip (String c (String d r)))
      with (match rstrip (String d r) with
            | EmptyString =>
                if isspace c then EmptyString else String c EmptyString
            | r' => String c r'
            end).
    by rewrite IH.
Qed.

Lemma rstrip_lstrip s : rstrip (lstrip s) = lstrip (rstrip s).
Proof.
  induction s as [|c s IH]; [done|].
  destruct (isspace c) eqn:Hc.
  - simpl. rewrite Hc, IH. destruct (rstrip s) as [|d r]; [done|].
    simpl. by rewrite Hc.
  - rewrite lstrip_cons_nonspace, rstrip_cons_nonspace by done.
    by rewrite lstrip_cons_nonspace.
Qed.

Lemma strip_idem s : strip (strip s) = strip s.
Proof.
  unfold strip.
  by rewrite rstrip_lstrip, rstrip_idem, lstrip_idem.
Qed.

Lemma rstrip_strip s : rstrip (strip s) = strip s.
Proof. unfold strip. by rewrite rstrip_lstrip, rstrip_idem. Qed.

Lemma rstrip_app_nl s : rstrip (s +:+ nl) = rstrip s.
Proof.
  induction s as [|c s IH]; [done|].
  change (String c s +:+ nl) with (String c (s +:+ nl)).
  simpl. by rewrite IH.
Qed.

Lemma strip_app_nl s : strip (s +:+ nl) = strip s.
Proof. unfold strip. by rewrite rstrip_app_nl. Qed.

Lemma endswith_cons c s t :
  endswith (String c s) t =
    if String.eqb (String c s) t then true else endswith s t.
Proof. done. Qed.

Lemma endswith_refl t : endswith t t = true.
Proof. destruct t; simpl; by rewrite ?Ascii.eqb_refl, ?String.eqb_refl. Qed.

Lemma endswith_app s t : endswith (s +:+ t) t = true.
Proof.
  induction s as [|c s IH]; [apply endswith_refl|].
  change (String c s +:+ t) with (String c (s +:+ t)).
  rewrite endswith_cons, IH. by case_match.
Qed.

Lemma add_nl_idem ln : add_nl (add_nl ln) = add_nl ln.
Proof.
  unfold add_nl. destruct (endswith ln nl) eqn:He.
  - by rewrite He.
  - by rewrite endswith_app.
Qed.

Lemma add_nl_entry s : add_nl (s +:+ nl) = s +:+ nl.
Proof. unfold add_nl. by rewrite endswith_app. Qed.

Lemma strip_add_nl ln : strip (add_nl ln) = strip ln.
Proof. unfold add_nl. destruct (endswith ln nl); by rewrite ?strip_app_nl. Qed.

(** The text of a signed line: a sign that is no white space, then a
    stripped name. *)
Lemma strip_signed_line c name :
  isspace c = false → strip name = name →
  strip (String c (name +:+ nl)) = String c name.
Proof.
  intros Hc Hname. unfold strip.
  rewrite rstrip_cons_nonspace, rstrip_app_nl by done.
  rewrite lstrip_cons_nonspace by done.
  by rewrite <- Hname, rstrip_strip.
Qed.

(** Every entry [_read_loadorder_file] returns is stripped. *)
Lemma _read_loadorder_lines_stripped file_lines :
  Forall (fun n => strip n = n) (_read_loadorder_lines file_lines).
Proof.
  unfold _read_loadorder_lines. apply Forall_forall. intros n Hn.
  apply list_elem_of_fmap in Hn as (ln & -> & _). apply strip_idem.
Qed.

(** ** The activation list *)

Lemma last_match_at_unique p lines i j :
  last_match_at p lines i → last_match_at p lines j → i = j.
Proof.
  intros [(x & Hx & Hpx) Hi] [(y & Hy & Hpy) Hj].
  destruct (decide (i = j)) as [|Hne]; [done|].
  destruct (decide (i < j)).
  - rewrite (Hi j y) in Hpy by done. done.
  - rewrite (Hj i x) in Hpx by (done || lia). done.
Qed.

Lemma scan_last_idx_spec tgt_low lines i0 acc :
  (scan_last_idx tgt_low i0 acc lines = acc ∧
   Forall (fun ln => plugin_line_is tgt_low ln = false) lines)
  ∨ ∃ j, scan_last_idx tgt_low i0 acc lines = Z.of_nat (i0 + j) ∧
         last_match_at (plugin_line_is tgt_low) lines j.
Proof.
  revert i0 acc. induction lines as [|ln rest IH]; intros i0 acc; simpl.
  - left. by split.
  - destruct (IH (S i0)
                (if plugin_line_is tgt_low ln then Z.of_nat i0 else acc))
      as [[-> Hrest]|(j & -> & (x & Hx & Hpx) & Hlast)].
    + destruct (plugin_line_is tgt_low ln) eqn:Hln.
      * right. exists 0. split; [f_equal; lia|]. split; [by exists ln|].
        intros [|j] y Hj Hy; [lia|]. simpl in Hy.
        rewrite Forall_forall in Hrest. apply Hrest.
        by eapply list_elem_of_lookup_2.
      * left. split; [done|]. by constructor.
    + right. exists (S j). split; [f_equal; lia|].
      split; [by exists x|].
      intros [|k] y Hk Hy; [lia|]. simpl in Hy. apply (Hlast k y); [lia|done].
Qed.

Lemma scan_last_idx_found tgt_low lines i :
  last_match_at (plugin_line_is tgt_low) lines i →
  scan_last_idx tgt_low 0 (-1) lines = Z.of_nat i.
Proof.
  intros Hi.
  destruct (scan_last_idx_spec tgt_low lines 0 (-1))
    as [[_ Hnone]|(j & -> & Hj)].
  - destruct Hi as [(x & Hx & Hpx) _]. rewrite Forall_forall in Hnone.
    rewrite Hnone in Hpx; [done|]. by eapply list_elem_of_lookup_2.
  - by rewrite (last_match_at_unique _ _ _ _ Hi Hj).
Qed.

(** The two ways [_set_plugin_enabled_in_plugins_lines] ends. *)
Lemma _set_plugin_enabled_cases lines plugin enable :
  let tgt := strip plugin in
  let new := (_set_plugin_enabled_in_plugins_lines lines plugin enable).1 in
  (∃ i, last_match_at (plugin_line_is (lower tgt)) lines i ∧
        new = <[i := plugin_entry tgt enable]> lines)
  ∨ (Forall (fun ln => plugin_line_is (lower tgt) ln = false) lines ∧
     new = lines ++ [plugin_entry tgt enable]).
Proof.
  intros tgt new. subst new. unfold _set_plugin_enabled_in_plugins_lines.
  fold tgt.
  destruct (scan_last_idx_spec (lower tgt) lines 0 (-1))
    as [[-> Hnone]|(j & -> & Hj)].
  - right. by split.
  - left. exists j. simpl.
    destruct (0 <=? Z.of_nat j)%Z eqn:Hle; [|apply Z.leb_gt in Hle; lia].
    simpl. by rewrite Nat2Z.id.
Qed.

(** C10: [_set_plugin_enabled_in_plugins_lines] rewrites the line of the
    last occurrence of the plugin (lines compared stripped, without their
    star, lower-cased) and leaves every other line where and as it was,
    earlier occurrences included; with no occurrence it appends one line. *)
Theorem set_plugin_enabled_rewrites_last_occurrence_only
    (lines : list string) (plugin : string) (enable : bool) :
  let tgt := strip plugin in
  let new := (_set_plugin_enabled_in_plugins_lines lines plugin enable).1 in
  (∃ i, last_match_at (plugin_line_is (lower tgt)) lines i ∧
        new !! i = Some (plugin_entry tgt enable) ∧
        length new = length lines ∧
        ∀ j, j ≠ i → new !! j = lines !! j)
  ∨ (Forall (fun ln => plugin_line_is (lower tgt) ln = false) lines ∧
     new = lines ++ [plugin_entry tgt enable]).
Proof.
  intros tgt new.
  destruct (_set_plugin_enabled_cases lines plugin enable)
    as [(i & Hi & Hnew)|Happ]; [left|by right].
  fold tgt in Hi, Hnew. fold new in Hnew. rewrite Hnew.
  exists i. split_and!; [done| |apply length_insert|].
  - destruct Hi as [(x & Hx & _) _].
    apply list_lookup_insert_eq. by eapply lookup_lt_Some.
  - intros j Hj. by apply list_lookup_insert_ne.
Qed.

(** An earlier occurrence of the plugin stays. *)
Example set_plugin_enabled_keeps_earlier_occurrence :
  _set_plugin_enabled_in_plugins_lines
    ["# header"; "a.esp"; "*A.ESP"; "b.esp"] "a.esp" true
  = (["# header"; "a.esp"; "*a.esp" +:+ nl; "b.esp"], true).
Proof. reflexivity. Qed.

(** The line written for a plugin is found again as a line of that plugin:
    always when it is written active, and when it is written inactive
    unless the stripped name is empty or starts with [#] or [*]. *)
Lemma plugin_entry_found_again plugin enable :
  let tgt := strip plugin in
  enable = true ∨ (is_entry tgt = true ∧ startswith tgt "*" = false) →
  plugin_line_is (lower tgt) (plugin_entry tgt enable) = true.
Proof.
  intros tgt Hok. unfold plugin_line_is, plugin_entry.
  assert (strip tgt = tgt) as Htgt by apply strip_idem.
  destruct enable.
  - change ("*" +:+ tgt +:+ nl) with (String "*" (tgt +:+ nl)).
    rewrite strip_signed_line by done.
    change (is_entry (String "*" tgt)) with true.
    change (startswith (String "*" tgt) "*") with (String.prefix EmptyString tgt).
    assert (String.prefix EmptyString tgt = true) as -> by (by destruct tgt).
    simpl. rewrite Htgt. apply String.eqb_refl.
  - destruct Hok as [?|[Hentry Hstar]]; [done|].
    rewrite strip_app_nl, Htgt, Hentry, Hstar. simpl. apply String.eqb_refl.
Qed.

Lemma _set_plugin_enabled_idempotent lines plugin enable :
  enable = true
  ∨ (is_entry (strip plugin) = true ∧ startswith (strip plugin) "*" = false) →
  (_set_plugin_enabled_in_plugins_lines
     (_set_plugin_enabled_in_plugins_lines lines plugin enable).1
     plugin enable).1
  = (_set_plugin_enabled_in_plugins_lines lines plugin enable).1.
Proof.
  intros Hok. pose proof (plugin_entry_found_again plugin enable Hok) as He.
  cbv zeta in He.
  set (tgt := strip plugin) in *.
  set (new := (_set_plugin_enabled_in_plugins_lines lines plugin enable).1).
  assert (∃ i, last_match_at (plugin_line_is (lower tgt)) new i ∧
               new !! i = Some (plugin_entry tgt enable)) as (i & Hi & Hnew).
  { destruct (_set_plugin_enabled_cases lines plugin enable)
      as [(i & [(x & Hx & Hpx) Hlast] & Hnew)|[Hnone Hnew]];
      fold tgt in Hnew, Hnone || fold tgt in Hnew, Hlast, Hpx;
      fold new in Hnew; rewrite Hnew.
    - assert (i < length lines) as Hlt by (by eapply lookup_lt_Some).
      exists i. split; [split|].
      + exists (plugin_entry tgt enable).
        by rewrite list_lookup_insert_eq.
      + intros j y Hj Hy. rewrite list_lookup_insert_ne in Hy by lia.
        by apply (Hlast j y).
      + by rewrite list_lookup_insert_eq.
    - exists (length lines). split; [split|].
      + exists (plugin_entry tgt enable).
        by rewrite lookup_app_r, Nat.sub_diag by lia.
      + intros j y Hj Hy. apply lookup_lt_Some in Hy.
        rewrite length_app in Hy. simpl in Hy. lia.
      + by rewrite lookup_app_r, Nat.sub_diag by lia. }
  destruct (_set_plugin_enabled_cases new plugin enable)
    as [(j & Hj & ->)|[Hnone _]]; fold tgt in Hj || fold tgt in Hnone.
  - rewrite (last_match_at_unique _ _ _ _ Hj Hi). by apply list_insert_id.
  - rewrite Forall_forall in Hnone.
    rewrite Hnone in He; [done|]. by eapply list_elem_of_lookup_2.
Qed.

(** ** The mod list *)

Lemma positions_from_app {A} (p : A → bool) i0 l1 l2 :
  positions_from p i0 (l1 ++ l2) =
    positions_from p i0 l1 ++ positions_from p (i0 + length l1) l2.
Proof.
  revert i0. induction l1 as [|x l1 IH]; intros i0; simpl.
  - by rewrite Nat.add_0_r.
  - rewrite IH. replace (S i0 + length l1) with (i0 + S (length l1)) by lia.
    by destruct (p x).
Qed.

Lemma positions_from_none {A} (p : A → bool) i0 l :
  Forall (fun x => p x = false) l → positions_from p i0 l = [].
Proof.
  intros Hall. revert i0.
  induction Hall as [|x l Hx _ IH]; intros i0; simpl; [done|].
  by rewrite Hx.
Qed.

Lemma positions_from_nil {A} (p : A → bool) i0 l :
  positions_from p i0 l = [] → Forall (fun x => p x = false) l.
Proof.
  revert i0. induction l as [|x l IH]; intros i0; simpl; [done|].
  destruct (p x) eqn:Hx; [done|]. intros Hl. constructor; eauto.
Qed.

Lemma positions_from_bound {A} (p : A → bool) i0 l i :
  i ∈ positions_from p i0 l → i0 ≤ i < i0 + length l.
Proof.
  revert i0. induction l as [|x l IH]; intros i0; simpl.
  - by intros ?%elem_of_nil.
  - destruct (p x).
    + intros [->|Hi%IH]%elem_of_cons; lia.
    + intros Hi%IH. lia.
Qed.

Lemma map_fixed {A} (f : A → A) (l : list A) :
  Forall (fun x => f x = x) l → map f l = l.
Proof. induction 1 as [|x l Hx _ IH]; simpl; congruence. Qed.

Lemma filter_negb_all {A} (p : A → bool) (l : list A) :
  Forall (fun x => p x = false) l → filter (fun x => negb (p x)) l = l.
Proof.
  intros Hall. apply filter_all.
  eapply Forall_impl; [exact Hall|]. simpl. intros x ->. done.
Qed.

Lemma filter_negb_none {A} (p : A → bool) (l : list A) :
  Forall (fun x => p x = false) (filter (fun x => negb (p x)) l).
Proof.
  apply Forall_forall. intros x [Hx _]%list_elem_of_filter.
  by destruct (p x).
Qed.

Lemma startswith_cons_ne c d s :
  d ≠ c → startswith (String c s) (String d EmptyString) = false.
Proof.
  intros Hne. unfold startswith. cbn [String.prefix].
  by destruct (Ascii.ascii_dec d c).
Qed.

Lemma add_nl_mod_entry mod_name enable :
  add_nl (mod_entry mod_name enable) = mod_entry mod_name enable.
Proof.
  unfold add_nl, mod_entry.
  assert (endswith ((if enable then "+" else "-") +:+ mod_name +:+ nl) nl
          = true) as ->; [|done].
  destruct enable.
  - change ("+" +:+ mod_name +:+ nl) with (String "+" (mod_name +:+ nl)).
    rewrite endswith_cons, endswith_app. by case_match.
  - change ("-" +:+ mod_name +:+ nl) with (String "-" (mod_name +:+ nl)).
    rewrite endswith_cons, endswith_app. by case_match.
Qed.

Lemma set_mod_enabled_in_lines_unfold lines mod_name enable :
  set_mod_enabled_in_lines lines mod_name enable =
    let norm := map add_nl lines in
    match last (positions_from (is_mod_entry mod_name) 0 norm) with
    | None => norm ++ [mod_entry mod_name enable]
    | Some keep_idx =>
        let filtered :=
          filter (fun ln => negb (has_mod_payload mod_name ln)) norm in
        py_insert (min keep_idx (length filtered))
          (mod_entry mod_name enable) filtered
    end.
Proof. by destruct enable. Qed.

(** The line written for a mod with a stripped, non-empty name is an entry
    of that mod. *)
Lemma mod_entry_is_mod_entry mod_name enable :
  mod_name ≠ EmptyString → strip mod_name = mod_name →
  is_mod_entry mod_name (mod_entry mod_name enable) = true.
Proof.
  intros Hne Hclean. unfold is_mod_entry, mod_entry.
  assert (∃ c, isspace c = false ∧ c ≠ "#"%char ∧
               (if enable then "+" else "-") +:+ mod_name +:+ nl
                 = String c (mod_name +:+ nl)) as (c & Hc & Hhash & ->).
  { destruct enable; [exists "+"%char|exists "-"%char]; by split_and!. }
  rewrite strip_signed_line by done.
  assert (is_entry (String c mod_name) = true) as ->.
  { unfold is_entry. by rewrite startswith_cons_ne. }
  unfold payload_is. cbn [tail1 String.length andb].
  rewrite Hclean, String.eqb_refl.
  destruct mod_name; [done|]. done.
Qed.

(** A list that holds the line of the mod once, among normalised lines
    without its payload, is left as it is. *)
Lemma set_mod_enabled_in_lines_fixed mod_name enable i rest :
  mod_name ≠ EmptyString → strip mod_name = mod_name →
  i ≤ length rest →
  Forall (fun ln => add_nl ln = ln) rest →
  Forall (fun ln => has_mod_payload mod_name ln = false) rest →
  set_mod_enabled_in_lines
    (py_insert i (mod_entry mod_name enable) rest) mod_name enable
  = py_insert i (mod_entry mod_name enable) rest.
Proof.
  intros Hne Hclean Hi Hnl Hrest.
  pose proof (mod_entry_is_mod_entry mod_name enable Hne Hclean) as Hentry.
  assert (has_mod_payload mod_name (mod_entry mod_name enable) = true)
    as Hpay.
  { unfold is_mod_entry in Hentry. unfold has_mod_payload.
    by apply andb_true_iff in Hentry as [_ ?]. }
  assert (Forall (fun ln => is_mod_entry mod_name ln = false) rest) as Hpos.
  { eapply Forall_impl; [exact Hrest|]. unfold is_mod_entry, has_mod_payload.
    simpl. intros ln ->. by rewrite andb_false_r. }
  assert (map add_nl (py_insert i (mod_entry mod_name enable) rest)
          = py_insert i (mod_entry mod_name enable) rest) as Hnorm.
  { unfold py_insert. rewrite map_app. simpl. rewrite add_nl_mod_entry.
    rewrite <- (take_drop i rest) in Hnl. apply Forall_app in Hnl as [H1 H2].
    by rewrite !map_fixed. }
  rewrite set_mod_enabled_in_lines_unfold. cbv zeta. rewrite !Hnorm.
  unfold py_insert.
  rewrite <- (take_drop i rest) in Hpos, Hrest.
  apply Forall_app in Hpos as [Hp1 Hp2].
  apply Forall_app in Hrest as [Hr1 Hr2].
  rewrite positions_from_app. simpl. rewrite Hentry.
  rewrite !positions_from_none by done. simpl.
  assert (¬ negb (has_mod_payload mod_name (mod_entry mod_name enable)))
    as Hout by (rewrite Hpay; intros []).
  rewrite filter_app, filter_cons_False by done.
  rewrite !filter_negb_all by done.
  rewrite take_drop, length_take.
  replace (min (i `min` length rest) (length rest)) with i by lia.
  done.
Qed.

(** What [set_mod_enabled_in_lines] returns, when every line with the
    payload of the mod is an entry (none is a comment): the line of the mod
    at one place among normalised lines without its payload. *)
Lemma set_mod_enabled_in_lines_shape lines mod_name enable :
  Forall (fun ln => has_mod_payload mod_name ln = true →
                    is_entry (strip ln) = true) lines →
  ∃ i rest,
    i ≤ length rest ∧
    Forall (fun ln => add_nl ln = ln) rest ∧
    Forall (fun ln => has_mod_payload mod_name ln = false) rest ∧
    set_mod_enabled_in_lines lines mod_name enable
      = py_insert i (mod_entry mod_name enable) rest.
Proof.
  intros Hcomments. rewrite set_mod_enabled_in_lines_unfold. cbv zeta.
  set (norm := map add_nl lines).
  assert (Forall (fun ln => add_nl ln = ln) norm) as Hnorm.
  { apply Forall_forall. intros ln (x & -> & _)%list_elem_of_fmap.
    apply add_nl_idem. }
  destruct (last (positions_from (is_mod_entry mod_name) 0 norm))
    as [keep_idx|] eqn:Hlast.
  - set (filtered := filter _ norm).
    exists (min keep_idx (length filtered)), filtered.
    split_and!; [lia| |apply filter_negb_none|done].
    apply Forall_forall. intros ln [_ Hln]%list_elem_of_filter.
    rewrite Forall_forall in Hnorm. by apply Hnorm.
  - exists (length norm), norm. split_and!; [lia|done| |].
    + apply last_None, positions_from_nil in Hlast.
      apply Forall_forall. intros ln Hin.
      pose proof Hin as (x & -> & Hx)%list_elem_of_fmap.
      rewrite Forall_forall in Hlast, Hcomments.
      specialize (Hlast _ Hin). specialize (Hcomments _ Hx).
      unfold is_mod_entry, has_mod_payload in *.
      rewrite strip_add_nl in *.
      destruct (payload_is mod_name (strip x)); [|done].
      rewrite Hcomments in Hlast; done.
    + by rewrite py_insert_at_end.
Qed.

Lemma set_mod_enabled_in_lines_idempotent lines mod_name enable :
  mod_name ≠ EmptyString → strip mod_name = mod_name →
  Forall (fun ln => has_mod_payload mod_name ln = true →
                    is_entry (strip ln) = true) lines →
  set_mod_enabled_in_lines
    (set_mod_enabled_in_lines lines mod_name enable) mod_name enable
  = set_mod_enabled_in_lines lines mod_name enable.
Proof.
  intros Hne Hclean Hcomments.
  destruct (set_mod_enabled_in_lines_shape lines mod_name enable Hcomments)
    as (i & rest & Hi & Hnl & Hrest & ->).
  by apply set_mod_enabled_in_lines_fixed.
Qed.

(** C6, as stated, fails: a mod name that is not stripped is never found
    again, so each call appends a line; a plugin written inactive whose
    name starts with [#] is read back as a comment. *)
Lemma mutations_not_idempotent :
  set_mod_enabled_in_lines
    (set_mod_enabled_in_lines [] "Mod A " true) "Mod A " true
  ≠ set_mod_enabled_in_lines [] "Mod A " true
  ∧ (_set_plugin_enabled_in_plugins_lines
       (_set_plugin_enabled_in_plugins_lines [] "#a.esp" false).1
       "#a.esp" false).1
    ≠ (_set_plugin_enabled_in_plugins_lines [] "#a.esp" false).1.
Proof. split; vm_compute; discriminate. Qed.

(** C6, as amended: applying [set_mod_enabled_in_lines] twice gives what
    applying it once gives when the mod name is stripped and not empty and
    no comment line has the payload of the mod; applying
    [_set_plugin_enabled_in_plugins_lines] twice gives the lines that
    applying it once gives when it enables, and when it disables a plugin
    whose stripped name is not empty and starts with neither [#] nor [*]. *)
Theorem mutations_idempotent
    (lines : list string) (name : string) (enable : bool) :
  (name ≠ EmptyString → strip name = name →
   Forall (fun ln => has_mod_payload name ln = true →
                     is_entry (strip ln) = true) lines →
   set_mod_enabled_in_lines
     (set_mod_enabled_in_lines lines name enable) name enable
   = set_mod_enabled_in_lines lines name enable)
  ∧ (enable = true
     ∨ (is_entry (strip name) = true ∧ startswith (strip name) "*" = false) →
     (_set_plugin_enabled_in_plugins_lines
        (_set_plugin_enabled_in_plugins_lines lines name enable).1
        name enable).1
     = (_set_plugin_enabled_in_plugins_lines lines name enable).1).
Proof.
  split.
  - apply set_mod_enabled_in_lines_idempotent.
  - apply _set_plugin_enabled_idempotent.
Qed.

Lemma mutations_idempotent_witness :
  let lines := ["# comment"; "+Mod A"; "-Mod B"; "+Mod A"] in
  set_mod_enabled_in_lines
    (set_mod_enabled_in_lines lines "Mod A" false) "Mod A" false
  = set_mod_enabled_in_lines lines "Mod A" false
  ∧ (_set_plugin_enabled_in_plugins_lines
       (_set_plugin_enabled_in_plugins_lines lines "a.esp" false).1
       "a.esp" false).1
    = (_set_plugin_enabled_in_plugins_lines lines "a.esp" false).1.
Proof.
  intros lines.
  destruct (mutations_idempotent lines "Mod A" false) as [Hmod _].
  destruct (mutations_idempotent lines "a.esp" false) as [_ Hplugin].
  split.
  - apply Hmod; [discriminate|reflexivity|].
    repeat constructor; vm_compute; done.
  - apply Hplugin. right. split; reflexivity.
Defined.

(** The second loop of [set_mod_enabled_in_lines] does not skip comments
    as the first one does: a comment that reads [#] and the mod name goes
    once the mod has an entry. *)
Example set_mod_enabled_drops_comment :
  set_mod_enabled_in_lines ["#foo"] "foo" true = ["#foo" +:+ nl; "+foo" +:+ nl]
  ∧ set_mod_enabled_in_lines ["#foo" +:+ nl; "+foo" +:+ nl] "foo" true
    = ["+foo" +:+ nl].
Proof. split; reflexivity. Qed.

(** C4 at its failing inputs: [keep_idx] is an index into the lines read,
    and is used as an index into the lines left after the occurrences have
    been removed.  With the mod on the first three of four lines its entry
    lands after the fourth line; with two occurrences around another mod
    it lands one line further down than the last occurrence was. *)
Theorem set_mod_enabled_moves_last_occurrence :
  set_mod_enabled_in_lines ["+foo"; "+foo"; "+foo"; "+b"] "foo" true
    = ["+b" +:+ nl; "+foo" +:+ nl]
  ∧ set_entry_spec ["+foo"; "+foo"; "+foo"; "+b"] "foo" true
    = ["+foo" +:+ nl; "+b" +:+ nl]
  ∧ set_mod_enabled_in_lines ["+foo"; "+a"; "+foo"; "+b"; "+c"] "foo" false
    = ["+a" +:+ nl; "+b" +:+ nl; "-foo" +:+ nl; "+c" +:+ nl]
  ∧ set_entry_spec ["+foo"; "+a"; "+foo"; "+b"; "+c"] "foo" false
    = ["+a" +:+ nl; "-foo" +:+ nl; "+b" +:+ nl; "+c" +:+ nl].
Proof. repeat split; reflexivity. Qed.

(** Where the code and the specification's words agree: a mod with no
    entry, and a mod with one line of its payload, which is an entry. *)
Lemma set_mod_enabled_no_occurrence lines mod_name enable :
  Forall (fun ln => is_mod_entry mod_name ln = false) (map add_nl lines) →
  set_mod_enabled_in_lines lines mod_name enable
    = map add_nl lines ++ [mod_entry mod_name enable]
  ∧ set_entry_spec lines mod_name enable
    = map add_nl lines ++ [mod_entry mod_name enable].
Proof.
  intros Hnone. rewrite set_mod_enabled_in_lines_unfold. cbv zeta.
  unfold set_entry_spec. rewrite positions_from_none by done.
  assert (existsb (is_mod_entry mod_name) (map add_nl lines) = false) as ->.
  { induction Hnone as [|x l Hx _ IH]; simpl; [done|]. by rewrite Hx. }
  done.
Qed.

Lemma set_mod_enabled_single_occurrence lines mod_name enable l1 x l2 :
  map add_nl lines = l1 ++ x :: l2 →
  is_mod_entry mod_name x = true →
  Forall (fun ln => has_mod_payload mod_name ln = false) (l1 ++ l2) →
  set_mod_enabled_in_lines lines mod_name enable
    = l1 ++ mod_entry mod_name enable :: l2
  ∧ set_entry_spec lines mod_name enable
    = l1 ++ mod_entry mod_name enable :: l2.
Proof.
  intros Hnorm Hx [H1 H2]%Forall_app.
  assert (∀ l, Forall (fun ln => has_mod_payload mod_name ln = false) l →
               Forall (fun ln => is_mod_entry mod_name ln = false) l)
    as Hweak.
  { intros l Hl. eapply Forall_impl; [exact Hl|].
    unfold is_mod_entry, has_mod_payload. simpl.
    intros ln ->. by rewrite andb_false_r. }
  assert (∀ l, Forall (fun ln => is_mod_entry mod_name ln = false) l →
               existsb (is_mod_entry mod_name) l = false) as Hex.
  { induction 1 as [|y l Hy _ IH]; simpl; [done|]. by rewrite Hy. }
  assert (has_mod_payload mod_name x = true) as Hpay.
  { unfold is_mod_entry in Hx. by apply andb_true_iff in Hx as [_ ?]. }
  split.
  - rewrite set_mod_enabled_in_lines_unfold. cbv zeta. rewrite Hnorm.
    rewrite positions_from_app. simpl. rewrite Hx.
    rewrite !positions_from_none by auto. simpl.
    assert (¬ negb (has_mod_payload mod_name x)) as Hout
      by (rewrite Hpay; intros []).
    rewrite filter_app, filter_cons_False by done.
    rewrite !filter_negb_all by done.
    rewrite length_app.
    replace (min (length l1) (length l1 + length l2)) with (length l1) by lia.
    apply py_insert_at_length.
  - unfold set_entry_spec. rewrite Hnorm.
    rewrite existsb_app. simpl. rewrite Hx, orb_true_r.
    apply Hweak in H1, H2. clear Hnorm.
    induction H1 as [|y l Hy _ IH]; simpl.
    + by rewrite Hx, (Hex l2).
    + by rewrite Hy, IH.
Qed.

(** ** Writing the mod list back *)

Lemma contains_char_app c s t :
  contains_char c (s +:+ t) = contains_char c s || contains_char c t.
Proof.
  induction s as [|d s IH]; [done|].
  change (String d s +:+ t) with (String d (s +:+ t)). simpl.
  by destruct (Ascii.eqb c d).
Qed.

Lemma endswith_contains s c :
  endswith s (String c EmptyString) = true → contains_char c s = true.
Proof.
  induction s as [|d s IH]; [done|].
  rewrite endswith_cons.
  destruct (String.eqb (String d s) (String c EmptyString)) eqn:He.
  - apply String.eqb_eq in He. injection He as -> ->. simpl.
    by rewrite Ascii.eqb_refl.
  - intros Hs%IH. simpl. rewrite Hs. by destruct (Ascii.eqb c d).
Qed.

(** The lines [splitlines] returns hold no line feed. *)
Lemma splitlines_go_no_lf n s cur :
  String.length s ≤ n →
  contains_char lf cur = false →
  Forall (fun ln => contains_char lf ln = false) (splitlines_go false cur s).
Proof.
  revert s cur. induction n as [|n IH]; intros s cur Hn Hcur.
  - destruct s; [|simpl in Hn; lia]. simpl. case_decide; by repeat constructor.
  - destruct s as [|c s]; simpl.
    { case_decide; by repeat constructor. }
    simpl in Hn. destruct (is_linebreak c) eqn:Hc.
    + destruct s as [|d s].
      * by repeat constructor.
      * destruct (Ascii.eqb c "013" && Ascii.eqb d "010").
        -- constructor; [done|]. apply IH; [simpl in Hn; lia|done].
        -- constructor; [done|]. apply IH; [lia|done].
    + apply IH; [lia|]. rewrite contains_char_app, Hcur.
      change (contains_char lf (String c EmptyString))
        with (if Ascii.eqb lf c then true else false).
      destruct (Ascii.eqb lf c) eqn:Heq; [|done].
      apply Ascii.eqb_eq in Heq as <-. done.
Qed.

Lemma splitlines_no_nl text :
  Forall (fun ln => endswith ln nl = false) (splitlines false text).
Proof.
  eapply Forall_impl.
  - by apply (splitlines_go_no_lf (String.length text) text EmptyString).
  - simpl. intros ln Hln. destruct (endswith ln nl) eqn:He; [|done].
    apply endswith_contains in He. unfold lf in Hln. congruence.
Qed.

Lemma endswith_add_nl ln : endswith (add_nl ln) nl = true.
Proof.
  unfold add_nl. destruct (endswith ln nl) eqn:He; [done|].
  apply endswith_app.
Qed.

(** The lines of a result of [set_mod_enabled_in_lines]: the line written
    for the mod, and normalised lines read that are no entry of the mod. *)
Lemma set_mod_enabled_in_lines_elem lines mod_name enable ln :
  ln ∈ set_mod_enabled_in_lines lines mod_name enable →
  ln = mod_entry mod_name enable
  ∨ (ln ∈ map add_nl lines ∧ is_mod_entry mod_name ln = false).
Proof.
  rewrite set_mod_enabled_in_lines_unfold. cbv zeta.
  destruct (last _) as [keep_idx|] eqn:Hlast.
  - unfold py_insert.
    intros [Hin|[->|Hin]%elem_of_cons]%elem_of_app; [|by left|].
    all: right.
    all: assert (ln ∈ filter
                   (fun ln => negb (has_mod_payload mod_name ln))
                   (map add_nl lines)) as [Hp ?]%list_elem_of_filter
      by (exact (subseteq_take _ _ _ Hin) || exact (subseteq_drop _ _ _ Hin)).
    all: split; [done|]. all: unfold is_mod_entry, has_mod_payload in *.
    all: destruct (payload_is mod_name (strip ln)); [done|].
    all: by rewrite andb_false_r.
  - intros Hin. apply elem_of_app in Hin.
    destruct Hin as [Hin|Hin]; [right|left; by apply list_elem_of_singleton].
    split; [done|].
    apply last_None, positions_from_nil in Hlast.
    rewrite Forall_forall in Hlast. by apply Hlast.
Qed.

Lemma set_mod_enabled_in_lines_has_entry lines mod_name enable :
  mod_entry mod_name enable ∈ set_mod_enabled_in_lines lines mod_name enable.
Proof.
  rewrite set_mod_enabled_in_lines_unfold. cbv zeta.
  destruct (last _); unfold py_insert; set_solver.
Qed.

Lemma set_mod_enabled_in_lines_newline_ended lines mod_name enable :
  newline_ended (set_mod_enabled_in_lines lines mod_name enable).
Proof.
  split.
  - pose proof (set_mod_enabled_in_lines_has_entry lines mod_name enable).
    intros Heq. rewrite Heq in H. by apply elem_of_nil in H.
  - apply Forall_forall. intros ln Hln.
    apply set_mod_enabled_in_lines_elem in Hln as [->|[Hln _]].
    + rewrite <- (add_nl_mod_entry mod_name enable). apply endswith_add_nl.
    + apply list_elem_of_fmap in Hln as (x & -> & _). apply endswith_add_nl.
Qed.

Lemma foldl_set_mod_newline_ended enable names lines :
  names ≠ [] ∨ newline_ended lines →
  newline_ended
    (foldl (fun ls m => set_mod_enabled_in_lines ls m enable) lines names).
Proof.
  induction names as [|m names _] using rev_ind; intros Hne.
  - by destruct Hne.
  - rewrite foldl_snoc. apply set_mod_enabled_in_lines_newline_ended.
Qed.

Lemma sorted_by_Permutation {A} (le : A → A → bool) (l : list A) :
  sorted_by le l ≡ₚ l.
Proof.
  assert (∀ x l', insert_sorted le x l' ≡ₚ x :: l') as Hins.
  { intros x l'. induction l' as [|y l' IH]; simpl; [done|].
    destruct (le x y); [done|]. rewrite IH. apply perm_swap. }
  induction l as [|x l IH]; simpl; [done|]. by rewrite Hins, IH.
Qed.

Lemma sorted_names_elem (names : gset string) m :
  m ∈ sorted_names names ↔ m ∈ names.
Proof.
  unfold sorted_names. by rewrite sorted_by_Permutation, elem_of_elements.
Qed.

Lemma sorted_names_nil (names : gset string) :
  sorted_names names = [] → names = ∅.
Proof.
  intros Hnil. apply set_eq. intros m.
  rewrite <- sorted_names_elem, Hnil. set_solver.
Qed.

(** With a mod to enable or to disable, the lines [apply_mod_sets] computes
    never equal the lines [read_modlist] returned: the former all end with
    a line feed, the latter have none. *)
Lemma apply_mod_sets_lines_differ text (enable disable : gset string) :
  enable ∪ disable ≠ ∅ →
  apply_mod_sets_lines (splitlines false text) enable disable
    ≠ splitlines false text.
Proof.
  intros Hsets Heq.
  assert (newline_ended
            (apply_mod_sets_lines (splitlines false text) enable disable))
    as [Hne Hall].
  { unfold apply_mod_sets_lines.
    apply foldl_set_mod_newline_ended.
    destruct (sorted_names disable) as [|d ds] eqn:Hd; [right|by left].
    apply foldl_set_mod_newline_ended. left. intros He.
    assert (disable = ∅) as Hd' by (by apply sorted_names_nil).
    assert (enable ∖ disable = ∅) as He' by (by apply sorted_names_nil).
    apply Hsets. rewrite Hd' in He' |- *.
    rewrite difference_empty_L in He'. rewrite He'. apply union_empty_r_L. }
  rewrite Heq in Hne, Hall. pose proof (splitlines_no_nl text) as Hno.
  destruct (splitlines false text) as [|ln lns]; [done|].
  apply Forall_cons in Hall as [Hln _]. apply Forall_cons in Hno as [Hln' _].
  congruence.
Qed.

(** With a mod to enable or to disable, [apply_mod_sets] always calls
    [write_text], whatever the mod list holds. *)
Lemma apply_mod_sets_always_writes faulty path
    (enable disable : gset string) st :
  enable ∪ disable ≠ ∅ →
  ∃ text,
    calls (apply_mod_sets faulty path enable disable st).2
      = calls st ++ [WriteText path text].
Proof.
  intros Hsets. unfold apply_mod_sets, read_modlist, read_file.
  unfold mbind, io_bind, mret, io_ret. simpl.
  set (lines := match files st !! path with
                | Some t => splitlines false t
                | None => []
                end).
  assert (apply_mod_sets_lines lines enable disable ≠ lines) as Hdiff.
  { subst lines. destruct (files st !! path) as [t|].
    - by apply apply_mod_sets_lines_differ.
    - change [] with (splitlines false EmptyString).
      by apply apply_mod_sets_lines_differ. }
  destruct (decide (apply_mod_sets_lines lines enable disable ≠ lines));
    [|done].
  unfold write_modlist, try_except, perform, log_msg. simpl.
  eexists. destruct (faulty _ _); reflexivity.
Qed.

(** C7 at its failing input: the mod list is what a first run left, the
    sets are the same, nothing fails, and both this run and the next one
    write the file, with the text it already holds. *)
Theorem apply_mod_sets_rerun_writes :
  let run := apply_mod_sets no_fault "modlist.txt" {["A"]} {["B"]} in
  let text := "+A" +:+ nl +:+ "-B" +:+ nl in
  ∃ st1 st2,
    run synced_profile = (Returned (), st1) ∧
    run st1 = (Returned (), st2) ∧
    files st1 = files synced_profile ∧
    files st2 = files synced_profile ∧
    calls st1 = [WriteText "modlist.txt" text] ∧
    calls st2 = [WriteText "modlist.txt" text; WriteText "modlist.txt" text].
Proof.
  eexists _, _. split_and!;
    [vm_compute; reflexivity|vm_compute; reflexivity|reflexivity..].
Qed.

(** ** Applying the two sets *)

Lemma insert_sorted_Permutation {A} (le : A → A → bool) x (l : list A) :
  insert_sorted le x l ≡ₚ x :: l.
Proof.
  induction l as [|y l IH]; simpl; [done|].
  destruct (le x y); [done|]. rewrite IH. apply perm_swap.
Qed.

Lemma sorted_by_StronglySorted {A} (le : A → A → bool)
    `{!Transitive (fun x y => Is_true (le x y)),
      !Total (fun x y => Is_true (le x y))} (l : list A) :
  StronglySorted (fun x y => Is_true (le x y)) (sorted_by le l).
Proof.
  induction l as [|x l IH]; simpl; [constructor|].
  generalize dependent (sorted_by le l). clear l.
  intros l Hl. induction Hl as [|y l Hl IH Hy]; simpl.
  - by repeat constructor.
  - destruct (le x y) eqn:Hxy.
    + constructor; [by constructor|]. constructor; [by rewrite Hxy|].
      eapply Forall_impl; [exact Hy|]. simpl. intros z Hz.
      etrans; [|exact Hz]. by rewrite Hxy.
    + constructor; [done|]. rewrite insert_sorted_Permutation.
      constructor; [|done].
      destruct (total (fun x y => Is_true (le x y)) x y) as [Hle|Hle];
        [|done]. by rewrite Hxy in Hle.
Qed.

Lemma sorted_names_sorted (names : gset string) :
  StronglySorted String.le (sorted_names names).
Proof. apply (sorted_by_StronglySorted String.leb). Qed.

Lemma elem_of_enabled_names m lines :
  m ∈ enabled_names lines ↔ ∃ ln, ln ∈ lines ∧ enables m ln = true.
Proof.
  unfold enabled_names. rewrite list_elem_of_omap. unfold enables.
  split.
  - intros (ln & Hin & Hm). exists ln. split; [done|].
    destruct (is_entry (strip ln) && startswith (strip ln) "+"); [|done].
    injection Hm as ->. simpl. apply String.eqb_refl.
  - intros (ln & Hin & Hm). exists ln. split; [done|].
    destruct (is_entry (strip ln) && startswith (strip ln) "+"); [|done].
    simpl in Hm. apply String.eqb_eq in Hm. by rewrite Hm.
Qed.

(** A line that enables a mod of non-empty name is an entry of that mod. *)
Lemma enables_is_mod_entry m ln :
  m ≠ EmptyString → enables m ln = true → is_mod_entry m ln = true.
Proof.
  unfold enables, is_mod_entry, payload_is. intros Hm.
  destruct (is_entry (strip ln)); [|done]. simpl.
  destruct (strip ln) as [|c [|d s]]; [done| |].
  - simpl. intros [_ Heq]%andb_true_iff. by destruct m.
  - intros [_ Heq]%andb_true_iff. by rewrite Heq.
Qed.

Lemma enables_add_nl m ln : enables m (add_nl ln) = enables m ln.
Proof. unfold enables. by rewrite strip_add_nl. Qed.

Lemma enables_disabling_entry m m' : enables m (mod_entry m' false) = false.
Proof.
  unfold enables, mod_entry.
  change ("-" +:+ m' +:+ nl) with (String "-" (m' +:+ nl)).
  unfold strip. rewrite rstrip_cons_nonspace, lstrip_cons_nonspace by done.
  rewrite (startswith_cons_ne "-" "+") by done.
  by rewrite andb_false_r.
Qed.

(** Once a mod is disabled, no line enables it ... *)
Lemma set_mod_disabled_not_enabled lines m :
  m ≠ EmptyString →
  Forall (fun ln => enables m ln = false)
    (set_mod_enabled_in_lines lines m false).
Proof.
  intros Hm. apply Forall_forall. intros ln Hln.
  apply set_mod_enabled_in_lines_elem in Hln as [->|[_ Hln]].
  - apply enables_disabling_entry.
  - destruct (enables m ln) eqn:He; [|done].
    apply enables_is_mod_entry in He; [congruence|done].
Qed.

(** ... and disabling other mods changes nothing to that. *)
Lemma set_mod_disabled_keeps_not_enabled lines m m' :
  Forall (fun ln => enables m ln = false) lines →
  Forall (fun ln => enables m ln = false)
    (set_mod_enabled_in_lines lines m' false).
Proof.
  intros Hall. apply Forall_forall. intros ln Hln.
  apply set_mod_enabled_in_lines_elem in Hln as [->|[Hln _]].
  - apply enables_disabling_entry.
  - apply list_elem_of_fmap in Hln as (x & -> & Hx).
    rewrite enables_add_nl. rewrite Forall_forall in Hall. by apply Hall.
Qed.

(** C5, as stated, fails: a mod named in both sets ends up disabled, and
    the enables are applied before the disables. *)
Lemma apply_mod_sets_enable_does_not_win :
  ¬ enable_wins [] {["A"]} {["A"]}
  ∧ apply_mod_sets_lines [] {["A"]} {["A"]} = ["-A" +:+ nl]
  ∧ apply_mod_sets_lines [] {["B"]} {["A"]} = ["+B" +:+ nl; "-A" +:+ nl].
Proof.
  split_and!; [|reflexivity..].
  intros Hwins. specialize (Hwins "A").
  assert ("A" ∈ enabled_names (apply_mod_sets_lines [] {["A"]} {["A"]}))
    as Hin by (apply Hwins; set_solver).
  vm_compute in Hin. by apply elem_of_nil in Hin.
Qed.

(** C5, as amended: [apply_mod_sets] applies the mods to enable that are
    not to disable, then the mods to disable, each group in sorted order;
    a mod to disable (of non-empty name), also one named in both sets, is
    not among the enabled names at the end: disable wins. *)
Theorem apply_mod_sets_disable_wins
    (lines : list string) (mods_to_enable mods_to_disable : gset string) :
  ∃ enables_ disables,
    enables_ ≡ₚ elements (mods_to_enable ∖ mods_to_disable) ∧
    StronglySorted String.le enables_ ∧
    disables ≡ₚ elements mods_to_disable ∧
    StronglySorted String.le disables ∧
    apply_mod_sets_lines lines mods_to_enable mods_to_disable
      = foldl (fun ls m => set_mod_enabled_in_lines ls m false)
          (foldl (fun ls m => set_mod_enabled_in_lines ls m true)
             lines enables_)
          disables ∧
    ∀ m, m ∈ mods_to_disable → m ≠ EmptyString →
         m ∉ enabled_names
               (apply_mod_sets_lines lines mods_to_enable mods_to_disable).
Proof.
  exists (sorted_names (mods_to_enable ∖ mods_to_disable)),
    (sorted_names mods_to_disable).
  split_and!; try apply sorted_by_Permutation;
    try apply sorted_names_sorted; [done|].
  intros m Hm Hne. unfold apply_mod_sets_lines.
  set (lines1 := foldl _ lines _).
  apply sorted_names_elem, list_elem_of_split in Hm as (d1 & d2 & ->).
  rewrite foldl_app. simpl.
  set (lines2 := set_mod_enabled_in_lines _ m false).
  assert (Forall (fun ln => enables m ln = false) lines2) as Hoff
    by (by apply set_mod_disabled_not_enabled).
  clearbody lines2.
  assert (Forall (fun ln => enables m ln = false)
            (foldl (fun ls m => set_mod_enabled_in_lines ls m false)
               lines2 d2)) as Hend.
  { revert lines2 Hoff. induction d2 as [|m' d2 IH]; intros l Hl; [done|].
    simpl. apply IH. by apply set_mod_disabled_keeps_not_enabled. }
  rewrite elem_of_enabled_names. intros (ln & Hin & Hen).
  rewrite Forall_forall in Hend. specialize (Hend ln Hin). congruence.
Qed.

Lemma apply_mod_sets_disable_wins_witness :
  "Mod A" ∉ enabled_names
    (apply_mod_sets_lines ["+Mod A"; "-Mod B"] {["Mod A"; "Mod B"]}
       {["Mod A"]}).
Proof.
  destruct (apply_mod_sets_disable_wins ["+Mod A"; "-Mod B"]
              {["Mod A"; "Mod B"]} {["Mod A"]})
    as (es & ds & _ & _ & _ & _ & _ & Hoff).
  apply Hoff; [set_solver|discriminate].
Defined.

(** ** Write failures *)

Lemma tmp_path_ne path : path +:+ ".tmp" ≠ path.
Proof.
  induction path as [|c path IH]; [done|].
  change (String c path +:+ ".tmp") with (String c (path +:+ ".tmp")).
  intros Heq. injection Heq as Heq. by apply IH.
Qed.





(** A failed rename: the exception of [os.replace] reaches the caller, the
    temporary file has been unlinked, the load order is not there. *)
Example atomic_write_failed_rename :
  ∃ st',
    _write_loadorder_file replace_fails "loadorder.txt" ["A.esm"]
      (mk_fs ∅ [] [])
      = (Raised (Replace "loadorder.txt.tmp" "loadorder.txt"), st') ∧
    files st' = ∅ ∧
    calls st' = [MkdirParents "loadorder.txt";
                 MkdirParents "loadorder.txt.tmp";
                 WriteText "loadorder.txt.tmp" ("A.esm" +:+ nl);
                 Replace "loadorder.txt.tmp" "loadorder.txt";
                 Unlink "loadorder.txt.tmp"].
Proof.
  eexists. split_and!; [vm_compute; reflexivity|reflexivity..].
Qed.

(** ** The group file *)

Lemma read_groups_step_free st raw :
  (comments_passed st = false → acc_others st = []) →
  let st' := read_groups_step st raw in
  acc_header st' ++ acc_others st'
    = (acc_header st ++ acc_others st) ++ free_lines [raw]
  ∧ (comments_passed st' = false → acc_others st' = []).
Proof.
  intros Hinv. unfold read_groups_step, free_lines, is_group_line.
  rewrite filter_cons, filter_nil.
  set (s := strip (rstrip_nl raw)).
  destruct (is_entry s) eqn:Hentry; simpl.
  - destruct (contains_char "|" s) eqn:Hbar; simpl.
    + destruct (split_once "|" s) as [l r]. simpl.
      destruct (negb (String.eqb (strip l) EmptyString)
                && negb (String.eqb (strip r) EmptyString)) eqn:Hok.
      * simpl. split; [by rewrite app_nil_r|done].
      * simpl. split; [by rewrite app_assoc|done].
    + split; [by rewrite app_assoc|done].
  - destruct (comments_passed st) eqn:Hcp; simpl.
    + split; [by rewrite app_assoc|done].
    + rewrite Hinv by done. rewrite !app_nil_r. split; [done|]. by intros _.
Qed.

Lemma read_groups_fold_free file_lines st :
  (comments_passed st = false → acc_others st = []) →
  let st' := foldl read_groups_step st file_lines in
  acc_header st' ++ acc_others st'
    = (acc_header st ++ acc_others st) ++ free_lines file_lines
  ∧ (comments_passed st' = false → acc_others st' = []).
Proof.
  revert st. induction file_lines as [|raw rest IH]; intros st Hinv; simpl.
  - unfold free_lines. simpl. by rewrite app_nil_r.
  - destruct (read_groups_step_free st raw Hinv) as [Hstep Hinv'].
    destruct (IH _ Hinv') as [Hrest Hend]. split; [|done].
    rewrite Hrest, Hstep, <- app_assoc. f_equal.
    unfold free_lines. rewrite <- map_app. f_equal.
    by rewrite <- filter_app.
Qed.

Lemma dict_get_set d k v k' :
  dict_get (dict_set d k v) k' =
    if decide (k = k') then Some v else dict_get d k'.
Proof.
  induction d as [|[k0 v0] d IH]; simpl.
  - by repeat case_decide.
  - repeat (case_decide; simplify_eq/=); try done.
    all: rewrite IH; by repeat case_decide.
Qed.

Lemma dict_get_Some_key d k v :
  dict_get d k = Some v → k ∈ map fst d.
Proof.
  induction d as [|[k0 v0] d IH]; simpl; [done|].
  destruct (decide (k0 = k)) as [->|_].
  - intros _. apply elem_of_cons. by left.
  - intros Hd. apply elem_of_cons. right. by apply IH.
Qed.

(** The merge keeps every key; a value changes only to the group a pair of
    the merge source gives to that key. *)
Lemma merge_group_map_keeps group_map existing_map p g :
  dict_get existing_map p = Some g →
  ∃ g', dict_get (merge_group_map existing_map group_map) p = Some g' ∧
        (g' = g ∨ ∃ plugin group, (plugin, group) ∈ group_map ∧
                                  strip plugin = p ∧ strip group = g').
Proof.
  unfold merge_group_map. revert existing_map g.
  induction group_map as [|[plugin group] rest IH]; intros tm g Hg; simpl.
  - eauto.
  - set (tm1 := if negb (String.eqb (strip plugin) EmptyString)
                   && negb (String.eqb (strip group) EmptyString)
                then dict_set tm (strip plugin) (strip group) else tm).
    assert (∃ g1, dict_get tm1 p = Some g1 ∧
                  (g1 = g ∨ strip plugin = p ∧ strip group = g1))
      as (g1 & Hg1 & Hor).
    { subst tm1. destruct (_ && _); [|eauto].
      rewrite dict_get_set. case_decide; eauto. }
    destruct (IH tm1 g1 Hg1) as (g' & Hg' & Hor').
    exists g'. split; [done|].
    destruct Hor' as [->|(pl & gr & Hin & ? & ?)].
    + destruct Hor as [->|[? ?]]; [by left|].
      right. exists plugin, group. split_and!; [left|done..].
    + right. exists pl, gr. split_and!; [by right|done..].
Qed.

(** The lines one loop of [_write_plugingroups_file] adds: a line for every
    plugin it marks as seen, and it has seen every mapped plugin it went
    through. *)
Lemma emit_group_fold mapping ps out (seen : gset string) :
  ∃ body seen',
    foldl (emit_group mapping) (out, seen) ps = (out ++ body, seen') ∧
    (∀ p, p ∈ seen → p ∈ seen') ∧
    (∀ p, p ∈ seen' →
          p ∈ seen ∨ ∃ g, dict_get mapping p = Some g ∧
                          group_line p g ∈ body) ∧
    (∀ p g, p ∈ ps → dict_get mapping p = Some g → p ∈ seen').
Proof.
  revert out seen. induction ps as [|p ps IH]; intros out seen; simpl.
  - exists [], seen. split_and!; [by rewrite app_nil_r|done|by left|].
    intros p g Hp. by apply elem_of_nil in Hp.
  - unfold emit_group at 2. simpl.
    destruct (dict_get mapping p) as [grp|] eqn:Hp;
      [destruct (decide (p ∉ seen)) as [Hnew|Hold]|].
    + destruct (IH (out ++ [group_line p grp]) (seen ∪ {[p]}))
        as (body & seen' & -> & Hmono & Hseen & Hall).
      exists (group_line p grp :: body), seen'.
      split_and!; [by rewrite <- app_assoc| | |].
      * intros q Hq. apply Hmono, elem_of_union. by left.
      * intros q Hq. destruct (Hseen q Hq) as [Hin|(g & Hg & Hin)].
        -- apply elem_of_union in Hin. destruct Hin as [Hin|Hin]; [by left|].
           apply elem_of_singleton in Hin. subst q. right. exists grp.
           split; [done|]. apply elem_of_cons. by left.
        -- right. exists g. split; [done|]. apply elem_of_cons. by right.
      * intros q g Hq Hg. apply elem_of_cons in Hq.
        destruct Hq as [->|Hq]; [|eauto].
        apply Hmono, elem_of_union. right. by apply elem_of_singleton.
    + destruct (IH out seen) as (body & seen' & -> & Hmono & Hseen & Hall).
      exists body, seen'. split_and!; [done..|].
      intros q g Hq Hg. apply elem_of_cons in Hq.
      destruct Hq as [->|Hq]; [|eauto].
      apply Hmono. by apply dec_stable.
    + destruct (IH out seen) as (body & seen' & -> & Hmono & Hseen & Hall).
      exists body, seen'. split_and!; [done..|].
      intros q g Hq Hg. apply elem_of_cons in Hq.
      destruct Hq as [->|Hq]; [congruence|eauto].
Qed.

(** What [_write_plugingroups_file] writes: the header lines, a blank line
    after a header that does not end with one, the free-form lines, then
    a line for every plugin of the mapping. *)
Lemma _write_plugingroups_lines_shape ordered_plugins mapping header others :
  ∃ sep body,
    _write_plugingroups_lines ordered_plugins mapping header others
      = map add_nl header ++ sep ++ map add_nl others ++ body ∧
    (sep = [] ∨ sep = [nl]) ∧
    ∀ p g, dict_get mapping p = Some g → group_line p g ∈ body.
Proof.
  unfold _write_plugingroups_lines.
  set (out0 := match last (map add_nl header) with
               | Some l =>
                   if negb (String.eqb (strip l) EmptyString)
                   then map add_nl header ++ [nl] else map add_nl header
               | None => map add_nl header
               end).
  assert (∃ sep, out0 = map add_nl header ++ sep ∧ (sep = [] ∨ sep = [nl]))
    as (sep & -> & Hsep).
  { subst out0. destruct (last _) as [l|]; [destruct (negb _)|].
    - exists [nl]. by split; [|right].
    - exists []. by rewrite app_nil_r; split; [|left].
    - exists []. by rewrite app_nil_r; split; [|left]. }
  destruct (emit_group_fold mapping ordered_plugins
              ((map add_nl header ++ sep) ++ map add_nl others) ∅)
    as (body1 & seen1 & -> & _ & Hseen1 & _).
  destruct (emit_group_fold mapping
              (sorted_by (fun a b => String.leb (lower a) (lower b))
                 (map fst mapping))
              (((map add_nl header ++ sep) ++ map add_nl others) ++ body1)
              seen1)
    as (body2 & seen2 & -> & _ & Hseen2 & Hall2).
  exists sep, (body1 ++ body2). simpl. split_and!; [|done|].
  { by rewrite <- !app_assoc. }
  intros p g Hg. apply elem_of_app.
  assert (p ∈ seen2) as Hp.
  { apply (Hall2 p g); [|done].
    rewrite sorted_by_Permutation. by eapply dict_get_Some_key. }
  destruct (Hseen2 p Hp) as [Hin|(g' & Hg' & Hin)].
  - left. destruct (Hseen1 p Hin) as [Hin'|(g' & Hg' & Hin')].
    + by apply elem_of_empty in Hin'.
    + by simplify_eq.
  - right. by simplify_eq.
Qed.

(** C9: whatever the merge source, the group file written holds the header
    lines read and the free-form lines read, unchanged and in their order,
    each ended by a line feed, and every plugin the file mapped is still
    mapped: to the group it had, or to the group a pair of the merge source
    gives it.  The header and the free-form lines read are, in order, the
    lines of the file that are no [name|group] entries (with the default
    header in front when the file starts with an entry). *)
Theorem sync_plugingroups_preserves
    (group_map : list (string * string))
    (loadorder_lines file_lines : list string)
    (existing_map : list (string * string)) (header others : list string) :
  _read_plugingroups_file (Some file_lines)
    = (existing_map, header, others) →
  let target_map := merge_group_map existing_map group_map in
  (∃ hdr, hdr ++ others = free_lines file_lines ∧
          (header = hdr ∨ hdr = [] ∧ header = [default_header])) ∧
  (∀ p g, dict_get existing_map p = Some g →
     ∃ g', dict_get target_map p = Some g' ∧
           (g' = g ∨ ∃ plugin group, (plugin, group) ∈ group_map ∧
                                     strip plugin = p ∧ strip group = g')) ∧
  (∀ out,
     sync_plugingroups_lines group_map loadorder_lines (Some file_lines)
       = Some out →
     ∃ sep body,
       out = map add_nl header ++ sep ++ map add_nl others ++ body ∧
       (sep = [] ∨ sep = [nl]) ∧
       ∀ p g, dict_get target_map p = Some g → group_line p g ∈ body).
Proof.
  intros Hread target_map. split_and!.
  - unfold _read_plugingroups_file in Hread.
    destruct (read_groups_fold_free file_lines (mk_groups_acc [] [] [] false))
      as [Hfree _]; [done|]. cbv zeta in Hfree. simpl in Hfree.
    set (st := foldl read_groups_step _ file_lines) in *.
    injection Hread as _ Hheader Hothers. subst others.
    exists (acc_header st). split; [done|].
    destruct (decide (acc_header st = [])) as [Hnil|_]; [right|by left].
    by split.
  - intros p g. apply merge_group_map_keeps.
  - intros out. unfold sync_plugingroups_lines.
    destruct (decide (group_map = [])); [done|].
    rewrite Hread. fold target_map.
    destruct (negb (dict_eqb target_map existing_map)); [|done].
    intros [= <-]. apply _write_plugingroups_lines_shape.
Qed.

Lemma sync_plugingroups_preserves_witness :
  let file_lines :=
    ["# my groups"; "A.esp|Base"; "keep this line"; "C.esp|Late"] in
  ∃ out sep body,
    sync_plugingroups_lines [("B.esp", "Patches")] ["B.esp"; "A.esp"]
      (Some file_lines) = Some out ∧
    out = map add_nl ["# my groups"] ++ sep
          ++ map add_nl ["keep this line"] ++ body ∧
    group_line "A.esp" "Base" ∈ body ∧
    group_line "C.esp" "Late" ∈ body.
Proof.
  intros file_lines.
  destruct (sync_plugingroups_preserves
              [("B.esp", "Patches")] ["B.esp"; "A.esp"] file_lines
              [("A.esp", "Base"); ("C.esp", "Late")]
              ["# my groups"] ["keep this line"] eq_refl)
    as (_ & _ & Hout).
  destruct (Hout _ eq_refl) as (sep & body & Heq & _ & Hbody).
  eexists _, sep, body. split_and!; [reflexivity|exact Heq|..].
  - by apply Hbody.
  - by apply Hbody.
Defined.

Example sync_plugingroups_example :
  sync_plugingroups_lines [("B.esp", "Patches")] ["B.esp"; "A.esp"]
    (Some ["# my groups"; "A.esp|Base"; "keep this line"; "C.esp|Late"])
  = Some ["# my groups" +:+ nl; nl; "keep this line" +:+ nl;
          "B.esp|Patches" +:+ nl; "A.esp|Base" +:+ nl; "C.esp|Late" +:+ nl].
Proof. reflexivity. Qed.

(** ** More on the mod list *)

Lemma filter_bool_none {A} (p : A → bool) (l : list A) :
  Forall (fun x => p x = false) l → filter (fun x => Is_true (p x)) l = [].
Proof.
  induction 1 as [|x l Hx _ IH]; [done|].
  rewrite filter_cons_False; [done|]. rewrite Hx. intros [].
Qed.

(** Every result of [set_mod_enabled_in_lines] is the line written for the
    mod, put among normalised lines read that are no entry of the mod; the
    lines read without the payload of the mod are all among them. *)
Lemma set_mod_enabled_in_lines_splice lines mod_name enable :
  ∃ i rest,
    set_mod_enabled_in_lines lines mod_name enable
      = py_insert i (mod_entry mod_name enable) rest ∧
    Forall (fun ln => is_mod_entry mod_name ln = false) rest ∧
    (∀ ln, ln ∈ rest → ∃ x, x ∈ lines ∧ ln = add_nl x) ∧
    (∀ x, x ∈ lines → has_mod_payload mod_name x = false →
          add_nl x ∈ rest).
Proof.
  rewrite set_mod_enabled_in_lines_unfold. cbv zeta.
  destruct (last _) as [keep_idx|] eqn:Hlast.
  - set (filtered := filter _ (map add_nl lines)).
    exists (min keep_idx (length filtered)), filtered.
    split_and!; [done| | |].
    + pose proof (filter_negb_none (has_mod_payload mod_name)
                    (map add_nl lines)) as Hnone.
      eapply Forall_impl; [exact Hnone|]. simpl.
      unfold is_mod_entry, has_mod_payload. intros ln ->.
      by rewrite andb_false_r.
    + intros ln Hln. apply list_elem_of_filter in Hln as [_ Hln].
      apply list_elem_of_fmap in Hln as (x & -> & Hx). eauto.
    + intros x Hx Hpay. apply list_elem_of_filter. split.
      * unfold has_mod_payload in *. rewrite strip_add_nl, Hpay. done.
      * apply list_elem_of_fmap. eauto.
  - exists (length (map add_nl lines)), (map add_nl lines).
    split_and!; [by rewrite py_insert_at_end| | |].
    + by apply last_None, positions_from_nil in Hlast.
    + intros ln Hln.
      apply list_elem_of_fmap in Hln as (x & -> & Hx). eauto.
    + intros x Hx _. apply list_elem_of_fmap. eauto.
Qed.

(** X1: After the mutation the mod has one entry line, the line written: a mod
    name appears once. (The name is stripped and not empty.) *)
Theorem set_mod_enabled_single_entry
    (lines : list string) (mod_name : string) (enable : bool) :
  mod_name ≠ EmptyString → strip mod_name = mod_name →
  filter (fun ln => Is_true (is_mod_entry mod_name ln))
    (set_mod_enabled_in_lines lines mod_name enable)
  = [mod_entry mod_name enable].
Proof.
  intros Hne Hclean.
  destruct (set_mod_enabled_in_lines_splice lines mod_name enable)
    as (i & rest & -> & Hrest & _ & _).
  unfold py_insert. rewrite <- (take_drop i rest) in Hrest.
  apply Forall_app in Hrest as [H1 H2].
  rewrite filter_app, filter_cons_True
    by (by rewrite mod_entry_is_mod_entry).
  by rewrite !filter_bool_none.
Qed.

Lemma set_mod_enabled_single_entry_witness :
  filter (fun ln => Is_true (is_mod_entry "Mod A" ln))
    (set_mod_enabled_in_lines ["+Mod A"; "# note"; "-Mod A"; "+Mod B"]
       "Mod A" true)
  = ["+Mod A" +:+ nl].
Proof.
  apply (set_mod_enabled_single_entry
           ["+Mod A"; "# note"; "-Mod A"; "+Mod B"] "Mod A" true);
    [discriminate|reflexivity].
Defined.

Lemma enables_enabling_entry m :
  m ≠ EmptyString → strip m = m → enables m (mod_entry m true) = true.
Proof.
  intros Hne Hclean. unfold enables, mod_entry.
  change ("+" +:+ m +:+ nl) with (String "+" (m +:+ nl)).
  rewrite strip_signed_line by done.
  assert (is_entry (String "+" m) = true) as ->
    by (unfold is_entry; by rewrite startswith_cons_ne).
  assert (startswith (String "+" m) "+" = true) as ->
    by (unfold startswith; by destruct m).
  simpl. rewrite Hclean. apply String.eqb_refl.
Qed.

(** The line written for [m] enables no other name than [strip m]. *)
Lemma enables_mod_entry_inv m' m enable :
  enables m' (mod_entry m enable) = true → m' = strip m.
Proof.
  destruct enable; [|by rewrite enables_disabling_entry].
  assert (strip (String "+" (m +:+ nl)) = String "+" (rstrip m)) as Hs.
  { unfold strip.
    by rewrite rstrip_cons_nonspace, lstrip_cons_nonspace, rstrip_app_nl. }
  unfold enables, mod_entry.
  change ("+" +:+ m +:+ nl) with (String "+" (m +:+ nl)).
  cbv zeta. rewrite Hs. cbn [tail1]. intros [_ Heq]%andb_true_iff.
  apply String.eqb_eq in Heq. rewrite <- Heq.
  unfold strip. by rewrite rstrip_idem.
Qed.

Lemma enables_other_payload m' m x :
  enables m' x = true → m' ≠ m → has_mod_payload m x = false.
Proof.
  unfold enables, has_mod_payload, payload_is.
  intros [_ Heq]%andb_true_iff Hne. apply String.eqb_eq in Heq.
  rewrite Heq. destruct (String.eqb m' m) eqn:He.
  - by apply String.eqb_eq in He.
  - by rewrite andb_false_r.
Qed.

(** Toggling a mod leaves an enabled mod of another name enabled. *)
Lemma set_mod_enabled_keeps_enabled lines m m' enable :
  m' ≠ m →
  m' ∈ enabled_names lines →
  m' ∈ enabled_names (set_mod_enabled_in_lines lines m enable).
Proof.
  intros Hne. rewrite !elem_of_enabled_names. intros (x & Hx & Hen).
  destruct (set_mod_enabled_in_lines_splice lines m enable)
    as (i & rest & -> & _ & _ & Hkept).
  exists (add_nl x). split; [|by rewrite enables_add_nl].
  assert (add_nl x ∈ rest) as Hin
    by (apply Hkept; [done|by eapply enables_other_payload]).
  unfold py_insert. rewrite <- (take_drop i rest) in Hin.
  apply elem_of_app in Hin. apply elem_of_app.
  destruct Hin; [by left|right]. apply elem_of_cons. by right.
Qed.

(** X2: Reading back: a mod that was enabled is among the enabled names, a mod
    that was disabled is not. (The name is stripped and not empty.) *)
Theorem set_mod_enabled_read_back (lines : list string) (mod_name : string) :
  mod_name ≠ EmptyString → strip mod_name = mod_name →
  mod_name ∈ enabled_names (set_mod_enabled_in_lines lines mod_name true)
  ∧ mod_name ∉ enabled_names (set_mod_enabled_in_lines lines mod_name false).
Proof.
  intros Hne Hclean. split.
  - apply elem_of_enabled_names. exists (mod_entry mod_name true).
    split; [apply set_mod_enabled_in_lines_has_entry|].
    by apply enables_enabling_entry.
  - rewrite elem_of_enabled_names. intros (ln & Hin & Hen).
    pose proof (set_mod_disabled_not_enabled lines mod_name Hne) as Hoff.
    rewrite Forall_forall in Hoff. specialize (Hoff ln Hin). congruence.
Qed.

Lemma set_mod_enabled_read_back_witness :
  "Mod A" ∈ enabled_names
              (set_mod_enabled_in_lines ["-Mod A"; "+Mod B"] "Mod A" true)
  ∧ "Mod A" ∉ enabled_names
                (set_mod_enabled_in_lines ["-Mod A"; "+Mod B"] "Mod A" false).
Proof.
  apply (set_mod_enabled_read_back ["-Mod A"; "+Mod B"] "Mod A");
    [discriminate|reflexivity].
Defined.

(** X3: Toggling a mod changes the state of no other mod: a name other than
    the mod's (as given and stripped) is enabled after the mutation exactly
    when it was before. *)
Theorem set_mod_enabled_frame
    (lines : list string) (mod_name other : string) (enable : bool) :
  other ≠ mod_name → other ≠ strip mod_name →
  other ∈ enabled_names (set_mod_enabled_in_lines lines mod_name enable)
  ↔ other ∈ enabled_names lines.
Proof.
  intros Hne Hne'. split; [|by apply set_mod_enabled_keeps_enabled].
  rewrite !elem_of_enabled_names. intros (ln & Hin & Hen).
  apply set_mod_enabled_in_lines_elem in Hin as [->|[Hin _]].
  - by apply enables_mod_entry_inv in Hen.
  - apply list_elem_of_fmap in Hin as (x & -> & Hx).
    rewrite enables_add_nl in Hen. eauto.
Qed.

Lemma set_mod_enabled_frame_witness :
  "Mod B" ∈ enabled_names
              (set_mod_enabled_in_lines ["+Mod A"; "+Mod B"] "Mod A" false)
  ↔ "Mod B" ∈ enabled_names ["+Mod A"; "+Mod B"].
Proof.
  apply (set_mod_enabled_frame ["+Mod A"; "+Mod B"] "Mod A" "Mod B" false);
    discriminate.
Defined.

Lemma foldl_set_mod_keeps_enabled enable names lines m :
  m ∉ names →
  m ∈ enabled_names lines →
  m ∈ enabled_names
        (foldl (fun ls m' => set_mod_enabled_in_lines ls m' enable)
           lines names).
Proof.
  revert lines. induction names as [|m' names IH]; intros lines Hnot Hin;
    [done|]. simpl.
  apply not_elem_of_cons in Hnot as [Hne Hnot].
  apply IH; [done|]. by apply set_mod_enabled_keeps_enabled.
Qed.

Lemma sorted_names_NoDup (names : gset string) : NoDup (sorted_names names).
Proof.
  unfold sorted_names. rewrite sorted_by_Permutation. apply NoDup_elements.
Qed.

Lemma apply_mod_sets_lines_enabled
    (lines : list string) (mods_to_enable mods_to_disable : gset string) m :
  m ∈ mods_to_enable → m ∉ mods_to_disable →
  m ≠ EmptyString → strip m = m →
  m ∈ enabled_names
        (apply_mod_sets_lines lines mods_to_enable mods_to_disable).
Proof.
  intros HE HD Hne Hclean. unfold apply_mod_sets_lines.
  apply foldl_set_mod_keeps_enabled; [by rewrite sorted_names_elem|].
  assert (m ∈ sorted_names (mods_to_enable ∖ mods_to_disable)) as Hin
    by (apply sorted_names_elem, elem_of_difference; by split).
  pose proof (sorted_names_NoDup (mods_to_enable ∖ mods_to_disable)) as Hnd.
  apply list_elem_of_split in Hin as (l1 & l2 & Heq).
  rewrite Heq in Hnd |- *. rewrite foldl_app. simpl.
  apply NoDup_app in Hnd as (_ & _ & Hnd). apply NoDup_cons in Hnd as [Hm _].
  apply foldl_set_mod_keeps_enabled; [done|].
  apply elem_of_enabled_names. exists (mod_entry m true).
  split; [apply set_mod_enabled_in_lines_has_entry|].
  by apply enables_enabling_entry.
Qed.

(** X4: [apply_mod_sets] enables every mod to enable that is not to disable.
    (The name is stripped and not empty.) *)
Theorem apply_mod_sets_enables
    (lines : list string) (mods_to_enable mods_to_disable : gset string)
    (m : string) :
  m ∈ mods_to_enable → m ∉ mods_to_disable →
  m ≠ EmptyString → strip m = m →
  m ∈ enabled_names
        (apply_mod_sets_lines lines mods_to_enable mods_to_disable).
Proof.
  apply apply_mod_sets_lines_enabled.
Qed.

Lemma apply_mod_sets_enables_witness :
  "Mod A" ∈ enabled_names
              (apply_mod_sets_lines ["-Mod A"; "+Mod B"]
                 {["Mod A"; "Mod C"]} {["Mod B"]}).
Proof.
  apply apply_mod_sets_enables;
    [set_solver|set_solver|discriminate|reflexivity].
Defined.

(** ** More on the activation list *)

(** The two ways [_set_plugin_enabled_in_plugins_lines] ends, with the
    flag it returns. *)
Lemma _set_plugin_enabled_result lines plugin enable :
  let tgt := strip plugin in
  let entry := plugin_entry tgt enable in
  (∃ i, last_match_at (plugin_line_is (lower tgt)) lines i ∧
        _set_plugin_enabled_in_plugins_lines lines plugin enable
          = (<[i := entry]> lines,
             bool_decide (<[i := entry]> lines !! i ≠ lines !! i)))
  ∨ (Forall (fun ln => plugin_line_is (lower tgt) ln = false) lines ∧
     _set_plugin_enabled_in_plugins_lines lines plugin enable
       = (lines ++ [entry], true)).
Proof.
  intros tgt entry. subst entry.
  unfold _set_plugin_enabled_in_plugins_lines. fold tgt.
  destruct (scan_last_idx_spec (lower tgt) lines 0 (-1))
    as [[-> Hnone]|(j & -> & Hj)].
  - right. by split.
  - left. exists j. simpl.
    destruct (0 <=? Z.of_nat j)%Z eqn:Hle; [|apply Z.leb_gt in Hle; lia].
    by rewrite Nat2Z.id.
Qed.

Lemma _set_plugin_enabled_no_change lines plugin enable :
  (_set_plugin_enabled_in_plugins_lines lines plugin enable).2 = false →
  (_set_plugin_enabled_in_plugins_lines lines plugin enable).1 = lines.
Proof.
  destruct (_set_plugin_enabled_result lines plugin enable)
    as [(i & [(x & Hx & _) _] & ->)|[_ ->]]; simpl; [|done].
  assert (i < length lines) as Hlt by (by eapply lookup_lt_Some).
  rewrite bool_decide_eq_false. intros Hsame%dec_stable.
  apply list_insert_id. rewrite <- Hsame.
  by apply list_lookup_insert_eq.
Qed.

(** X5: The flag [changed] is [False] exactly when the lines returned are the
    lines given. *)
Theorem set_plugin_enabled_changed_flag
    (lines : list string) (plugin : string) (enable : bool) :
  (_set_plugin_enabled_in_plugins_lines lines plugin enable).2 = false
  ↔ (_set_plugin_enabled_in_plugins_lines lines plugin enable).1 = lines.
Proof.
  split; [apply _set_plugin_enabled_no_change|].
  destruct (_set_plugin_enabled_result lines plugin enable)
    as [(i & [(x & Hx & _) _] & ->)|[_ ->]]; simpl.
  - intros ->. apply bool_decide_eq_false. by intros [].
  - intros Heq. apply (f_equal length) in Heq. rewrite length_app in Heq.
    simpl in Heq. lia.
Qed.

(** A line names one plugin at most. *)
Lemma plugin_line_is_unique t1 t2 ln :
  plugin_line_is t1 ln = true → plugin_line_is t2 ln = true → t1 = t2.
Proof.
  unfold plugin_line_is. destruct (negb (is_entry (strip ln))); [done|].
  intros H1%String.eqb_eq H2%String.eqb_eq. congruence.
Qed.

(** The line written is the last line that names the plugin. *)
Lemma _set_plugin_enabled_written_last lines plugin enable :
  enable = true
  ∨ (is_entry (strip plugin) = true ∧ startswith (strip plugin) "*" = false) →
  ∃ i,
    last_match_at (plugin_line_is (name_key plugin))
      (_set_plugin_enabled_in_plugins_lines lines plugin enable).1 i ∧
    (_set_plugin_enabled_in_plugins_lines lines plugin enable).1 !! i
      = Some (plugin_entry (strip plugin) enable).
Proof.
  intros Hok. pose proof (plugin_entry_found_again plugin enable Hok) as He.
  cbv zeta in He. unfold name_key.
  destruct (_set_plugin_enabled_result lines plugin enable)
    as [(i & [(x & Hx & Hpx) Hlast] & ->)|[Hnone ->]]; simpl.
  - assert (i < length lines) as Hlt by (by eapply lookup_lt_Some).
    exists i. split; [split|].
    + exists (plugin_entry (strip plugin) enable).
      by rewrite list_lookup_insert_eq.
    + intros j y Hj Hy. rewrite list_lookup_insert_ne in Hy by lia.
      by apply (Hlast j y).
    + by rewrite list_lookup_insert_eq.
  - exists (length lines). split; [split|].
    + exists (plugin_entry (strip plugin) enable).
      by rewrite lookup_app_r, Nat.sub_diag by lia.
    + intros j y Hj Hy. apply lookup_lt_Some in Hy.
      rewrite length_app in Hy. simpl in Hy. lia.
    + by rewrite lookup_app_r, Nat.sub_diag by lia.
Qed.

(** X6: After the mutation the last line that names the plugin is the line
    written (when it disables: for a stripped name that is not empty and
    starts with neither [#] nor [*]). *)
Theorem set_plugin_enabled_last_line
    (lines : list string) (plugin : string) (enable : bool) :
  enable = true
  ∨ (is_entry (strip plugin) = true ∧ startswith (strip plugin) "*" = false) →
  ∃ i,
    last_match_at (plugin_line_is (name_key plugin))
      (_set_plugin_enabled_in_plugins_lines lines plugin enable).1 i ∧
    (_set_plugin_enabled_in_plugins_lines lines plugin enable).1 !! i
      = Some (plugin_entry (strip plugin) enable).
Proof.
  apply _set_plugin_enabled_written_last.
Qed.

Lemma set_plugin_enabled_last_line_witness :
  ∃ i,
    last_match_at (plugin_line_is (name_key "a.esp"))
      (_set_plugin_enabled_in_plugins_lines
         ["*A.esp"; "b.esp"; "a.ESP"] "a.esp" false).1 i ∧
    (_set_plugin_enabled_in_plugins_lines
       ["*A.esp"; "b.esp"; "a.ESP"] "a.esp" false).1 !! i
      = Some ("a.esp" +:+ nl).
Proof.
  apply (set_plugin_enabled_last_line
           ["*A.esp"; "b.esp"; "a.ESP"] "a.esp" false).
  right. split; reflexivity.
Defined.

(** Enabling a plugin of another name moves and changes the last line of
    a plugin in no way. *)
Lemma set_plugin_enabled_keeps_last_line lines p q i ln :
  name_key q ≠ name_key p →
  last_match_at (plugin_line_is (name_key p)) lines i →
  lines !! i = Some ln →
  last_match_at (plugin_line_is (name_key p))
    (_set_plugin_enabled_in_plugins_lines lines q true).1 i
  ∧ (_set_plugin_enabled_in_plugins_lines lines q true).1 !! i = Some ln.
Proof.
  intros Hkey [(x & Hx & Hpx) Hlast] Hln.
  assert (plugin_line_is (name_key p) (plugin_entry (strip q) true) = false)
    as Hother.
  { destruct (plugin_line_is (name_key p) (plugin_entry (strip q) true))
      eqn:Hp; [|done].
    pose proof (plugin_entry_found_again q true (or_introl eq_refl)) as Hq.
    cbv zeta in Hq. destruct Hkey. symmetry.
    by eapply plugin_line_is_unique. }
  assert (i < length lines) as Hlt by (by eapply lookup_lt_Some).
  destruct (_set_plugin_enabled_result lines q true)
    as [(j & [(y & Hy & Hqy) _] & ->)|[_ ->]]; simpl.
  - assert (i ≠ j) as Hij.
    { intros ->. simplify_eq. destruct Hkey. symmetry.
      by eapply plugin_line_is_unique. }
    rewrite list_lookup_insert_ne by done. split; [split|done].
    + exists x. by rewrite list_lookup_insert_ne.
    + intros k z Hk Hz. destruct (decide (j = k)) as [->|Hjk].
      * rewrite list_lookup_insert_eq in Hz by (by eapply lookup_lt_Some).
        by simplify_eq.
      * rewrite list_lookup_insert_ne in Hz by done. by apply (Hlast k z).
  - rewrite lookup_app_l by done. split; [split|done].
    + exists x. by rewrite lookup_app_l.
    + intros k z Hk Hz. destruct (decide (k < length lines)).
      * rewrite lookup_app_l in Hz by done. by apply (Hlast k z).
      * rewrite lookup_app_r in Hz by lia.
        destruct (k - length lines); simplify_eq/=; done.
Qed.

Lemma _ensure_all_enabled_lines_snoc lines plugins pl :
  _ensure_all_enabled_lines lines (plugins ++ [pl]) =
    let st := _ensure_all_enabled_lines lines plugins in
    let r := _set_plugin_enabled_in_plugins_lines st.1 pl true in
    (r.1, st.2 || r.2).
Proof.
  unfold _ensure_all_enabled_lines. rewrite foldl_snoc.
  destruct (foldl _ _ plugins) as [l c]. simpl.
  by destruct (_set_plugin_enabled_in_plugins_lines l pl true).
Qed.

(** X7: After the batch activation every plugin of the batch is active. *)
Theorem ensure_all_enabled_activates
    (lines plugins : list string) (p : string) :
  p ∈ plugins →
  plugin_active (_ensure_all_enabled_lines lines plugins).1 p.
Proof.
  induction plugins as [|q plugins IH] using rev_ind; intros Hp.
  { by apply elem_of_nil in Hp. }
  rewrite _ensure_all_enabled_lines_snoc. cbv zeta. simpl.
  set (l := (_ensure_all_enabled_lines lines plugins).1) in *.
  assert (plugin_active (_set_plugin_enabled_in_plugins_lines l q true).1 q)
    as Hq.
  { destruct (_set_plugin_enabled_written_last l q true (or_introl eq_refl))
      as (i & Hi & Hline).
    exists i, (plugin_entry (strip q) true). split_and!; [done..|].
    unfold plugin_entry.
    change ("*" +:+ strip q +:+ nl) with (String "*" (strip q +:+ nl)).
    rewrite strip_signed_line by (done || apply strip_idem).
    unfold startswith. by destruct (strip q). }
  destruct (decide (name_key q = name_key p)) as [Hkey|Hkey].
  { unfold plugin_active in *. by rewrite <- Hkey. }
  apply elem_of_app in Hp. destruct Hp as [Hp|Hp].
  - destruct (IH Hp) as (i & ln & Hi & Hln & Hstar).
    destruct (set_plugin_enabled_keeps_last_line l p q i ln Hkey Hi Hln)
      as [Hi' Hln'].
    by exists i, ln.
  - apply list_elem_of_singleton in Hp. by subst.
Qed.

Lemma ensure_all_enabled_activates_witness :
  plugin_active
    (_ensure_all_enabled_lines ["# header"; "a.esp"; "*b.esp"]
       ["a.esp"; "c.esm"]).1 "a.esp".
Proof.
  apply ensure_all_enabled_activates. apply elem_of_cons. by left.
Defined.

Lemma _ensure_all_enabled_lines_no_change lines plugins :
  (_ensure_all_enabled_lines lines plugins).2 = false →
  (_ensure_all_enabled_lines lines plugins).1 = lines.
Proof.
  induction plugins as [|q plugins IH] using rev_ind; [done|].
  rewrite _ensure_all_enabled_lines_snoc. cbv zeta. simpl.
  intros [Hc Hq]%orb_false_iff. specialize (IH Hc).
  apply _set_plugin_enabled_no_change in Hq. by rewrite Hq.
Qed.

(** X8: When the batch activation reports no change, the lines are the lines
    read: skipping the write loses nothing. *)
Theorem ensure_all_enabled_unchanged (lines plugins : list string) :
  (_ensure_all_enabled_lines lines plugins).2 = false →
  (_ensure_all_enabled_lines lines plugins).1 = lines.
Proof.
  apply _ensure_all_enabled_lines_no_change.
Qed.

Lemma ensure_all_enabled_unchanged_witness :
  (_ensure_all_enabled_lines ["*a.esp" +:+ nl; "*b.esp" +:+ nl]
     ["b.esp"; "a.esp"]).1
  = ["*a.esp" +:+ nl; "*b.esp" +:+ nl].
Proof.
  by apply ensure_all_enabled_unchanged.
Defined.

(** A plugin whose last line is the line an activation writes is left as
    it is, and no change is reported. *)
Lemma set_plugin_enabled_settled lines p i :
  last_match_at (plugin_line_is (name_key p)) lines i →
  lines !! i = Some (plugin_entry (strip p) true) →
  _set_plugin_enabled_in_plugins_lines lines p true = (lines, false).
Proof.
  intros Hi Hline.
  destruct (_set_plugin_enabled_result lines p true)
    as [(j & Hj & ->)|[Hnone _]].
  - rewrite (last_match_at_unique _ _ _ _ Hj Hi).
    rewrite list_insert_id by done. f_equal.
    by apply bool_decide_eq_false; intros [].
  - destruct Hi as [(x & Hx & Hpx) _]. rewrite Forall_forall in Hnone.
    unfold name_key in Hpx.
    rewrite Hnone in Hpx; [done|]. by eapply list_elem_of_lookup_2.
Qed.

Lemma _ensure_all_enabled_lines_fixed lines plugins :
  NoDup (map name_key plugins) →
  _ensure_all_enabled_lines
    (_ensure_all_enabled_lines lines plugins).1 plugins
  = ((_ensure_all_enabled_lines lines plugins).1, false).
Proof.
  intros Hnd.
  assert (∀ p, p ∈ plugins →
            ∃ i, last_match_at (plugin_line_is (name_key p))
                   (_ensure_all_enabled_lines lines plugins).1 i ∧
                 (_ensure_all_enabled_lines lines plugins).1 !! i
                   = Some (plugin_entry (strip p) true)) as Hsettled.
  { clear -Hnd. induction plugins as [|q plugins IH] using rev_ind.
    { intros p Hp. by apply elem_of_nil in Hp. }
    rewrite map_app in Hnd. apply NoDup_app in Hnd as (Hnd & Hfresh & _).
    intros p Hp. rewrite _ensure_all_enabled_lines_snoc. cbv zeta. simpl.
    apply elem_of_app in Hp. destruct Hp as [Hp|Hp].
    - destruct (IH Hnd p Hp) as (i & Hi & Hline). exists i.
      apply set_plugin_enabled_keeps_last_line; [|done..].
      intros Hkey. apply (Hfresh (name_key p)).
      + apply list_elem_of_fmap. eauto.
      + simpl. rewrite Hkey. apply elem_of_cons. by left.
    - apply list_elem_of_singleton in Hp. subst p.
      by apply _set_plugin_enabled_written_last; left. }
  set (l1 := (_ensure_all_enabled_lines lines plugins).1) in *.
  assert (∀ qs, (∀ p, p ∈ qs → p ∈ plugins) →
            _ensure_all_enabled_lines l1 qs = (l1, false)) as Hfix.
  { induction qs as [|q qs IH] using rev_ind; intros Hsub; [done|].
    rewrite _ensure_all_enabled_lines_snoc. cbv zeta.
    rewrite IH by (intros p Hp; apply Hsub, elem_of_app; by left). simpl.
    destruct (Hsettled q) as (i & Hi & Hline).
    { apply Hsub, elem_of_app. right. by apply list_elem_of_singleton. }
    by rewrite (set_plugin_enabled_settled l1 q i). }
  by apply Hfix.
Qed.

(** X9: Re-run stability of the batch activation: over plugins that differ in
    more than case and outer white space, a second batch activation returns
    the lines of the first and reports no change. *)
Theorem ensure_all_enabled_rerun (lines plugins : list string) :
  NoDup (map name_key plugins) →
  _ensure_all_enabled_lines
    (_ensure_all_enabled_lines lines plugins).1 plugins
  = ((_ensure_all_enabled_lines lines plugins).1, false).
Proof.
  apply _ensure_all_enabled_lines_fixed.
Qed.

Lemma ensure_all_enabled_rerun_witness :
  _ensure_all_enabled_lines
    (_ensure_all_enabled_lines ["# header"; "a.esp"] ["A.esp"; "b.esm"]).1
    ["A.esp"; "b.esm"]
  = ((_ensure_all_enabled_lines ["# header"; "a.esp"] ["A.esp"; "b.esm"]).1,
     false).
Proof.
  apply ensure_all_enabled_rerun.
  apply (bool_decide_unpack _). by vm_compute.
Defined.

(** ** Files read back *)

Lemma string_app_assoc (a b c : string) :
  (a +:+ b) +:+ c = a +:+ b +:+ c.
Proof.
  induction a as [|x a IH]; [done|].
  change ((String x a +:+ b) +:+ c) with (String x ((a +:+ b) +:+ c)).
  by rewrite IH.
Qed.

Lemma string_app_nil_r (a : string) : a +:+ EmptyString = a.
Proof.
  induction a as [|x a IH]; [done|].
  change (String x a +:+ EmptyString) with (String x (a +:+ EmptyString)).
  by rewrite IH.
Qed.

(** [splitlines] on a text that starts with a line and its line feed. *)
Lemma splitlines_go_line keepends cur ln rest :
  has_linebreak ln = false →
  splitlines_go keepends cur (ln +:+ nl +:+ rest)
  = (cur +:+ ln +:+ (if keepends then nl else EmptyString))
      :: splitlines_go keepends EmptyString rest.
Proof.
  revert cur. induction ln as [|c ln IH]; intros cur Hln.
  - change (EmptyString +:+ nl +:+ rest) with (String "010" rest).
    change (EmptyString +:+ (if keepends then nl else EmptyString))
      with (if keepends then nl else EmptyString).
    destruct rest as [|d rest]; simpl.
    + by destruct keepends; rewrite ?string_app_nil_r.
    + by destruct keepends; rewrite ?string_app_nil_r.
  - simpl in Hln. apply orb_false_iff in Hln as [Hc Hln].
    change (String c ln +:+ nl +:+ rest) with (String c (ln +:+ nl +:+ rest)).
    simpl. rewrite Hc, IH by done.
    by rewrite string_app_assoc.
Qed.

Lemma splitlines_join_lines keepends (lines : list string) :
  Forall (fun ln => has_linebreak ln = false) lines →
  splitlines keepends (join (map (fun ln => ln +:+ nl) lines))
  = map (fun ln => ln +:+ (if keepends then nl else EmptyString)) lines.
Proof.
  unfold splitlines. induction 1 as [|ln lines Hln _ IH]; [done|].
  simpl. rewrite string_app_assoc, splitlines_go_line by done.
  by rewrite IH.
Qed.

Lemma _read_loadorder_lines_written (order : list string) :
  Forall loadorder_name order →
  _read_loadorder_lines (splitlines false (_write_loadorder_text order))
  = order.
Proof.
  intros Hnames. unfold _write_loadorder_text.
  rewrite splitlines_join_lines
    by (eapply Forall_impl; [exact Hnames|]; by intros n [? _]).
  assert (map (fun ln => ln +:+ EmptyString) order = order) as ->.
  { apply map_fixed. apply Forall_forall. intros. apply string_app_nil_r. }
  unfold _read_loadorder_lines. rewrite filter_all.
  - apply map_fixed. eapply Forall_impl; [exact Hnames|].
    by intros n (_ & ? & _).
  - eapply Forall_impl; [exact Hnames|]. simpl.
    intros n (_ & -> & ->). done.
Qed.

(** X10: Reading the load order back: a load order of names the file keeps is
    read from the text written for it as it was. *)
Theorem loadorder_read_back (order : list string) :
  Forall loadorder_name order →
  _read_loadorder_lines (splitlines false (_write_loadorder_text order))
  = order.
Proof.
  apply _read_loadorder_lines_written.
Qed.

Lemma loadorder_read_back_witness :
  _read_loadorder_lines
    (splitlines false (_write_loadorder_text ["Skyrim.esm"; "My Mod.esp"]))
  = ["Skyrim.esm"; "My Mod.esp"].
Proof.
  apply loadorder_read_back. repeat constructor.
Defined.

Lemma has_linebreak_endswith ln :
  has_linebreak ln = false → endswith ln nl = false.
Proof.
  intros Hln. destruct (endswith ln nl) eqn:He; [|done].
  apply endswith_contains in He. clear -Hln He.
  induction ln as [|c ln IH]; [done|].
  change (has_linebreak (String c ln))
    with (is_linebreak c || has_linebreak ln) in Hln.
  change (contains_char "010" (String c ln))
    with (if Ascii.eqb "010" c then true else contains_char "010" ln) in He.
  apply orb_false_iff in Hln as [Hc Hln].
  destruct (Ascii.eqb "010" c) eqn:Heq; [|by apply IH].
  apply Ascii.eqb_eq in Heq. by subst.
Qed.

(** X11: Reading the mod list back: when the write does not fail,
    [read_modlist] returns the lines [write_modlist] was given (lines that
    hold no line boundary). *)
Theorem modlist_read_back
    (faulty : list fs_call → fs_call → bool) (path : string)
    (lines : list string) (st : fs) :
  Forall (fun ln => has_linebreak ln = false) lines →
  faulty (calls st) (WriteText path (join (map add_nl lines))) = false →
  ∃ st',
    write_modlist faulty path lines st = (Returned (), st') ∧
    read_modlist path st' = (Returned lines, st').
Proof.
  intros Hlines Hok.
  unfold write_modlist, try_except, perform. rewrite Hok.
  eexists. split; [done|].
  unfold read_modlist, read_file, mbind, io_bind, mret, io_ret. simpl.
  rewrite lookup_insert_eq. do 2 f_equal.
  assert (map add_nl lines = map (fun ln => ln +:+ nl) lines) as ->.
  { apply map_ext_Forall. eapply Forall_impl; [exact Hlines|]. simpl.
    intros ln Hln. unfold add_nl. by rewrite has_linebreak_endswith. }
  rewrite splitlines_join_lines by done.
  apply map_fixed. apply Forall_forall. intros. apply string_app_nil_r.
Qed.

Lemma modlist_read_back_witness :
  ∃ st',
    write_modlist no_fault "modlist.txt" ["# list"; "+Mod A"; "-Mod B"]
      (mk_fs ∅ [] []) = (Returned (), st') ∧
    read_modlist "modlist.txt" st'
      = (Returned ["# list"; "+Mod A"; "-Mod B"], st').
Proof.
  apply modlist_read_back; [by repeat constructor|done].
Defined.

(** ** The sets of the caller *)

(** Membership goals over unions, differences and singletons. *)
Ltac set_members :=
  repeat first
    [ rewrite elem_of_union | rewrite elem_of_difference
    | rewrite elem_of_singleton | rewrite elem_of_list_to_set
    | rewrite elem_of_cons | rewrite elem_of_nil
    | rewrite elem_of_empty ].

Lemma merge_enable_fold (data : list string) (E D : gset string) :
  foldl (fun '(mods_enable, mods_disable) m =>
           (mods_enable ∪ {[m]}, mods_disable ∖ {[m]})) (E, D) data
  = (E ∪ list_to_set data, D ∖ list_to_set data).
Proof.
  revert E D. induction data as [|m data IH]; intros E D; simpl.
  - f_equal; apply set_eq; intros x; set_members; tauto.
  - rewrite IH. f_equal; apply set_eq; intros x; set_members; tauto.
Qed.

Lemma merge_disable_fold (data : list string) (E D : gset string) :
  foldl (fun '(mods_enable, mods_disable) m =>
           (mods_enable ∖ {[m]}, mods_disable ∪ {[m]})) (E, D) data
  = (E ∖ list_to_set data, D ∪ list_to_set data).
Proof.
  revert E D. induction data as [|m data IH]; intros E D; simpl.
  - f_equal; apply set_eq; intros x; set_members; tauto.
  - rewrite IH. f_equal; apply set_eq; intros x; set_members; tauto.
Qed.

Lemma _merge_rules_key_sets data_enable data_disable (E D : gset string) :
  _merge_rules_key data_enable data_disable (E, D)
  = ((E ∪ list_to_set data_enable) ∖ list_to_set data_disable,
     (D ∖ list_to_set data_enable) ∪ list_to_set data_disable).
Proof.
  unfold _merge_rules_key. by rewrite merge_enable_fold, merge_disable_fold.
Qed.

(** X13: Merging a rule: a mod the rule disables ends up to disable only, a
    mod it enables and does not disable ends up to enable only, and a mod the
    rule does not name stays in the sets it was in. *)
Theorem merge_rules_key_last_wins
    (data_enable data_disable : list string) (E D : gset string) (m : string) :
  let sets := _merge_rules_key data_enable data_disable (E, D) in
  (m ∈ data_disable → m ∈ sets.2 ∧ m ∉ sets.1) ∧
  (m ∈ data_enable → m ∉ data_disable → m ∈ sets.1 ∧ m ∉ sets.2) ∧
  (m ∉ data_enable → m ∉ data_disable →
   (m ∈ sets.1 ↔ m ∈ E) ∧ (m ∈ sets.2 ↔ m ∈ D)).
Proof.
  cbv zeta. rewrite _merge_rules_key_sets. simpl.
  rewrite !elem_of_union, !elem_of_difference, !elem_of_union,
    !elem_of_list_to_set.
  split_and!; intros; split_and?; tauto.
Qed.

Lemma merge_rules_key_last_wins_witness :
  let sets := _merge_rules_key ["ENB Binary"] ["Community Shaders"]
                ({["Community Shaders"]}, ∅) in
  "Community Shaders" ∈ sets.2 ∧ "Community Shaders" ∉ sets.1.
Proof.
  apply (merge_rules_key_last_wins ["ENB Binary"] ["Community Shaders"]
           {["Community Shaders"]} ∅ "Community Shaders").
  apply elem_of_cons. by left.
Defined.

(** X14: The sets [on_apply] hands to [apply_mod_sets] are disjoint, whatever
    the rules merged: removing the mods to disable from the mods to enable, as
    [apply_mod_sets] does, removes nothing. *)
Theorem merged_sets_disjoint (rules : list (list string * list string)) :
  (merged_sets rules).1 ## (merged_sets rules).2
  ∧ (merged_sets rules).1 ∖ (merged_sets rules).2 = (merged_sets rules).1.
Proof.
  assert ((merged_sets rules).1 ## (merged_sets rules).2) as Hdisj.
  { unfold merged_sets.
    induction rules as [|[data_enable data_disable] rules IH] using rev_ind.
    - simpl. apply elem_of_disjoint. intros x Hx. by apply elem_of_empty in Hx.
    - rewrite foldl_snoc. destruct (foldl _ _ rules) as [E D].
      rewrite _merge_rules_key_sets. simpl in *.
      rewrite elem_of_disjoint in IH |- *. intros x. specialize (IH x).
      set_members. tauto. }
  split; [done|]. apply set_eq. intros x. rewrite elem_of_disjoint in Hdisj.
  specialize (Hdisj x). set_members. tauto.
Qed.

(** ** The order of the group file *)

Lemma first_occurrences_filter (P : string → Prop) `{∀ x, Decision (P x)} l :
  first_occurrences (filter P l) = filter P (first_occurrences l).
Proof.
  induction l as [|x l IH]; [done|]. rewrite filter_cons.
  destruct (decide (P x)) as [Hx|Hx]; simpl.
  - rewrite filter_cons_True by done. f_equal.
    rewrite IH, !list_filter_filter. apply list_filter_iff. tauto.
  - rewrite filter_cons_False by done.
    rewrite IH, !list_filter_filter. apply list_filter_iff.
    intros y. split; [|tauto]. intros Hy. split; [done|]. by intros ->.
Qed.

Lemma first_occurrences_NoDup l : NoDup l → first_occurrences l = l.
Proof.
  induction 1 as [|x l Hx _ IH]; [done|]. simpl. rewrite IH. f_equal.
  apply filter_all. apply Forall_forall. by intros y Hy ->.
Qed.

Lemma omap_cons_unfold {A B} (f : A → option B) x (l : list A) :
  omap f (x :: l) =
    match f x with Some y => y :: omap f l | None => omap f l end.
Proof. done. Qed.

Lemma filter_ext_elem {A} (P Q : A → Prop) `{∀ x, Decision (P x)}
    `{∀ x, Decision (Q x)} (l : list A) :
  (∀ x, x ∈ l → P x ↔ Q x) → filter P l = filter Q l.
Proof.
  induction l as [|x l IH]; intros Hext; [done|].
  rewrite !filter_cons, IH by (intros y Hy; apply Hext; by right).
  destruct (decide (P x)) as [HP|HP], (decide (Q x)) as [HQ|HQ]; try done.
  - destruct HQ. apply Hext; [by left|done].
  - destruct HP. apply Hext; [by left|done].
Qed.

Lemma omap_filter_out {A B} (f : A → option B) (P : A → Prop)
    `{∀ x, Decision (P x)} (l : list A) :
  (∀ x, x ∈ l → ¬ P x → f x = None) →
  omap f (filter P l) = omap f l.
Proof.
  induction l as [|x l IH]; intros Hnone; [done|].
  rewrite filter_cons. destruct (decide (P x)) as [Hx|Hx].
  - rewrite !omap_cons_unfold, IH; [done|].
    intros y Hy. apply Hnone. by right.
  - rewrite omap_cons_unfold, (Hnone x) by (done || by left).
    apply IH. intros y Hy. apply Hnone. by right.
Qed.

(** The lines one loop of [_write_plugingroups_file] adds, in closed form:
    the lines of the mapped plugins it goes through that are not seen yet,
    each at its first occurrence. *)
Lemma emit_group_fold_lines mapping ps out (seen : gset string) :
  foldl (emit_group mapping) (out, seen) ps
  = (out ++ omap (group_line_of mapping)
              (first_occurrences (filter (fun p => p ∉ seen) ps)),
     seen ∪ list_to_set
              (filter (fun p => is_Some (dict_get mapping p)) ps)).
Proof.
  revert out seen. induction ps as [|p ps IH]; intros out seen.
  - simpl. rewrite app_nil_r. f_equal.
    apply set_eq. intros x. set_members. tauto.
  - cbn [foldl]. unfold emit_group at 2. cbn [fst snd].
    rewrite !filter_cons.
    destruct (dict_get mapping p) as [grp|] eqn:Hp.
    + destruct (decide (is_Some (Some grp))) as [_|Hn];
        [|by destruct Hn; eauto].
      destruct (decide (p ∉ seen)) as [Hnew|Hold].
      * rewrite IH. cbn [first_occurrences]. rewrite omap_cons_unfold.
        assert (group_line_of mapping p = Some (group_line p grp)) as ->
          by (unfold group_line_of; by rewrite Hp).
        assert (first_occurrences (filter (fun p0 => p0 ∉ seen ∪ {[p]}) ps)
                = filter (fun y => y ≠ p)
                    (first_occurrences (filter (fun p0 => p0 ∉ seen) ps)))
          as ->.
        { rewrite <- first_occurrences_filter, list_filter_filter.
          f_equal. apply list_filter_iff. intros y. set_members. tauto. }
        rewrite <- app_assoc. cbn [app]. f_equal.
        apply set_eq. intros x. set_members. tauto.
      * rewrite IH. f_equal. apply set_eq. intros x. set_members.
        apply dec_stable in Hold. split; [tauto|].
        intros [?|[->|?]]; tauto.
    + destruct (decide (is_Some (@None string))) as [[? ?]|_]; [done|].
      destruct (decide (p ∉ seen)) as [Hnew|Hold]; rewrite IH; [|done].
      cbn [first_occurrences]. rewrite omap_cons_unfold.
      assert (group_line_of mapping p = None) as ->
        by (unfold group_line_of; by rewrite Hp).
      do 2 f_equal. symmetry.
      apply omap_filter_out. intros y Hy Hne.
      assert (y = p) as -> by (by apply dec_stable).
      unfold group_line_of. by rewrite Hp.
Qed.

Lemma dict_get_is_Some_key d k :
  is_Some (dict_get d k) ↔ k ∈ map fst d.
Proof.
  induction d as [|[k0 v0] d IH]; simpl.
  - split; [by intros [? ?]|by intros ?%elem_of_nil].
  - destruct (decide (k0 = k)) as [->|Hne].
    + split; [|by eauto]. intros _. by left.
    + rewrite IH. split; [by right|].
      intros Hk. apply elem_of_cons in Hk. by destruct Hk.
Qed.

(** X15: The order of the written mapping: first the mapped plugins of the
    load order, in load-order sequence, each once; then the other plugins of
    the mapping, sorted without regard to case. *)
Theorem write_plugingroups_order
    (ordered_plugins : list string) (mapping : list (string * string))
    (header others : list string) :
  NoDup (map fst mapping) →
  _write_plugingroups_lines ordered_plugins mapping header others
  = groups_preamble header others
    ++ omap (group_line_of mapping)
         (first_occurrences ordered_plugins
          ++ filter (fun p => p ∉ ordered_plugins)
               (sorted_by (fun a b => String.leb (lower a) (lower b))
                  (map fst mapping))).
Proof.
  intros Hnd. unfold groups_preamble, _write_plugingroups_lines.
  cbn [map sorted_by foldr foldl fst].
  set (out := _ ++ map add_nl others).
  set (keys := sorted_by _ (map fst mapping)).
  rewrite !emit_group_fold_lines. cbn [fst].
  match goal with
  | |- context [filter ?P ordered_plugins] =>
      rewrite (filter_all P ordered_plugins)
        by (apply Forall_forall; intros x _; apply not_elem_of_empty)
  end.
  assert (NoDup keys) as Hkeys
    by (unfold keys; by rewrite sorted_by_Permutation).
  rewrite (first_occurrences_NoDup (filter _ keys))
    by (by apply NoDup_filter).
  match goal with
  | |- context [filter ?P keys ] =>
      rewrite (filter_ext_elem P (fun p => p ∉ ordered_plugins) keys)
  end.
  2: { intros k Hk.
       assert (is_Some (dict_get mapping k)) as Hmapped.
       { apply dict_get_is_Some_key. unfold keys in Hk.
         by rewrite sorted_by_Permutation in Hk. }
       set_members. rewrite list_elem_of_filter. tauto. }
  by rewrite <- app_assoc, omap_app.
Qed.

Lemma write_plugingroups_order_witness :
  _write_plugingroups_lines ["B.esp"; "A.esm"; "B.esp"; "X.esp"]
    [("A.esm", "Base"); ("z.esp", "Late"); ("B.esp", "Mid"); ("C.esp", "Mid")]
    ["# groups"] []
  = groups_preamble ["# groups"] []
    ++ ["B.esp|Mid" +:+ nl; "A.esm|Base" +:+ nl;
        "C.esp|Mid" +:+ nl; "z.esp|Late" +:+ nl].
Proof.
  rewrite write_plugingroups_order; [reflexivity|].
  apply (bool_decide_unpack _). by vm_compute.
Defined.

(** ** The mapping of the group file *)

Lemma dict_set_keys d k v :
  map fst (dict_set d k v) =
    if decide (k ∈ map fst d) then map fst d else map fst d ++ [k].
Proof.
  induction d as [|[k0 v0] d IH].
  - destruct (decide (k ∈ map fst [])) as [Hin|]; [|done].
    by apply elem_of_nil in Hin.
  - cbn [dict_set map fst].
    destruct (decide (k0 = k)) as [->|Hne]; cbn [map fst].
    + destruct (decide (k ∈ k :: map fst d)) as [|Hout]; [done|].
      destruct Hout. by left.
    + rewrite IH. destruct (decide (k ∈ map fst d)) as [Hin|Hout];
        destruct (decide (k ∈ k0 :: map fst d)) as [Hin'|Hout']; try done.
      * destruct Hout'. by right.
      * apply elem_of_cons in Hin'. by destruct Hin' as [->|].
Qed.

Lemma dict_set_NoDup d k v :
  NoDup (map fst d) → NoDup (map fst (dict_set d k v)).
Proof.
  intros Hnd. rewrite dict_set_keys. case_decide; [done|].
  apply NoDup_app. split_and!; [done| |apply NoDup_singleton].
  intros x Hx Hk. apply list_elem_of_singleton in Hk. by subst.
Qed.

Lemma merge_group_map_NoDup group_map existing_map :
  NoDup (map fst existing_map) →
  NoDup (map fst (merge_group_map existing_map group_map)).
Proof.
  unfold merge_group_map. revert existing_map.
  induction group_map as [|[plugin group] rest IH]; intros tm Hnd; [done|].
  simpl. apply IH. destruct (_ && _); [by apply dict_set_NoDup|done].
Qed.

Lemma read_groups_step_NoDup st raw :
  NoDup (map fst (acc_mapping st)) →
  NoDup (map fst (acc_mapping (read_groups_step st raw))).
Proof.
  intros Hnd. unfold read_groups_step.
  repeat (case_match; simpl; try done). by apply dict_set_NoDup.
Qed.

(** A mapping read from the group file, and a mapping merged into it, has
    one entry for a plugin. *)
Lemma _read_plugingroups_file_NoDup file_lines :
  NoDup (map fst (_read_plugingroups_file file_lines).1.1).
Proof.
  destruct file_lines as [lines|]; simpl; [|constructor].
  assert (∀ st, NoDup (map fst (acc_mapping st)) →
                NoDup (map fst (acc_mapping
                                  (foldl read_groups_step st lines)))) as H.
  { induction lines as [|raw lines IH]; intros st Hst; [done|].
    simpl. by apply IH, read_groups_step_NoDup. }
  apply H. constructor.
Qed.

Lemma dict_eqb_refl d : NoDup (map fst d) → dict_eqb d d = true.
Proof.
  intros Hnd. unfold dict_eqb. rewrite bool_decide_eq_true_2 by done.
  simpl. apply forallb_forall. intros [k v] Hin. apply bool_decide_eq_true.
  simpl. clear -Hnd Hin. induction d as [|[k0 v0] d IH]; [done|].
  simpl in *. apply NoDup_cons in Hnd as [Hk0 Hnd].
  destruct Hin as [[= -> ->]|Hin].
  - by rewrite decide_True.
  - rewrite decide_False; [by apply IH|]. intros ->. apply Hk0.
    apply list_elem_of_fmap. exists (k, v). split; [done|].
    by apply list_elem_of_In.
Qed.

Lemma dict_set_same d k v : dict_get d k = Some v → dict_set d k v = d.
Proof.
  induction d as [|[k0 v0] d IH]; simpl; [done|].
  destruct (decide (k0 = k)) as [->|Hne].
  - by intros [= ->].
  - intros Hd. by rewrite IH.
Qed.

(** X16: Once the group file maps every plugin of the merge source to its
    group, [sync_plugingroups] writes nothing. *)
Theorem sync_plugingroups_settled
    (group_map : list (string * string))
    (loadorder_lines : list string) (groups_file : option (list string)) :
  (∀ plugin group,
     (plugin, group) ∈ group_map →
     strip plugin ≠ EmptyString → strip group ≠ EmptyString →
     dict_get (_read_plugingroups_file groups_file).1.1 (strip plugin)
       = Some (strip group)) →
  sync_plugingroups_lines group_map loadorder_lines groups_file = None.
Proof.
  intros Hheld. unfold sync_plugingroups_lines.
  destruct (decide (group_map = [])); [done|].
  pose proof (_read_plugingroups_file_NoDup groups_file) as Hnd.
  destruct (_read_plugingroups_file groups_file)
    as [[existing_map header] others]. simpl in *.
  assert (merge_group_map existing_map group_map = existing_map) as ->.
  { unfold merge_group_map. clear -Hheld.
    induction group_map as [|[plugin group] rest IH]; [done|]. simpl.
    assert ((if negb (String.eqb (strip plugin) EmptyString)
                && negb (String.eqb (strip group) EmptyString)
             then dict_set existing_map (strip plugin) (strip group)
             else existing_map) = existing_map) as ->.
    { destruct (String.eqb (strip plugin) EmptyString) eqn:Hp; [done|].
      destruct (String.eqb (strip group) EmptyString) eqn:Hg; [done|].
      simpl. apply dict_set_same, Hheld; [by left|..].
      - intros Heq. by rewrite Heq in Hp.
      - intros Heq. by rewrite Heq in Hg. }
    apply IH. intros p g Hin. apply Hheld. by right. }
  by rewrite dict_eqb_refl.
Qed.

Lemma sync_plugingroups_settled_witness :
  sync_plugingroups_lines [("B.esp", "Patches"); (" A.esp ", "Base")]
    ["B.esp"; "A.esp"]
    (Some ["# my groups"; "A.esp|Base"; "B.esp | Patches"; "free text"])
  = None.
Proof.
  apply sync_plugingroups_settled. intros plugin group Hin _ _.
  apply elem_of_cons in Hin. destruct Hin as [[= -> ->]|Hin]; [done|].
  apply list_elem_of_singleton in Hin. by injection Hin as -> ->.
Defined.

Lemma merge_group_map_get existing_map group_map k :
  dict_get (merge_group_map existing_map group_map) k
  = match source_group group_map k with
    | Some grp => Some grp
    | None => dict_get existing_map k
    end.
Proof.
  unfold merge_group_map, source_group.
  induction group_map as [|[plugin group] rest IH] using rev_ind; [done|].
  rewrite foldl_snoc, omap_app, last_app.
  cbn [omap list_omap].
  destruct (negb (String.eqb (strip plugin) EmptyString)
            && negb (String.eqb (strip group) EmptyString)) eqn:Hvalid.
  - rewrite dict_get_set. cbn [andb].
    destruct (String.eqb (strip plugin) k) eqn:Hk.
    + apply String.eqb_eq in Hk. by rewrite decide_True.
    + apply String.eqb_neq in Hk. by rewrite decide_False.
  - cbn [andb]. exact IH.
Qed.

(** X17: The merged mapping gives a plugin the group of the merge source when
    the source has a usable pair for it (the last one wins), and the group of
    the file otherwise. *)
Theorem merge_group_map_lookup
    (existing_map group_map : list (string * string)) (k : string) :
  dict_get (merge_group_map existing_map group_map) k
  = match source_group group_map k with
    | Some grp => Some grp
    | None => dict_get existing_map k
    end.
Proof.
  apply merge_group_map_get.
Qed.

(** ** What the merger keeps *)

Lemma Permutation_insert_middle {A} (p : A) l1 t1 t2 l2 :
  l1 ++ (t1 ++ p :: t2) ++ l2 ≡ₚ p :: l1 ++ (t1 ++ t2) ++ l2.
Proof.
  rewrite <- (Permutation_middle t1 t2 p). cbn [app].
  by rewrite <- Permutation_middle.
Qed.

Lemma _merge_buckets_Permutation order :
  _merge_buckets (_partition_by_ext order) ≡ₚ order.
Proof.
  rewrite _merge_partition. unfold stable_by_rank, rank_bucket.
  induction order as [|x order IH]; [done|].
  rewrite !filter_cons.
  pose proof (_plugin_ext_rank_le_3 x) as Hr.
  repeat case_decide; try lia.
  all: rewrite <- ?app_comm_cons, <- ?Permutation_middle.
  all: by rewrite IH.
Qed.

Lemma _insert_relative_once_Permutation current_order plugin anchor position :
  _insert_relative_once current_order plugin anchor position
  ≡ₚ plugin :: without_plugin plugin current_order.
Proof.
  destruct (_insert_relative_once_shape current_order plugin anchor position)
    as (t1 & t2 & Ht & ->).
  pose proof (_plugin_ext_rank_le_3 plugin) as Hr.
  rewrite _merge_buckets_insert, !_partition_by_ext_lookup by done.
  etrans; [|apply Permutation_skip, _merge_buckets_Permutation].
  rewrite _merge_partition. unfold stable_by_rank.
  set (order := without_plugin plugin current_order) in *.
  repeat case_decide; try lia.
  all: match goal with H : _plugin_ext_rank _ = _ |- _ =>
         rewrite H in Ht; rewrite Ht end.
  - apply (Permutation_insert_middle plugin []).
  - apply Permutation_insert_middle.
  - rewrite !(app_assoc (rank_bucket 0 order)).
    apply Permutation_insert_middle.
  - rewrite !(app_assoc (rank_bucket 0 order)).
    rewrite !(app_assoc (rank_bucket 0 order ++ rank_bucket 1 order)).
    rewrite <- (app_nil_r (t1 ++ plugin :: t2)).
    rewrite <- (app_nil_r (t1 ++ t2)).
    apply Permutation_insert_middle.
Qed.

(** On the order kept in memory: plugins that the order does not name yet,
    and that differ from one another, are put in and nothing is lost. *)
Lemma _insert_new_plugins_perm
    (anchors_for : string → list string → gset string * gset string)
    (order new_plugins : list string) :
  NoDup (map name_key new_plugins) →
  (∀ p n, p ∈ new_plugins → n ∈ order → name_key n ≠ name_key p) →
  insert_new_plugins anchors_for order new_plugins ≡ₚ order ++ new_plugins.
Proof.
  unfold insert_new_plugins. revert order.
  induction new_plugins as [|p ps IH]; intros order Hnd Hnew.
  - by rewrite app_nil_r.
  - cbn [foldl]. destruct (anchors_for p order) as [before after].
    set (order' := place_new_plugin order p before after).
    assert (order' ≡ₚ p :: order) as Hperm.
    { subst order'. unfold place_new_plugin.
      destruct (select_anchor _ _ _) as [anchor pos].
      rewrite _insert_relative_once_Permutation. f_equiv.
      unfold without_plugin. rewrite filter_all; [done|].
      apply Forall_forall. intros n Hn. apply Hnew; [by left|done]. }
    cbn [map] in Hnd. apply NoDup_cons in Hnd as [Hp Hnd].
    rewrite IH; [by rewrite Hperm, <- Permutation_middle|done|].
    intros q n Hq Hn. rewrite Hperm in Hn.
    apply elem_of_cons in Hn as [->|Hn].
    + intros Heq. apply Hp. rewrite Heq. by apply list_elem_of_fmap_2.
    + apply Hnew; [by right|done].
Qed.

(** ** What a write touches *)

(** X19: [atomic_write] touches two files only, the target and the temporary
    file beside it: every other file is as it was, whether the write returns
    or raises; and when it returns, the temporary file is gone. *)
Theorem atomic_write_frame
    (faulty : list fs_call → fs_call → bool) (path text other : string)
    (st : fs) :
  other ≠ path → other ≠ path +:+ ".tmp" →
  let '(result, st') := atomic_write faulty path text st in
  files st' !! other = files st !! other ∧
  (∀ u, result = Returned u → files st' !! (path +:+ ".tmp") = None).
Proof.
  intros Hpath Htmp.
  unfold atomic_write, _write_text, try_except, perform, io_raise.
  unfold mbind, io_bind, mret, io_ret. simpl.
  destruct (faulty (calls st) _); simpl; [done|].
  destruct (faulty (calls st ++ _) (WriteText _ _)); simpl; [done|].
  destruct (faulty _ (Replace _ _)); simpl.
  - destruct (faulty _ (Unlink _)); simpl.
    + split; [|done]. by rewrite lookup_insert_ne.
    + split; [|done]. by rewrite lookup_delete_ne, lookup_insert_ne.
  - rewrite lookup_insert_eq. split.
    + by rewrite lookup_insert_ne, lookup_delete_ne, lookup_insert_ne.
    + intros u _. rewrite lookup_insert_ne by apply not_eq_sym, tmp_path_ne.
      by rewrite lookup_delete_eq.
Qed.

Lemma atomic_write_frame_witness :
  let '(result, st') :=
    atomic_write no_fault "loadorder.txt" "A.esm"
      (mk_fs {["plugins.txt" := "*A.esm"]} [] []) in
  files st' !! "plugins.txt"
    = files (mk_fs {["plugins.txt" := "*A.esm"]} [] []) !! "plugins.txt" ∧
  (∀ u, result = Returned u → files st' !! ("loadorder.txt" +:+ ".tmp") = None).
Proof.
  by apply (atomic_write_frame no_fault "loadorder.txt" "A.esm" "plugins.txt").
Defined.

(** ** The anchor of a rule *)

Lemma list_find_ext_Forall {A} (P Q : A → Prop)
    `{∀ x, Decision (P x)} `{∀ x, Decision (Q x)} (l : list A) :
  Forall (fun x => P x ↔ Q x) l → list_find P l = list_find Q l.
Proof.
  induction 1 as [|x l Hx _ IH]; [done|].
  cbn [list_find]. rewrite IH.
  destruct (decide (P x)) as [HP|HP]; destruct (decide (Q x)) as [HQ|HQ];
    tauto.
Qed.

(** X20: The anchor picked for a rule that names its anchor (no regular
    expression), in an order whose entries are stripped as
    [_read_loadorder_file] leaves them: the first entry of the order with the
    name of the rule, compared stripped and lower-cased; none when no entry
    has it. *)
Theorem pick_resolved_anchor
    (re_search : string → option (string → bool))
    (names : list string) (s : string) :
  Forall (fun n => strip n = n) names →
  s ≠ EmptyString →
  _pick_anchor_in_current_order names
    (_resolve_anchor_ci re_search (Some s) names false)
  = snd <$> list_find (fun n => name_key n = name_key s) names.
Proof.
  intros Hclean Hs. unfold _resolve_anchor_ci, _pick_anchor_in_current_order.
  destruct (decide (s = EmptyString)) as [|_]; [done|]. fold (name_key s).
  set (hits := filter (fun n => lower (strip n) = name_key s) names).
  assert (∀ n, n ∈ hits ↔ n ∈ names ∧ name_key n = name_key s) as Hhits.
  { intros n. subst hits. rewrite list_elem_of_filter. unfold name_key. tauto. }
  destruct (decide (list_to_set hits = (∅ : gset string))) as [Hnone|Hsome].
  - symmetry. apply fmap_None, list_find_None, Forall_forall.
    intros n Hn Hkey.
    assert (n ∈ (list_to_set hits : gset string)) as Hin
      by (apply elem_of_list_to_set, Hhits; done).
    rewrite Hnone in Hin. by apply elem_of_empty in Hin.
  - f_equal. apply list_find_ext_Forall, Forall_forall. intros n Hn.
    rewrite Forall_forall in Hclean. rewrite elem_of_map. split.
    + intros (a & Hlow & Ha). apply elem_of_list_to_set, Hhits in Ha.
      destruct Ha as [Ha Hkey]. unfold name_key in *.
      rewrite (Hclean n Hn), Hlow, <- Hkey. by rewrite (Hclean a Ha).
    + intros Hkey. exists n. split; [done|].
      by apply elem_of_list_to_set, Hhits.
Qed.

Lemma pick_resolved_anchor_witness :
  _pick_anchor_in_current_order ["A.esm"; "b.ESP"; "B.esp"]
    (_resolve_anchor_ci (fun _ => None) (Some " B.esp ")
       ["A.esm"; "b.ESP"; "B.esp"] false)
  = snd <$> list_find (fun n => name_key n = name_key " B.esp ")
              ["A.esm"; "b.ESP"; "B.esp"].
Proof.
  apply pick_resolved_anchor; [by repeat constructor|done].
Defined.

(** ** The activation file, written and read back *)

Lemma _set_plugin_enabled_active lines q :
  plugin_active (_set_plugin_enabled_in_plugins_lines lines q true).1 q.
Proof.
  destruct (_set_plugin_enabled_written_last lines q true (or_introl eq_refl))
    as (i & Hi & Hline).
  exists i, (plugin_entry (strip q) true). split_and!; [done..|].
  unfold plugin_entry.
  change ("*" +:+ strip q +:+ nl) with (String "*" (strip q +:+ nl)).
  rewrite strip_signed_line by (done || apply strip_idem).
  unfold startswith. by destruct (strip q).
Qed.

(** Lines that hold no line boundary before the line feed that ends them
    stay such lines when a plugin on one line is enabled. *)
Lemma _set_plugin_enabled_one_per_line ls plugin :
  Forall (fun ln => has_linebreak ln = false) ls →
  has_linebreak (strip plugin) = false →
  ∃ ls',
    Forall (fun ln => has_linebreak ln = false) ls' ∧ ls' ≠ [] ∧
    (_set_plugin_enabled_in_plugins_lines
       (map (fun ln => ln +:+ nl) ls) plugin true).1
    = map (fun ln => ln +:+ nl) ls'.
Proof.
  intros Hls Hp.
  assert (has_linebreak ("*" +:+ strip plugin) = false) as Hentry by done.
  destruct (_set_plugin_enabled_result (map (fun ln => ln +:+ nl) ls)
              plugin true)
    as [(i & [(x & Hx & _) _] & ->)|[_ ->]]; cbn [fst].
  - exists (<[i := "*" +:+ strip plugin]> ls). split_and!.
    + by apply Forall_insert.
    + apply lookup_lt_Some in Hx. rewrite length_map in Hx.
      destruct ls; simpl in *; [lia|]. by destruct i.
    + by rewrite list_fmap_insert.
  - exists (ls ++ ["*" +:+ strip plugin]). split_and!.
    + apply Forall_app. split; [done|]. by constructor.
    + by destruct ls.
    + by rewrite map_app.
Qed.

Lemma atomic_write_no_fault path text st :
  ∃ st',
    atomic_write no_fault path text st = (Returned (), st') ∧
    files st' !! path = Some text.
Proof.
  unfold atomic_write, _write_text, try_except, perform, io_raise, no_fault.
  unfold mbind, io_bind, mret, io_ret. simpl.
  rewrite lookup_insert_eq. eexists. split; [done|].
  simpl. apply lookup_insert_eq.
Qed.

(** [_write_plugins_file], when no call fails, on lines that end with a
    line feed. *)
Lemma _write_plugins_file_returns path (ls : list string) st :
  ls ≠ [] →
  ∃ st',
    _write_plugins_file no_fault path (map (fun ln => ln +:+ nl) ls) st
      = (Returned (), st') ∧
    files st' !! path = Some (join (map (fun ln => ln +:+ nl) ls)).
Proof.
  intros Hne. unfold _write_plugins_file.
  destruct (decide (map (fun ln => ln +:+ nl) ls = [])) as [Hnil|_].
  { by destruct ls. }
  assert (last (map (fun ln => ln +:+ nl) ls)
          = (fun ln => ln +:+ nl) <$> last ls) as -> by apply fmap_last.
  assert (is_Some (last ls)) as [x ->].
  { destruct ls as [|y ls] using rev_ind; [done|]. rewrite last_snoc. eauto. }
  cbn [fmap option_fmap option_map]. rewrite endswith_app.
  unfold mbind, io_bind, perform, no_fault.
  apply atomic_write_no_fault.
Qed.

(** X21: Enabling a plugin in an activation file of lines that end with a line
    feed, or in one that is not there yet, when no call fails: the lines the
    file reads as afterwards have the plugin active. *)
Theorem ensure_plugin_enabled_read_back
    (path plugin : string) (ls : list string) (st : fs) :
  has_linebreak (strip plugin) = false →
  Forall (fun ln => has_linebreak ln = false) ls →
  files st !! path = None
  ∨ files st !! path = Some (join (map (fun ln => ln +:+ nl) ls)) →
  ∃ st' lines',
    _ensure_plugin_enabled no_fault path plugin st = (Returned (), st') ∧
    _read_plugins_file path st' = (Returned lines', st') ∧
    plugin_active lines' plugin.
Proof.
  intros Hp Hls Hfile.
  assert (∃ ls0, Forall (fun ln => has_linebreak ln = false) ls0 ∧
                 _read_plugins_file path st
                 = (Returned (map (fun ln => ln +:+ nl) ls0), st))
    as (ls0 & Hls0 & Hread).
  { unfold _read_plugins_file, read_file, mbind, io_bind, mret, io_ret.
    destruct Hfile as [->| ->].
    - exists ["# This file is used by Skyrim to keep track of your downloaded content.";
              "# Managed by StartupDashboard - auto-enabled plugins"].
      split; [by repeat constructor|done].
    - exists ls. split; [done|]. by rewrite splitlines_join_lines. }
  destruct (_set_plugin_enabled_one_per_line ls0 plugin Hls0 Hp)
    as (ls1 & Hls1 & Hne & Hnew).
  pose proof (_set_plugin_enabled_active
                (map (fun ln => ln +:+ nl) ls0) plugin) as Hactive.
  pose proof (_set_plugin_enabled_no_change
                (map (fun ln => ln +:+ nl) ls0) plugin true) as Hsame.
  unfold _ensure_plugin_enabled, mbind, io_bind at 1. rewrite Hread.
  destruct (_set_plugin_enabled_in_plugins_lines _ plugin true)
    as [new_lines changed]. cbn [fst snd] in *. subst new_lines.
  destruct changed.
  - destruct (_write_plugins_file_returns path ls1 st Hne)
      as (st1 & Hwrite & Hfiles).
    unfold mbind, io_bind. rewrite Hwrite. unfold log_msg.
    eexists _, (map (fun ln => ln +:+ nl) ls1). split_and!; [done| |done].
    unfold _read_plugins_file, read_file, mbind, io_bind, mret, io_ret.
    cbn [files]. rewrite Hfiles. by rewrite splitlines_join_lines.
  - exists st, (map (fun ln => ln +:+ nl) ls1). split_and!; [done| |done].
    rewrite Hsame by done. exact Hread.
Qed.

Lemma ensure_plugin_enabled_read_back_witness :
  ∃ st' lines',
    _ensure_plugin_enabled no_fault "plugins.txt" "New.esp"
      (mk_fs {["plugins.txt" := "# list" +:+ nl +:+ "*A.esm" +:+ nl]} [] [])
      = (Returned (), st') ∧
    _read_plugins_file "plugins.txt" st' = (Returned lines', st') ∧
    plugin_active lines' "New.esp".
Proof.
  apply (ensure_plugin_enabled_read_back "plugins.txt" "New.esp"
           ["# list"; "*A.esm"]);
    [reflexivity|by repeat constructor|by right].
Defined.

(** ** The group file, written and read back *)

Lemma has_linebreak_any s : has_linebreak s = string_any is_linebreak s.
Proof. induction s as [|c s IH]; [done|]. simpl. by rewrite IH. Qed.

Lemma contains_char_any c s : contains_char c s = string_any (Ascii.eqb c) s.
Proof.
  induction s as [|d s IH]; [done|]. simpl. rewrite IH.
  by destruct (Ascii.eqb c d).
Qed.

Lemma string_any_app P a b :
  string_any P (a +:+ b) = string_any P a || string_any P b.
Proof.
  induction a as [|c a IH]; [done|].
  change (String c a +:+ b) with (String c (a +:+ b)). simpl.
  by rewrite IH, orb_assoc.
Qed.

Lemma string_any_lstrip P s :
  string_any P s = false → string_any P (lstrip s) = false.
Proof.
  induction s as [|c s IH]; [done|]. simpl.
  intros [Hc Hs]%orb_false_iff.
  destruct (isspace c); [by apply IH|]. simpl. by rewrite Hc, Hs.
Qed.

Lemma string_any_rstrip P s :
  string_any P s = false → string_any P (rstrip s) = false.
Proof.
  induction s as [|c s IH]; [done|]. simpl.
  intros [Hc Hs]%orb_false_iff. specialize (IH Hs).
  destruct (rstrip s) as [|d r].
  - destruct (isspace c); [done|]. simpl. by rewrite Hc.
  - cbn [string_any] in *. by rewrite Hc, IH.
Qed.

Lemma string_any_strip P s :
  string_any P s = false → string_any P (strip s) = false.
Proof. intros Hs. by apply string_any_lstrip, string_any_rstrip. Qed.

Lemma string_any_rstrip_nl P s :
  string_any P s = false → string_any P (rstrip_nl s) = false.
Proof.
  induction s as [|c s IH]; [done|]. simpl.
  intros [Hc Hs]%orb_false_iff. specialize (IH Hs).
  destruct (rstrip_nl s) as [|d r].
  - destruct (Ascii.eqb c "010"); [done|]. simpl. by rewrite Hc.
  - cbn [string_any] in *. by rewrite Hc, IH.
Qed.

(** [s.split(sep, 1)] cuts at the first separator. *)
Lemma split_once_spec sep s :
  contains_char sep s = true →
  s = (split_once sep s).1 +:+ String sep (split_once sep s).2 ∧
  contains_char sep (split_once sep s).1 = false.
Proof.
  induction s as [|d s IH]; [done|]. cbn [contains_char split_once].
  destruct (Ascii.eqb sep d) eqn:Hd.
  - intros _. apply Ascii.eqb_eq in Hd as ->. done.
  - intros Hs. destruct (IH Hs) as [Heq Hl].
    destruct (split_once sep s) as [l r]. cbn [fst snd] in *.
    change (String d l +:+ String sep r)
      with (String d (l +:+ String sep r)).
    cbn [contains_char]. rewrite Hd. split; [by f_equal|done].
Qed.

Lemma split_once_app sep l r :
  contains_char sep l = false →
  split_once sep (l +:+ String sep r) = (l, r).
Proof.
  induction l as [|d l IH].
  - intros _. change (EmptyString +:+ String sep r) with (String sep r).
    cbn [split_once]. by rewrite Ascii.eqb_refl.
  - change (String d l +:+ String sep r)
      with (String d (l +:+ String sep r)).
    cbn [contains_char split_once].
    destruct (Ascii.eqb sep d); [done|]. intros Hl. by rewrite IH.
Qed.

Lemma has_linebreak_app a b :
  has_linebreak (a +:+ b) = has_linebreak a || has_linebreak b.
Proof. rewrite !has_linebreak_any. apply string_any_app. Qed.

(** The lines [splitlines] returns hold no line boundary. *)
Lemma splitlines_go_no_linebreak n s cur :
  String.length s ≤ n →
  has_linebreak cur = false →
  Forall (fun ln => has_linebreak ln = false) (splitlines_go false cur s).
Proof.
  revert s cur. induction n as [|n IH]; intros s cur Hn Hcur.
  - destruct s; [|simpl in Hn; lia]. simpl. case_decide; by repeat constructor.
  - destruct s as [|c s]; simpl.
    { case_decide; by repeat constructor. }
    simpl in Hn. destruct (is_linebreak c) eqn:Hc.
    + destruct s as [|d s].
      * by repeat constructor.
      * destruct (Ascii.eqb c "013" && Ascii.eqb d "010").
        -- constructor; [done|]. apply IH; [simpl in Hn; lia|done].
        -- constructor; [done|]. apply IH; [lia|done].
    + apply IH; [lia|]. rewrite has_linebreak_app, Hcur. simpl.
      by rewrite Hc.
Qed.

Lemma splitlines_no_linebreak text :
  Forall (fun ln => has_linebreak ln = false) (splitlines false text).
Proof. by apply (splitlines_go_no_linebreak (String.length text)). Qed.

Lemma rstrip_nl_no_linebreak s : has_linebreak s = false → rstrip_nl s = s.
Proof.
  induction s as [|c s IH]; [done|]. simpl.
  intros [Hc Hs]%orb_false_iff. rewrite IH by done.
  destruct s; [|done].
  destruct (Ascii.eqb c "010") eqn:Heq; [|done].
  apply Ascii.eqb_eq in Heq. by subst.
Qed.

Lemma lstrip_length s : String.length (lstrip s) ≤ String.length s.
Proof.
  induction s as [|c s IH]; [done|]. simpl.
  destruct (isspace c); simpl; lia.
Qed.

(** A stripped string that is not empty starts and ends with a character
    that is no white space. *)
Lemma lstrip_fixed_app a x :
  lstrip a = a → a ≠ EmptyString → lstrip (a +:+ x) = a +:+ x.
Proof.
  destruct a as [|c a]; [done|]. intros Ha _.
  change (String c a +:+ x) with (String c (a +:+ x)).
  simpl in *. destruct (isspace c); [|done].
  pose proof (lstrip_length a) as Hlen. rewrite Ha in Hlen.
  simpl in Hlen. lia.
Qed.

Lemma string_app_nil a b : a +:+ b = EmptyString → b = EmptyString.
Proof. by destruct a. Qed.

Lemma rstrip_fixed_app x b :
  rstrip b = b → b ≠ EmptyString → rstrip (x +:+ b) = x +:+ b.
Proof.
  intros Hb Hne. induction x as [|c x IH]; [done|].
  change (String c x +:+ b) with (String c (x +:+ b)).
  simpl. rewrite IH.
  destruct (x +:+ b) eqn:Hxb; [|done].
  by apply string_app_nil in Hxb.
Qed.

Lemma strip_fixed_parts a : strip a = a → lstrip a = a ∧ rstrip a = a.
Proof.
  intros Ha. split.
  - rewrite <- Ha. unfold strip. apply lstrip_idem.
  - rewrite <- Ha. apply rstrip_strip.
Qed.

Lemma strip_fixed_app a m b :
  strip a = a → a ≠ EmptyString → strip b = b → b ≠ EmptyString →
  strip (a +:+ m +:+ b) = a +:+ m +:+ b.
Proof.
  intros [Ha _]%strip_fixed_parts Hane [_ Hb]%strip_fixed_parts Hbne.
  unfold strip.
  rewrite <- (string_app_assoc a m b) at 1.
  rewrite rstrip_fixed_app by done.
  rewrite string_app_assoc. by apply lstrip_fixed_app.
Qed.
Lemma is_entry_cons c x y : is_entry (String c x) = is_entry (String c y).
Proof.
  unfold is_entry, startswith. cbn [String.prefix String.eqb].
  destruct (Ascii.ascii_dec "#" c); [|done]. by destruct x, y.
Qed.

Lemma is_entry_app a x : is_entry a = true → is_entry (a +:+ x) = true.
Proof.
  destruct a as [|c a]; [done|].
  change (String c a +:+ x) with (String c (a +:+ x)).
  by rewrite (is_entry_cons c (a +:+ x) a).
Qed.

Lemma is_entry_nonempty a : is_entry a = true → a ≠ EmptyString.
Proof. by destruct a. Qed.

Lemma lstrip_fixed_first c x : lstrip (String c x) = String c x → isspace c = false.
Proof.
  simpl. destruct (isspace c); [|done]. intros Hx.
  pose proof (lstrip_length x) as Hlen. rewrite Hx in Hlen. simpl in Hlen. lia.
Qed.

(** The line of a pair is read as the pair. *)
Lemma read_groups_step_entry st p g :
  group_key p → group_name g →
  read_groups_step st (p +:+ "|" +:+ g)
  = mk_groups_acc (dict_set (acc_mapping st) p g)
      (acc_header st) (acc_others st) true.
Proof.
  intros (Hp & Hentry & Hbar & Hlb) (Hg & Hgne & Hglb).
  pose proof (is_entry_nonempty p Hentry) as Hpne.
  assert (has_linebreak (p +:+ "|" +:+ g) = false) as Hline.
  { rewrite !has_linebreak_app, Hlb, Hglb. done. }
  unfold read_groups_step. rewrite rstrip_nl_no_linebreak by done.
  rewrite strip_fixed_app by done.
  rewrite is_entry_app by done. cbn [negb].
  assert (contains_char "|" (p +:+ "|" +:+ g) = true) as ->.
  { rewrite contains_char_app. apply orb_true_r. }
  change (p +:+ "|" +:+ g) with (p +:+ String "|" g).
  rewrite split_once_app by done. rewrite Hp, Hg.
  destruct (String.eqb p EmptyString) eqn:Hp0;
    [by apply String.eqb_eq in Hp0|].
  destruct (String.eqb g EmptyString) eqn:Hg0;
    [by apply String.eqb_eq in Hg0|].
  done.
Qed.

(** A line that is no entry of the mapping leaves the mapping as it is. *)
Lemma read_groups_step_free_mapping st raw :
  is_group_line raw = false →
  acc_mapping (read_groups_step st raw) = acc_mapping st.
Proof.
  unfold is_group_line, read_groups_step.
  set (s := strip (rstrip_nl raw)).
  destruct (is_entry s); cbn [negb andb].
  - destruct (contains_char "|" s); cbn [andb]; [|done].
    destruct (split_once "|" s) as [l r]. cbn [fst snd].
    intros ->. done.
  - intros _. by destruct (comments_passed st).
Qed.

Lemma read_groups_fold_free_mapping st lines :
  Forall (fun raw => is_group_line raw = false) lines →
  acc_mapping (foldl read_groups_step st lines) = acc_mapping st.
Proof.
  intros Hlines. revert st.
  induction Hlines as [|raw lines Hraw _ IH]; intros st; [done|].
  cbn [foldl]. by rewrite IH, read_groups_step_free_mapping.
Qed.

Lemma read_groups_fold_entries st (pairs : list (string * string)) :
  Forall (fun kv => group_key kv.1 ∧ group_name kv.2) pairs →
  acc_mapping
    (foldl read_groups_step st (map (fun kv => kv.1 +:+ "|" +:+ kv.2) pairs))
  = foldl (fun d kv => dict_set d kv.1 kv.2) (acc_mapping st) pairs.
Proof.
  intros Hpairs. revert st.
  induction Hpairs as [|[p g] pairs [Hp Hg] _ IH]; intros st; [done|].
  cbn [foldl map fst snd]. rewrite read_groups_step_entry by done.
  by rewrite IH.
Qed.

Lemma dict_set_Forall (P : string * string → Prop) d k v :
  Forall P d → P (k, v) → Forall P (dict_set d k v).
Proof.
  intros Hd Hkv. induction Hd as [|[k0 v0] d H0 Hd IH]; simpl.
  - by constructor.
  - destruct (decide (k0 = k)); by constructor.
Qed.

(** Every pair read from lines without a line boundary can be written as
    a line and read back. *)
Lemma read_groups_step_clean st raw :
  has_linebreak raw = false →
  Forall (fun kv => group_key kv.1 ∧ group_name kv.2) (acc_mapping st) →
  Forall (fun kv => group_key kv.1 ∧ group_name kv.2)
    (acc_mapping (read_groups_step st raw)).
Proof.
  intros Hraw Hst. unfold read_groups_step.
  set (s := strip (rstrip_nl raw)).
  assert (has_linebreak s = false) as Hs.
  { subst s. rewrite has_linebreak_any in *.
    by apply string_any_strip, string_any_rstrip_nl. }
  assert (strip s = s) as Hstripped by apply strip_idem.
  destruct (is_entry s) eqn:Hentry; cbn [negb];
    [|by destruct (comments_passed st)].
  destruct (contains_char "|" s) eqn:Hbar; [|done].
  destruct (split_once_spec "|" s Hbar) as [Heq Hleft].
  destruct (split_once "|" s) as [l r]. cbn [fst snd] in *.
  destruct (String.eqb (strip l) EmptyString) eqn:Hl0; [done|].
  destruct (String.eqb (strip r) EmptyString) eqn:Hr0; [done|].
  apply String.eqb_neq in Hl0, Hr0. cbn [negb andb].
  cbn [acc_mapping]. apply dict_set_Forall; [done|]. cbn [fst snd].
  rewrite Heq, has_linebreak_app in Hs.
  apply orb_false_iff in Hs as [Hl Hr].
  change (has_linebreak (String "|" r)) with (has_linebreak r) in Hr.
  split; [split_and!|split_and!].
  - apply strip_idem.
  - destruct l as [|c l]; [done|].
    change (String c l +:+ String "|" r)
      with (String c (l +:+ String "|" r)) in Heq.
    assert (isspace c = false) as Hc.
    { apply (lstrip_fixed_first c (l +:+ String "|" r)).
      rewrite <- Heq. by apply strip_fixed_parts. }
    unfold strip. rewrite rstrip_cons_nonspace, lstrip_cons_nonspace by done.
    rewrite (is_entry_cons c _ (l +:+ String "|" r)). by rewrite <- Heq.
  - rewrite contains_char_any in *. by apply string_any_strip.
  - rewrite has_linebreak_any in *. by apply string_any_strip.
  - apply strip_idem.
  - done.
  - rewrite has_linebreak_any in *. by apply string_any_strip.
Qed.

Lemma _read_plugingroups_file_clean file_lines :
  (∀ lines, file_lines = Some lines →
            Forall (fun raw => has_linebreak raw = false) lines) →
  Forall (fun kv => group_key kv.1 ∧ group_name kv.2)
    (_read_plugingroups_file file_lines).1.1.
Proof.
  destruct file_lines as [lines|]; [|by constructor].
  intros Hlines. specialize (Hlines lines eq_refl). simpl.
  assert (∀ st,
            Forall (fun kv => group_key kv.1 ∧ group_name kv.2)
              (acc_mapping st) →
            Forall (fun kv => group_key kv.1 ∧ group_name kv.2)
              (acc_mapping (foldl read_groups_step st lines))) as H.
  { induction Hlines as [|raw lines Hraw _ IH]; intros st Hst; [done|].
    cbn [foldl]. by apply IH, read_groups_step_clean. }
  apply H. constructor.
Qed.

Lemma merge_group_map_clean group_map existing_map :
  (∀ plugin group,
     (plugin, group) ∈ group_map →
     strip plugin ≠ EmptyString → strip group ≠ EmptyString →
     group_key (strip plugin) ∧ has_linebreak (strip group) = false) →
  Forall (fun kv => group_key kv.1 ∧ group_name kv.2) existing_map →
  Forall (fun kv => group_key kv.1 ∧ group_name kv.2)
    (merge_group_map existing_map group_map).
Proof.
  unfold merge_group_map. revert existing_map.
  induction group_map as [|[plugin group] rest IH]; intros tm Hsrc Htm;
    [done|].
  cbn [foldl]. apply IH; [intros p g Hin; apply Hsrc; by right|].
  destruct (String.eqb (strip plugin) EmptyString) eqn:Hp; [done|].
  destruct (String.eqb (strip group) EmptyString) eqn:Hg; [done|].
  apply String.eqb_neq in Hp, Hg. cbn [negb andb].
  apply dict_set_Forall; [done|]. cbn [fst snd].
  destruct (Hsrc plugin group) as [Hkey Hlb]; [by left|done..|].
  split; [done|]. split_and!; [apply strip_idem|done..].
Qed.
Lemma elem_of_first_occurrences x l : x ∈ first_occurrences l ↔ x ∈ l.
Proof.
  induction l as [|y l IH]; [done|]. cbn [first_occurrences].
  rewrite !elem_of_cons, list_elem_of_filter, IH.
  destruct (decide (x = y)); tauto.
Qed.

Lemma group_line_parts p g : group_line p g = (p +:+ "|" +:+ g) +:+ nl.
Proof. unfold group_line. by rewrite !string_app_assoc. Qed.

Lemma omap_group_line_pairs mapping plist :
  omap (group_line_of mapping) plist
  = map (fun kv => group_line kv.1 kv.2)
      (omap (fun p => pair p <$> dict_get mapping p) plist).
Proof.
  induction plist as [|p plist IH]; [done|].
  rewrite !omap_cons_unfold. unfold group_line_of at 1.
  destruct (dict_get mapping p); cbn [fmap option_fmap option_map];
    [|done].
  cbn [map fst snd]. by rewrite IH.
Qed.

(** What [_write_plugingroups_file] writes, by the pairs of the mapping:
    after the header and the free-form lines, the lines of pairs of the
    mapping, with a line for every pair. *)
Lemma _write_plugingroups_lines_pairs ordered_plugins mapping header others :
  ∃ sep pairs,
    _write_plugingroups_lines ordered_plugins mapping header others
      = map add_nl header ++ sep ++ map add_nl others
        ++ map (fun kv => group_line kv.1 kv.2) pairs ∧
    (sep = [] ∨ sep = [nl]) ∧
    ∀ p g, (p, g) ∈ pairs ↔ dict_get mapping p = Some g.
Proof.
  unfold _write_plugingroups_lines.
  set (out0 := match last (map add_nl header) with
               | Some l =>
                   if negb (String.eqb (strip l) EmptyString)
                   then map add_nl header ++ [nl] else map add_nl header
               | None => map add_nl header
               end).
  assert (∃ sep, out0 = map add_nl header ++ sep ∧ (sep = [] ∨ sep = [nl]))
    as (sep & -> & Hsep).
  { subst out0. destruct (last _) as [l|]; [destruct (negb _)|].
    - exists [nl]. by split; [|right].
    - exists []. by rewrite app_nil_r; split; [|left].
    - exists []. by rewrite app_nil_r; split; [|left]. }
  set (keys := sorted_by _ (map fst mapping)).
  rewrite !emit_group_fold_lines. cbn [fst snd].
  set (plist1 := first_occurrences _).
  set (plist2 := first_occurrences _).
  exists sep, (omap (fun p => pair p <$> dict_get mapping p)
                 (plist1 ++ plist2)).
  split_and!; [|done|].
  { rewrite <- omap_group_line_pairs, omap_app. by rewrite <- !app_assoc. }
  intros p g. rewrite list_elem_of_omap. split.
  - intros (q & Hq & Hpair).
    destruct (dict_get mapping q) as [g'|] eqn:Hg; [|done].
    by injection Hpair as <- <-.
  - intros Hg. exists p. split; [|by rewrite Hg].
    assert (p ∈ keys) as Hkey.
    { unfold keys. rewrite sorted_by_Permutation.
      by eapply dict_get_Some_key. }
    apply elem_of_app. destruct (decide (p ∈ ordered_plugins)) as [Hin|Hout].
    + left. apply elem_of_first_occurrences, list_elem_of_filter.
      split; [apply not_elem_of_empty|done].
    + right. apply elem_of_first_occurrences, list_elem_of_filter.
      split; [|done]. set_members. rewrite list_elem_of_filter. tauto.
Qed.

Lemma dict_get_NoDup_elem d k v :
  NoDup (map fst d) → (k, v) ∈ d → dict_get d k = Some v.
Proof.
  induction d as [|[k0 v0] d IH]; [by intros _ ?%elem_of_nil|].
  cbn [map fst dict_get]. intros [Hk0 Hnd]%NoDup_cons Hin.
  apply elem_of_cons in Hin as [[= -> ->]|Hin].
  - by destruct (decide (k0 = k0)).
  - destruct (decide (k0 = k)) as [->|_]; [|by apply IH].
    destruct Hk0. apply list_elem_of_fmap. by exists (k, v).
Qed.

(** Two dictionaries with the same lookups are equal for [==]. *)
Lemma dict_eqb_lookup d1 d2 :
  NoDup (map fst d1) → NoDup (map fst d2) →
  (∀ k, dict_get d1 k = dict_get d2 k) →
  dict_eqb d1 d2 = true.
Proof.
  intros Hnd1 Hnd2 Hget. unfold dict_eqb. apply andb_true_iff. split.
  - apply bool_decide_eq_true.
    rewrite <- (length_map fst d1), <- (length_map fst d2).
    apply Permutation_length, NoDup_Permutation; [done..|].
    intros k. by rewrite <- !dict_get_is_Some_key, Hget.
  - apply forallb_forall. intros [k v] Hin. apply bool_decide_eq_true.
    cbn [fst snd]. rewrite <- Hget. apply dict_get_NoDup_elem; [done|].
    by apply list_elem_of_In.
Qed.

Lemma foldl_dict_set_get (target : list (string * string)) pairs d k :
  (∀ p g, (p, g) ∈ pairs → dict_get target p = Some g) →
  dict_get (foldl (fun d kv => dict_set d kv.1 kv.2) d pairs) k
  = if decide (k ∈ map fst pairs) then dict_get target k else dict_get d k.
Proof.
  revert d. induction pairs as [|[p g] pairs IH]; intros d Hpairs.
  - cbn [foldl map]. destruct (decide (k ∈ [])) as [Hin|_]; [|done].
    by apply elem_of_nil in Hin.
  - cbn [foldl map fst snd].
    rewrite IH by (intros p' g' Hin; apply Hpairs; by right).
    rewrite dict_get_set.
    destruct (decide (k ∈ map fst pairs)) as [Hin|Hout];
      destruct (decide (k ∈ p :: map fst pairs)) as [Hin'|Hout'].
    + done.
    + destruct Hout'. by right.
    + apply elem_of_cons in Hin' as [->|Hin']; [|done].
      rewrite decide_True by done. symmetry. apply Hpairs. by left.
    + destruct (decide (p = k)) as [->|_]; [|done].
      destruct Hout'. by left.
Qed.

(** The header and the free-form lines read from lines without a line
    boundary: no line boundary, no entry of the mapping. *)
Lemma read_groups_free_lines lines :
  Forall (fun raw => has_linebreak raw = false) lines →
  Forall (fun ln => has_linebreak ln = false ∧ is_group_line ln = false)
    (free_lines lines).
Proof.
  intros Hlines. unfold free_lines. apply Forall_forall. intros ln Hln.
  apply list_elem_of_fmap in Hln as (raw & -> & Hraw).
  apply list_elem_of_filter in Hraw as [Hfree Hraw].
  rewrite Forall_forall in Hlines.
  rewrite rstrip_nl_no_linebreak by auto. split; [auto|].
  by destruct (is_group_line raw).
Qed.
(** The header and the free-form lines [_read_plugingroups_file] returns,
    as lines the next read takes for what they are. *)
Lemma _read_plugingroups_file_free file_lines :
  (∀ lines, file_lines = Some lines →
            Forall (fun raw => has_linebreak raw = false) lines) →
  ∃ hdr,
    map add_nl (_read_plugingroups_file file_lines).1.2
      = map (fun ln => ln +:+ nl) hdr ∧
    map add_nl (_read_plugingroups_file file_lines).2
      = map (fun ln => ln +:+ nl) (_read_plugingroups_file file_lines).2 ∧
    Forall (fun ln => has_linebreak ln = false ∧ is_group_line ln = false)
      (hdr ++ (_read_plugingroups_file file_lines).2).
Proof.
  intros Hlines.
  assert (∀ l, Forall (fun ln => has_linebreak ln = false
                                 ∧ is_group_line ln = false) l →
               map add_nl l = map (fun ln => ln +:+ nl) l) as Hadd.
  { intros l Hl. apply map_ext_Forall. eapply Forall_impl; [exact Hl|].
    simpl. intros ln [Hln _]. unfold add_nl.
    by rewrite has_linebreak_endswith. }
  destruct file_lines as [lines|]; cbn [_read_plugingroups_file fst snd].
  - specialize (Hlines lines eq_refl).
    destruct (read_groups_fold_free lines (mk_groups_acc [] [] [] false))
      as [Hfree _]; [done|]. cbv zeta in Hfree. cbn [acc_header acc_others app] in Hfree.
    pose proof (read_groups_free_lines lines Hlines) as Hall.
    rewrite <- Hfree in Hall. apply Forall_app in Hall as [Hh Ho].
    set (st := foldl read_groups_step _ lines) in *.
    destruct (decide (acc_header st = [])) as [Hnil|_].
    + exists ["# This file is managed by StartupDashboard (plugin_groups)"].
      split_and!; [done|by apply Hadd|].
      apply Forall_app. split; [|done]. by repeat constructor.
    + exists (acc_header st). split_and!; [by apply Hadd..|].
      by apply Forall_app.
  - exists ["# This file is managed by StartupDashboard (plugin_groups)"].
    split_and!; [done..|]. by repeat constructor.
Qed.

(** X22: Re-run stability of [sync_plugingroups]: after a run that wrote the
    group file, a second run with the same merge source reads the file written
    and writes nothing, whatever the load order is by then. (The plugin names
    of the source are such that a line of the file can hold them, and its
    group names are on one line.) *)
Theorem sync_plugingroups_rerun
    (group_map : list (string * string))
    (loadorder_lines loadorder_lines' : list string)
    (text : option string) (out : list string) :
  (∀ plugin group,
     (plugin, group) ∈ group_map →
     strip plugin ≠ EmptyString → strip group ≠ EmptyString →
     group_key (strip plugin) ∧ has_linebreak (strip group) = false) →
  sync_plugingroups_lines group_map loadorder_lines
    (splitlines false <$> text) = Some out →
  sync_plugingroups_lines group_map loadorder_lines'
    (Some (splitlines false (join out))) = None.
Proof.
  intros Hsrc Hsync. unfold sync_plugingroups_lines in *.
  destruct (decide (group_map = [])) as [|_]; [done|].
  set (file_lines := splitlines false <$> text) in *.
  assert (∀ lines, file_lines = Some lines →
            Forall (fun raw => has_linebreak raw = false) lines) as Hnolb.
  { subst file_lines. destruct text; intros lines [= <-].
    apply splitlines_no_linebreak. }
  pose proof (_read_plugingroups_file_clean file_lines Hnolb) as Hclean.
  destruct (_read_plugingroups_file_free file_lines Hnolb)
    as (hdr & Hhdr & Hoth & Hfree).
  destruct (_read_plugingroups_file file_lines)
    as [[existing_map header] others]. cbn [fst snd] in *.
  set (target_map := merge_group_map existing_map group_map) in *.
  pose proof (merge_group_map_clean group_map existing_map Hsrc Hclean)
    as Htarget. fold target_map in Htarget.
  destruct (negb (dict_eqb target_map existing_map)); [|done].
  injection Hsync as <-.
  destruct (_write_plugingroups_lines_pairs
              (map strip
                 (filter (fun x => negb (String.eqb (strip x) EmptyString))
                    loadorder_lines))
              target_map header others)
    as (sep & pairs & -> & Hsep & Hpairs).
  (* the file written, line by line *)
  assert (Forall (fun kv => group_key kv.1 ∧ group_name kv.2) pairs)
    as Hpc.
  { apply Forall_forall. intros [p g] Hin. apply Hpairs in Hin.
    rewrite Forall_forall in Htarget. apply (Htarget (p, g)).
    clear -Hin. induction target_map as [|[k0 v0] d IH]; [done|].
    cbn [dict_get] in Hin. destruct (decide (k0 = p)) as [->|_].
    - injection Hin as ->. by left.
    - right. by apply IH. }
  set (body := map (fun kv => kv.1 +:+ "|" +:+ kv.2) pairs).
  set (blank := if decide (sep = []) then [] else [EmptyString]).
  assert (map add_nl header ++ sep ++ map add_nl others
            ++ map (fun kv => group_line kv.1 kv.2) pairs
          = map (fun ln => ln +:+ nl) ((hdr ++ blank ++ others) ++ body))
    as ->.
  { rewrite !map_app, Hhdr, Hoth, <- !app_assoc. do 2 f_equal.
    - subst blank. by destruct Hsep as [-> | ->].
    - f_equal. subst body. rewrite map_map. apply map_ext.
      intros [p g]. apply group_line_parts. }
  assert (Forall (fun ln => has_linebreak ln = false
                            ∧ is_group_line ln = false)
            (hdr ++ blank ++ others)) as Hpre.
  { apply Forall_app in Hfree as [Hh Ho]. rewrite !Forall_app.
    split_and!; [done| |done].
    subst blank. destruct (decide (sep = [])); by repeat constructor. }
  rewrite splitlines_join_lines.
  2: { apply Forall_app. split.
       - eapply Forall_impl; [exact Hpre|]. by intros ln [? _].
       - subst body. apply Forall_fmap. eapply Forall_impl; [exact Hpc|].
         intros [p g] [(_ & _ & _ & Hp) (_ & _ & Hg)]. simpl in *.
         rewrite !has_linebreak_app, Hp, Hg. done. }
  assert (map (fun ln => ln +:+ EmptyString) ((hdr ++ blank ++ others) ++ body)
          = (hdr ++ blank ++ others) ++ body) as ->.
  { apply map_fixed, Forall_forall. intros. apply string_app_nil_r. }
  (* the mapping read back *)
  pose proof (_read_plugingroups_file_NoDup
                (Some ((hdr ++ blank ++ others) ++ body))) as Hnd.
  assert ((_read_plugingroups_file
             (Some ((hdr ++ blank ++ others) ++ body))).1.1
          = foldl (fun d kv => dict_set d kv.1 kv.2) [] pairs) as Hread.
  { cbn [_read_plugingroups_file fst]. rewrite foldl_app. subst body.
    rewrite read_groups_fold_entries by done.
    rewrite read_groups_fold_free_mapping; [done|].
    eapply Forall_impl; [exact Hpre|]. by intros ln [_ ?]. }
  destruct (_read_plugingroups_file _) as [[existing_map' header'] others'].
  cbn [fst snd] in *. subst existing_map'.
  set (existing_map' := foldl _ [] pairs) in *.
  assert (∀ k, dict_get existing_map' k = dict_get target_map k) as Hget.
  { intros k. subst existing_map'.
    rewrite (foldl_dict_set_get target_map)
      by (intros p g Hin; by apply Hpairs).
    destruct (decide (k ∈ map fst pairs)) as [_|Hout]; [done|].
    destruct (dict_get target_map k) as [g|] eqn:Hk; [|done].
    destruct Hout. apply list_elem_of_fmap. exists (k, g).
    split; [done|]. by apply Hpairs. }
  rewrite dict_eqb_lookup; [done| |done|].
  - by apply merge_group_map_NoDup.
  - intros k. rewrite merge_group_map_get, Hget.
    unfold target_map. rewrite merge_group_map_get.
    by destruct (source_group group_map k).
Qed.

Lemma sync_plugingroups_rerun_witness :
  sync_plugingroups_lines [("B.esp", "Patches"); (" A.esp ", "Base")]
    ["A.esp"; "B.esp"]
    (Some (splitlines false
             (join ["# This file is managed by StartupDashboard (plugin_groups)"
                      +:+ nl;
                    nl; "free text" +:+ nl;
                    "B.esp|Patches" +:+ nl; "A.esp|Base" +:+ nl])))
  = None.
Proof.
  apply (sync_plugingroups_rerun
           [("B.esp", "Patches"); (" A.esp ", "Base")]
           ["B.esp"; "A.esp"] ["A.esp"; "B.esp"]
           (Some ("A.esp | Old" +:+ nl +:+ "free text" +:+ nl))).
  - intros plugin group Hin _ _.
    apply elem_of_cons in Hin as [[= -> ->]|Hin]; [by repeat split|].
    apply list_elem_of_singleton in Hin. injection Hin as -> ->.
    by repeat split.
  - reflexivity.
Defined.

Lemma _ensure_all_enabled_one_per_line ls plugins :
  Forall (fun ln => has_linebreak ln = false) ls →
  Forall (fun p => has_linebreak (strip p) = false) plugins →
  ∃ ls',
    Forall (fun ln => has_linebreak ln = false) ls' ∧
    (plugins ≠ [] → ls' ≠ []) ∧
    (_ensure_all_enabled_lines (map (fun ln => ln +:+ nl) ls) plugins).1
    = map (fun ln => ln +:+ nl) ls'.
Proof.
  intros Hls. induction plugins as [|q plugins IH] using rev_ind; intros Hps.
  - by exists ls.
  - apply Forall_app in Hps as [Hps Hq]. apply Forall_inv in Hq.
    destruct (IH Hps) as (ls1 & Hls1 & _ & Heq).
    rewrite _ensure_all_enabled_lines_snoc. cbv zeta. cbn [fst].
    rewrite Heq.
    destruct (_set_plugin_enabled_one_per_line ls1 q Hls1 Hq)
      as (ls2 & Hls2 & Hne & ->).
    by exists ls2.
Qed.

(** X23: Re-run stability of [_ensure_all_enabled] on the file: after a batch
    activation (of plugins that differ in more than case and outer white
    space, in an activation file of lines that end with a line feed, or one
    that is not there yet, when no call fails), a second batch activation
    calls nothing and logs nothing. *)
Theorem ensure_all_enabled_second_run
    (path : string) (plugins ls : list string) (st : fs) :
  NoDup (map name_key plugins) →
  Forall (fun p => has_linebreak (strip p) = false) plugins →
  Forall (fun ln => has_linebreak ln = false) ls →
  files st !! path = None
  ∨ files st !! path = Some (join (map (fun ln => ln +:+ nl) ls)) →
  ∃ st1,
    _ensure_all_enabled no_fault path plugins st = (Returned (), st1) ∧
    _ensure_all_enabled no_fault path plugins st1 = (Returned (), st1).
Proof.
  intros Hnd Hps Hls Hfile.
  assert (∃ ls0, Forall (fun ln => has_linebreak ln = false) ls0 ∧
                 _read_plugins_file path st
                 = (Returned (map (fun ln => ln +:+ nl) ls0), st))
    as (ls0 & Hls0 & Hread).
  { unfold _read_plugins_file, read_file, mbind, io_bind, mret, io_ret.
    destruct Hfile as [->| ->].
    - exists ["# This file is used by Skyrim to keep track of your downloaded content.";
              "# Managed by StartupDashboard - auto-enabled plugins"].
      split; [by repeat constructor|done].
    - exists ls. split; [done|]. by rewrite splitlines_join_lines. }
  destruct (_ensure_all_enabled_one_per_line ls0 plugins Hls0 Hps)
    as (ls1 & Hls1 & Hne & Hnew).
  pose proof (_ensure_all_enabled_lines_fixed
                (map (fun ln => ln +:+ nl) ls0) plugins Hnd) as Hfixed.
  destruct (_ensure_all_enabled_lines (map (fun ln => ln +:+ nl) ls0) plugins)
    as [lines1 changed] eqn:Hrun. cbn [fst snd] in *. subst lines1.
  destruct changed.
  - assert (ls1 ≠ []) as Hne1.
    { apply Hne. intros ->. by injection Hrun. }
    destruct (_write_plugins_file_returns path ls1 st Hne1)
      as (st1 & Hwrite & Hfiles).
    eexists. split.
    + unfold _ensure_all_enabled, mbind, io_bind at 1.
      rewrite Hread, Hrun. unfold mbind, io_bind. rewrite Hwrite.
      unfold log_msg. reflexivity.
    + unfold _ensure_all_enabled, mbind, io_bind at 1.
      unfold _read_plugins_file, read_file, mbind, io_bind, mret, io_ret.
      cbn [files]. rewrite Hfiles, splitlines_join_lines by done.
      by rewrite Hfixed.
  - exists st.
    assert (_ensure_all_enabled no_fault path plugins st = (Returned (), st))
      as Hsame.
    { unfold _ensure_all_enabled, mbind, io_bind at 1.
      by rewrite Hread, Hrun. }
    by split.
Qed.

Lemma ensure_all_enabled_second_run_witness :
  ∃ st1,
    _ensure_all_enabled no_fault "plugins.txt" ["A.esm"; "New.esp"]
      (mk_fs {["plugins.txt" := "# list" +:+ nl +:+ "a.esm" +:+ nl]} [] [])
      = (Returned (), st1) ∧
    _ensure_all_enabled no_fault "plugins.txt" ["A.esm"; "New.esp"] st1
      = (Returned (), st1).
Proof.
  apply (ensure_all_enabled_second_run "plugins.txt" ["A.esm"; "New.esp"]
           ["# list"; "a.esm"]).
  - apply (bool_decide_unpack _). by vm_compute.
  - by repeat constructor.
  - by repeat constructor.
  - by right.
Defined.

(** ** The selected profile *)

Lemma remove_all_from_skip old x rest :
  remove_all_from (String.length x) old (x +:+ rest)
  = remove_all_from 0 old rest.
Proof.
  induction x as [|c x IH]; [done|].
  change (String c x +:+ rest) with (String c (x +:+ rest)).
  cbn [String.length remove_all_from]. exact IH.
Qed.

Lemma prefix_app a b : String.prefix a (a +:+ b) = true.
Proof.
  induction a as [|c a IH]; [by destruct b|].
  change (String c a +:+ b) with (String c (a +:+ b)).
  cbn [String.prefix]. by destruct (Ascii.ascii_dec c c).
Qed.

(** An occurrence at the start is taken out. *)
Lemma remove_all_prefix old rest :
  old ≠ EmptyString →
  remove_all old (old +:+ rest) = remove_all old rest.
Proof.
  intros Hne. unfold remove_all. destruct old as [|c old]; [done|].
  change (String c old +:+ rest) with (String c (old +:+ rest)).
  cbn [remove_all_from].
  change (String c (old +:+ rest)) with (String c old +:+ rest).
  rewrite prefix_app. cbn [String.eqb negb andb String.length].
  rewrite Nat.sub_succ, Nat.sub_0_r. apply remove_all_from_skip.
Qed.

(** A text without the first character of [old] is left as it is. *)
Lemma remove_all_absent c old s :
  contains_char c s = false →
  remove_all (String c old) s = s.
Proof.
  unfold remove_all. induction s as [|d s IH]; [done|].
  cbn [contains_char remove_all_from String.prefix].
  destruct (Ascii.eqb c d) eqn:Hcd; [done|]. intros Hs.
  apply Ascii.eqb_neq in Hcd.
  destruct (Ascii.ascii_dec c d) as [?|_]; [done|].
  rewrite andb_false_r. by rewrite IH.
Qed.

Lemma remove_all_char_end c s :
  contains_char c s = false →
  remove_all (String c EmptyString) (s +:+ String c EmptyString) = s.
Proof.
  unfold remove_all. induction s as [|d s IH].
  - intros _.
    change (EmptyString +:+ String c EmptyString) with (String c EmptyString).
    cbn [remove_all_from String.prefix String.eqb negb andb].
    by destruct (Ascii.ascii_dec c c).
  - change (String d s +:+ String c EmptyString)
      with (String d (s +:+ String c EmptyString)).
    cbn [contains_char remove_all_from String.prefix].
    destruct (Ascii.eqb c d) eqn:Hcd; [done|]. intros Hs.
    apply Ascii.eqb_neq in Hcd.
    destruct (Ascii.ascii_dec c d) as [?|_]; [done|].
    rewrite andb_false_r. by rewrite IH.
Qed.

(** X24: The profile MO2 records, as [selected_profile=@ByteArray(name)] or as
    [selected_profile=name] on the first line of the file that starts with
    [selected_profile], is the profile read: for a name that is stripped, not
    empty, on one line, and holds neither [@] nor [)]. *)
Theorem selected_profile_read
    (before after : list string) (name : string) (wrapped : bool) :
  Forall (fun ln => has_linebreak ln = false
                    ∧ startswith (strip ln) "selected_profile" = false)
    before →
  Forall (fun ln => has_linebreak ln = false) after →
  strip name = name → name ≠ EmptyString → has_linebreak name = false →
  contains_char "@" name = false → contains_char ")" name = false →
  selected_profile_from_ini
    (Some (join (map (fun ln => ln +:+ nl)
                   (before
                    ++ ("selected_profile="
                        +:+ (if wrapped then "@ByteArray(" +:+ name +:+ ")"
                             else name))
                    :: after))))
  = name.
Proof.
  intros Hbefore Hafter Hstrip Hne Hlb Hat Hpar.
  set (value := if wrapped then "@ByteArray(" +:+ name +:+ ")" else name).
  assert (has_linebreak value = false) as Hvlb.
  { subst value. destruct wrapped; [|done].
    by rewrite !has_linebreak_app, Hlb. }
  assert (strip value = value) as Hvstrip.
  { subst value. destruct wrapped; [|done]. by apply strip_fixed_app. }
  assert (value ≠ EmptyString) as Hvne by (subst value; by destruct wrapped).
  unfold selected_profile_from_ini.
  rewrite splitlines_join_lines.
  2: { apply Forall_app. split.
       - eapply Forall_impl; [exact Hbefore|]. by intros ln [? _].
       - constructor; [|done]. by rewrite has_linebreak_app, Hvlb. }
  assert (map (fun ln => ln +:+ EmptyString)
            (before ++ ("selected_profile=" +:+ value) :: after)
          = before ++ ("selected_profile=" +:+ value) :: after) as ->.
  { apply map_fixed, Forall_forall. intros. apply string_app_nil_r. }
  assert (strip ("selected_profile=" +:+ value)
          = "selected_profile=" +:+ value) as Hline.
  { apply (strip_fixed_app "selected_profile" "=" value); done. }
  assert (list_find
            (fun line => startswith (strip line) "selected_profile" = true)
            (before ++ ("selected_profile=" +:+ value) :: after)
          = Some (length before, "selected_profile=" +:+ value)) as ->.
  { apply list_find_Some. split_and!.
    - by rewrite lookup_app_r, Nat.sub_diag by lia.
    - rewrite Hline. unfold startswith.
      apply (prefix_app "selected_profile" ("=" +:+ value)).
    - intros j y Hy Hj. rewrite lookup_app_l in Hy by done.
      rewrite Forall_forall in Hbefore.
      destruct (Hbefore y) as [_ Hno]; [by eapply list_elem_of_lookup_2|].
      by rewrite Hno. }
  assert (contains_char "=" ("selected_profile=" +:+ value) = true) as ->
    by done.
  change ("selected_profile=" +:+ value)
    with ("selected_profile" +:+ String "=" value).
  rewrite split_once_app by done. cbn [snd]. rewrite Hvstrip.
  assert (remove_all ")" (remove_all "@ByteArray(" value) = name) as ->.
  { subst value. destruct wrapped.
    - rewrite remove_all_prefix by done.
      rewrite (remove_all_absent "@" "ByteArray(" (name +:+ ")")).
      + by apply remove_all_char_end.
      + rewrite contains_char_app, Hat. done.
    - rewrite (remove_all_absent "@" "ByteArray(" name) by done.
      by apply (remove_all_absent ")" EmptyString). }
  rewrite Hstrip. by destruct (decide (name = EmptyString)).
Qed.

Lemma selected_profile_read_witness :
  selected_profile_from_ini
    (Some (join (map (fun ln => ln +:+ nl)
                   (["[General]"; "gameName=Skyrim Special Edition"]
                    ++ ("selected_profile="
                        +:+ "@ByteArray(" +:+ "My Profile" +:+ ")")
                    :: ["version=2.5.0"]))))
  = "My Profile".
Proof.
  apply (selected_profile_read
           ["[General]"; "gameName=Skyrim Special Edition"]
           ["version=2.5.0"] "My Profile" true);
    by repeat constructor.
Defined.

(** ** The mod list, applied and read back *)

Lemma apply_mod_sets_lines_disabled
    (lines : list string) (mods_to_enable mods_to_disable : gset string) m :
  m ∈ mods_to_disable → m ≠ EmptyString →
  m ∉ enabled_names
        (apply_mod_sets_lines lines mods_to_enable mods_to_disable).
Proof.
  intros Hm Hne. unfold apply_mod_sets_lines.
  set (lines1 := foldl _ lines _).
  apply sorted_names_elem, list_elem_of_split in Hm as (d1 & d2 & ->).
  rewrite foldl_app. simpl.
  set (lines2 := set_mod_enabled_in_lines _ m false).
  assert (Forall (fun ln => enables m ln = false) lines2) as Hoff
    by (by apply set_mod_disabled_not_enabled).
  clearbody lines2.
  assert (Forall (fun ln => enables m ln = false)
            (foldl (fun ls m => set_mod_enabled_in_lines ls m false)
               lines2 d2)) as Hend.
  { revert lines2 Hoff. induction d2 as [|m' d2 IH]; intros l Hl; [done|].
    simpl. apply IH. by apply set_mod_disabled_keeps_not_enabled. }
  rewrite elem_of_enabled_names. intros (ln & Hin & Hen).
  rewrite Forall_forall in Hend. specialize (Hend ln Hin). congruence.
Qed.

Lemma one_line_add_nl ln :
  one_line ln → ∃ x, has_linebreak x = false ∧ add_nl ln = x +:+ nl.
Proof.
  intros (x & Hx & [-> | ->]); exists x; (split; [done|]); unfold add_nl.
  - by rewrite has_linebreak_endswith.
  - by rewrite endswith_app.
Qed.

Lemma set_mod_enabled_in_lines_one_line lines m enable :
  has_linebreak m = false →
  Forall one_line lines →
  Forall one_line (set_mod_enabled_in_lines lines m enable).
Proof.
  intros Hm Hlines. apply Forall_forall. intros ln Hln.
  apply set_mod_enabled_in_lines_elem in Hln as [->|[Hln _]].
  - exists ((if enable then "+" else "-") +:+ m). split.
    + rewrite has_linebreak_app, Hm. by destruct enable.
    + right. unfold mod_entry. by rewrite string_app_assoc.
  - apply list_elem_of_fmap in Hln as (l & -> & Hl).
    rewrite Forall_forall in Hlines.
    destruct (one_line_add_nl l (Hlines l Hl)) as (x & Hx & ->).
    exists x. split; [done|by right].
Qed.

Lemma foldl_set_mod_one_line enable names lines :
  Forall (fun m => has_linebreak m = false) names →
  Forall one_line lines →
  Forall one_line
    (foldl (fun ls m => set_mod_enabled_in_lines ls m enable) lines names).
Proof.
  intros Hnames. revert lines.
  induction Hnames as [|m names Hm _ IH]; intros lines Hlines; [done|].
  cbn [foldl]. by apply IH, set_mod_enabled_in_lines_one_line.
Qed.

(** The lines written for lines of that kind are read back with the same
    enabled names. *)
Lemma one_line_read_back lines :
  Forall one_line lines →
  enabled_names (splitlines false (join (map add_nl lines)))
  = enabled_names lines.
Proof.
  intros Hlines.
  assert (∃ xs, Forall (fun x => has_linebreak x = false) xs ∧
                map add_nl lines = map (fun x => x +:+ nl) xs ∧
                enabled_names xs = enabled_names lines)
    as (xs & Hxs & -> & <-).
  { induction Hlines as [|ln lines (x & Hx & Hln) _ (xs & Hxs & Heq & Hen)].
    - by exists [].
    - exists (x :: xs). split_and!; [by constructor| |].
      + cbn [map]. rewrite Heq. f_equal.
        destruct (one_line_add_nl ln) as (x' & Hx' & Hadd);
          [by exists x|].
        rewrite Hadd. f_equal.
        destruct Hln as [-> | ->]; unfold add_nl in Hadd.
        * rewrite has_linebreak_endswith in Hadd by done.
          clear -Hadd. revert x' Hadd.
          induction x as [|c x IH]; intros [|c' x'] Hadd; try done.
          -- by destruct x'.
          -- by destruct x.
          -- injection Hadd as -> Hadd. f_equal. by apply IH.
        * rewrite endswith_app in Hadd.
          clear -Hadd. revert x' Hadd.
          induction x as [|c x IH]; intros [|c' x'] Hadd; try done.
          -- by destruct x'.
          -- by destruct x.
          -- injection Hadd as -> Hadd. f_equal. by apply IH.
      + unfold enabled_names in *. rewrite !omap_cons_unfold, Hen.
        destruct Hln as [-> | ->]; [done|]. by rewrite strip_app_nl. }
  rewrite splitlines_join_lines by done.
  f_equal. apply map_fixed, Forall_forall. intros. apply string_app_nil_r.
Qed.

(** X25: [apply_mod_sets] on the file, when no call fails and the mod names
    are on one line: in the mod list read back afterwards, every mod to enable
    that is not to disable (of a stripped name that is not empty) is enabled,
    and no mod to disable (of a name that is not empty) is. *)
Theorem apply_mod_sets_applied
    (path : string) (mods_to_enable mods_to_disable : gset string)
    (st : fs) :
  (∀ m, m ∈ mods_to_enable ∪ mods_to_disable → has_linebreak m = false) →
  ∃ st' lines',
    apply_mod_sets no_fault path mods_to_enable mods_to_disable st
      = (Returned (), st') ∧
    read_modlist path st' = (Returned lines', st') ∧
    (∀ m, m ∈ mods_to_enable → m ∉ mods_to_disable →
          m ≠ EmptyString → strip m = m → m ∈ enabled_names lines') ∧
    (∀ m, m ∈ mods_to_disable → m ≠ EmptyString →
          m ∉ enabled_names lines').
Proof.
  intros Hnames.
  set (lines0 := match files st !! path with
                 | Some t => splitlines false t
                 | None => []
                 end).
  set (lines1 := apply_mod_sets_lines lines0 mods_to_enable mods_to_disable).
  assert (Forall one_line lines1) as Hone.
  { subst lines1. unfold apply_mod_sets_lines.
    apply foldl_set_mod_one_line.
    { apply Forall_forall. intros m Hm. apply Hnames, elem_of_union. right.
      by apply sorted_names_elem. }
    apply foldl_set_mod_one_line.
    { apply Forall_forall. intros m Hm. apply sorted_names_elem in Hm.
      apply elem_of_difference in Hm as [Hm _].
      apply Hnames, elem_of_union. by left. }
    subst lines0. destruct (files st !! path) as [t|]; [|constructor].
    eapply Forall_impl; [apply splitlines_no_linebreak|].
    intros ln Hln. exists ln. by split; [|left]. }
  assert (∃ st' lines',
            apply_mod_sets no_fault path mods_to_enable mods_to_disable st
              = (Returned (), st') ∧
            read_modlist path st' = (Returned lines', st') ∧
            enabled_names lines' = enabled_names lines1)
    as (st' & lines' & Hrun & Hread & Hen).
  { unfold apply_mod_sets, read_modlist, read_file.
    unfold mbind, io_bind, mret, io_ret. fold lines0. fold lines1.
    destruct (decide (lines1 ≠ lines0)) as [Hdiff|Hsame].
    - unfold write_modlist, try_except, perform, no_fault, log_msg.
      cbn [files calls log apply_call].
      eexists _, _. split_and!; [done| |].
      + cbn [files]. by rewrite lookup_insert_eq.
      + by apply one_line_read_back.
    - apply dec_stable in Hsame. unfold log_msg.
      eexists _, _. split_and!; [done| |].
      + cbn [files]. done.
      + fold lines0. by rewrite Hsame. }
  exists st', lines'. split_and!; [done..| |].
  - intros m HE HD Hne Hclean. rewrite Hen.
    by apply apply_mod_sets_lines_enabled.
  - intros m HD Hne. rewrite Hen.
    by apply apply_mod_sets_lines_disabled.
Qed.

Lemma apply_mod_sets_applied_witness :
  ∃ st' lines',
    apply_mod_sets no_fault "modlist.txt" {["Mod A"]} {["Mod B"]}
      (mk_fs {["modlist.txt" := "-Mod A" +:+ nl +:+ "+Mod B" +:+ nl]} [] [])
      = (Returned (), st') ∧
    read_modlist "modlist.txt" st' = (Returned lines', st') ∧
    (∀ m, m ∈ ({["Mod A"]} : gset string) → m ∉ ({["Mod B"]} : gset string) →
          m ≠ EmptyString → strip m = m → m ∈ enabled_names lines') ∧
    (∀ m, m ∈ ({["Mod B"]} : gset string) → m ≠ EmptyString →
          m ∉ enabled_names lines').
Proof.
  apply apply_mod_sets_applied. intros m Hm.
  apply elem_of_union in Hm as [Hm|Hm]; apply elem_of_singleton in Hm;
    by subst.
Defined.

(** ** Placing a plugin again *)

(** The result of [_insert_relative_once] depends on the order through
    its buckets, once the entries that name the plugin are out. *)
Lemma _insert_relative_once_by_buckets order1 order2 plugin anchor position :
  (∀ k, rank_bucket k (without_plugin plugin order1)
        = rank_bucket k (without_plugin plugin order2)) →
  _insert_relative_once order1 plugin anchor position
  = _insert_relative_once order2 plugin anchor position.
Proof.
  intros Hbk. unfold _insert_relative_once.
  fold (without_plugin plugin order1). fold (without_plugin plugin order2).
  change (default [] (_partition_by_ext (without_plugin plugin order1)
                        !! _plugin_ext_rank plugin))
    with (_partition_by_ext (without_plugin plugin order1)
            !!! _plugin_ext_rank plugin).
  change (default [] (_partition_by_ext (without_plugin plugin order2)
                        !! _plugin_ext_rank plugin))
    with (_partition_by_ext (without_plugin plugin order2)
            !!! _plugin_ext_rank plugin).
  pose proof (_plugin_ext_rank_le_3 plugin) as Hr.
  rewrite !_merge_buckets_insert, !_partition_by_ext_lookup by done.
  by rewrite !Hbk.
Qed.

Lemma without_plugin_result current_order plugin anchor position :
  without_plugin plugin
    (_insert_relative_once current_order plugin anchor position)
  = stable_by_rank (without_plugin plugin current_order).
Proof.
  destruct (_insert_relative_once_shape current_order plugin anchor position)
    as (t1 & t2 & Ht & ->).
  pose proof (_plugin_ext_rank_le_3 plugin) as Hr.
  rewrite _merge_buckets_insert, !_partition_by_ext_lookup by done.
  set (order := without_plugin plugin current_order) in *.
  assert (∀ k, without_plugin plugin (rank_bucket k order)
               = rank_bucket k order) as Hkeep.
  { intros k. apply filter_all, Forall_forall. intros n Hn.
    apply list_elem_of_filter in Hn as [_ Hn].
    subst order. by apply list_elem_of_filter in Hn as [Hn _]. }
  assert (without_plugin plugin (t1 ++ plugin :: t2)
          = rank_bucket (_plugin_ext_rank plugin) order) as Hout.
  { rewrite <- (Hkeep (_plugin_ext_rank plugin)), Ht.
    unfold without_plugin. rewrite !filter_app, filter_cons_False; [done|].
    by intros []. }
  unfold stable_by_rank.
  unfold without_plugin at 1. rewrite !filter_app.
  unfold without_plugin in Hout, Hkeep.
  repeat case_decide; try lia.
  all: match goal with H : _plugin_ext_rank _ = _ |- _ =>
         rewrite H in Hout end.
  all: by rewrite ?Hout, ?Hkeep.
Qed.

(** X26: Placing a plugin again, relative to the same anchor, leaves the order
    as the first placement left it. *)
Theorem insert_relative_once_idempotent
    (current_order : list string) (plugin : string)
    (anchor : option string) (position : string) :
  _insert_relative_once
    (_insert_relative_once current_order plugin anchor position)
    plugin anchor position
  = _insert_relative_once current_order plugin anchor position.
Proof.
  apply _insert_relative_once_by_buckets. intros k.
  by rewrite without_plugin_result, rank_bucket_stable.
Qed.

(** ** The incremental synchronisation *)

Lemma atomic_write_no_fault_frame path text st :
  ∃ st',
    atomic_write no_fault path text st = (Returned (), st') ∧
    files st' !! path = Some text ∧
    ∀ other, other ≠ path → other ≠ path +:+ ".tmp" →
             files st' !! other = files st !! other.
Proof.
  unfold atomic_write, _write_text, try_except, perform, io_raise, no_fault.
  unfold mbind, io_bind, mret, io_ret. simpl.
  rewrite lookup_insert_eq. eexists. split_and!; [done|..]; simpl.
  - apply lookup_insert_eq.
  - intros other Hpath Htmp.
    by rewrite lookup_insert_ne, lookup_delete_ne, lookup_insert_ne.
Qed.

Lemma _write_loadorder_file_returns path order st :
  ∃ st',
    _write_loadorder_file no_fault path order st = (Returned (), st') ∧
    files st' !! path = Some (_write_loadorder_text order).
Proof.
  unfold _write_loadorder_file, mbind, io_bind, perform, no_fault.
  destruct (atomic_write_no_fault_frame path (_write_loadorder_text order)
              (mk_fs (apply_call (MkdirParents path) (files st))
                 (calls st ++ [MkdirParents path]) (log st)))
    as (st' & Hrun & Hfile & _).
  exists st'. by split.
Qed.

Lemma _write_plugins_file_frame path lines st :
  ∃ st',
    _write_plugins_file no_fault path lines st = (Returned (), st') ∧
    ∀ other, other ≠ path → other ≠ path +:+ ".tmp" →
             files st' !! other = files st !! other.
Proof.
  unfold _write_plugins_file, mbind, io_bind, perform, no_fault.
  match goal with
  | |- context [atomic_write _ path ?text ?st0] =>
      destruct (atomic_write_no_fault_frame path text st0)
        as (st' & Hrun & _ & Hframe)
  end.
  exists st'. by split.
Qed.

Lemma _ensure_plugin_enabled_frame ppath plugin st :
  ∃ st',
    _ensure_plugin_enabled no_fault ppath plugin st = (Returned (), st') ∧
    ∀ other, other ≠ ppath → other ≠ ppath +:+ ".tmp" →
             files st' !! other = files st !! other.
Proof.
  unfold _ensure_plugin_enabled, _read_plugins_file, read_file.
  unfold mbind, io_bind, mret, io_ret.
  destruct (_set_plugin_enabled_in_plugins_lines _ plugin true)
    as [new_lines changed].
  destruct changed; [|by exists st].
  destruct (_write_plugins_file_frame ppath new_lines st)
    as (st' & -> & Hframe).
  unfold log_msg. eexists. split; [done|]. exact Hframe.
Qed.

Lemma _ensure_all_enabled_frame ppath plugins st :
  ∃ st',
    _ensure_all_enabled no_fault ppath plugins st = (Returned (), st') ∧
    ∀ other, other ≠ ppath → other ≠ ppath +:+ ".tmp" →
             files st' !! other = files st !! other.
Proof.
  unfold _ensure_all_enabled, _read_plugins_file, read_file.
  unfold mbind, io_bind, mret, io_ret.
  destruct (_ensure_all_enabled_lines _ plugins) as [new_lines changed].
  destruct changed; [|by exists st].
  destruct (_write_plugins_file_frame ppath new_lines st)
    as (st' & -> & Hframe).
  unfold log_msg. eexists. split; [done|]. exact Hframe.
Qed.

(** The entries [_read_loadorder_file] returns are names the file keeps. *)
Lemma _read_loadorder_lines_names text :
  Forall loadorder_name (_read_loadorder_lines (splitlines false text)).
Proof.
  unfold _read_loadorder_lines. apply Forall_forall. intros n Hn.
  apply list_elem_of_fmap in Hn as (ln & -> & Hln).
  apply list_elem_of_filter in Hln as [Hentry Hln].
  pose proof (splitlines_no_linebreak text) as Hlb.
  rewrite Forall_forall in Hlb. specialize (Hlb ln Hln).
  split_and!.
  - rewrite has_linebreak_any in *. by apply string_any_strip.
  - apply strip_idem.
  - by destruct (is_entry (strip ln)).
Qed.

Lemma place_new_plugin_names order p before after :
  loadorder_name p → Forall loadorder_name order →
  Forall loadorder_name (place_new_plugin order p before after).
Proof.
  intros Hp Horder. unfold place_new_plugin.
  destruct (select_anchor order before after) as [anchor pos].
  rewrite _insert_relative_once_Permutation. constructor; [done|].
  apply Forall_forall. intros n Hn.
  apply list_elem_of_filter in Hn as [_ Hn].
  rewrite Forall_forall in Horder. by apply Horder.
Qed.

Lemma _read_loadorder_file_at lpath st :
  _read_loadorder_file lpath st
  = (Returned (match files st !! lpath with
               | Some t => _read_loadorder_lines (splitlines false t)
               | None => []
               end), st).
Proof. done. Qed.

(** The loop of [sync_new_plugins_incremental]: each turn reads the order
    the turn before wrote. *)
Lemma sync_loop_order anchors_for lpath ppath new_plugins order st :
  lpath ≠ ppath → lpath ≠ ppath +:+ ".tmp" →
  Forall loadorder_name new_plugins →
  Forall loadorder_name order →
  _read_loadorder_file lpath st = (Returned order, st) →
  ∃ st',
    for_each new_plugins
      (fun p =>
         order ← _read_loadorder_file lpath;
         let names_now := order in
         let '(before, after) := anchors_for p names_now in
         let '(anchor, pos) := select_anchor names_now before after in
         let new_order := _insert_relative_once names_now p anchor pos in
         _write_loadorder_file no_fault lpath new_order ;;
         log_msg "Inserted" ;;
         try_except (_ensure_plugin_enabled no_fault ppath p)
           (fun e => log_msg "Auto-activation in plugins.txt failed")) st
    = (Returned (), st') ∧
    _read_loadorder_file lpath st'
    = (Returned (insert_new_plugins anchors_for order new_plugins), st').
Proof.
  intros Hp Htmp Hnew. revert order st.
  induction Hnew as [|p ps Hname _ IH]; intros order st Horder Hread.
  { exists st. by split. }
  cbn [for_each]. unfold mbind at 1, io_bind at 1.
  unfold mbind at 1, io_bind at 1. rewrite Hread.
  pose proof (place_new_plugin_names order p (anchors_for p order).1
                (anchors_for p order).2 Hname Horder) as Hnext.
  unfold insert_new_plugins. cbn [foldl].
  unfold place_new_plugin in Hnext |- *.
  destruct (anchors_for p order) as [before after]. cbn [fst snd] in Hnext.
  destruct (select_anchor order before after) as [anchor pos].
  set (new_order := _insert_relative_once order p anchor pos) in *.
  destruct (_write_loadorder_file_returns lpath new_order st)
    as (st1 & Hwrite & Hfile).
  unfold mbind at 1, io_bind at 1. rewrite Hwrite.
  unfold mbind at 1, io_bind at 1. unfold log_msg at 1.
  destruct (_ensure_plugin_enabled_frame ppath p
              (mk_fs (files st1) (calls st1) (log st1 ++ ["Inserted"])))
    as (st2 & Hensure & Hframe).
  unfold try_except. rewrite Hensure.
  apply (IH new_order st2 Hnext).
  rewrite _read_loadorder_file_at, (Hframe lpath Hp Htmp). cbn [files].
  by rewrite Hfile, _read_loadorder_lines_written.
Qed.

Lemma sync_new_plugins_incremental_reads
    (anchors_for : string → list string → gset string * gset string)
    (lpath ppath : string) (discovered : list string) (st : fs) :
  lpath ≠ ppath → lpath ≠ ppath +:+ ".tmp" →
  let order :=
    match files st !! lpath with
    | Some t => _read_loadorder_lines (splitlines false t)
    | None => []
    end in
  let new_plugins :=
    filter (fun p => name_key p ∉ (list_to_set (map name_key order)
                                     : gset string)) discovered in
  Forall loadorder_name new_plugins →
  ∃ st',
    sync_new_plugins_incremental no_fault anchors_for lpath ppath
      discovered st = (Returned (), st') ∧
    _read_loadorder_file lpath st'
    = (Returned (insert_new_plugins anchors_for order new_plugins), st').
Proof.
  intros Hp Htmp order new_plugins Hnew.
  assert (Forall loadorder_name order) as Horder.
  { subst order. destruct (files st !! lpath); [|constructor].
    apply _read_loadorder_lines_names. }
  unfold sync_new_plugins_incremental.
  unfold mbind at 1, io_bind at 1. rewrite _read_loadorder_file_at.
  fold order. fold new_plugins.
  unfold mbind at 1, io_bind at 1. unfold log_msg at 1.
  set (st0 := mk_fs (files st) (calls st) (log st ++ _)).
  destruct (sync_loop_order anchors_for lpath ppath new_plugins order st0
              Hp Htmp Hnew Horder)
    as (st1 & Hloop & Hread1); [by rewrite _read_loadorder_file_at|].
  cbv zeta in Hloop |- *.
  unfold mbind at 1, io_bind at 1. rewrite Hloop.
  unfold mbind at 1, io_bind at 1. rewrite Hread1.
  destruct (_ensure_all_enabled_frame ppath
              (insert_new_plugins anchors_for order new_plugins) st1)
    as (st2 & Hensure & Hframe).
  unfold mbind at 1, io_bind at 1. unfold try_except. rewrite Hensure.
  unfold log_msg. eexists. split; [done|].
  rewrite _read_loadorder_file_at in Hread1 |- *. cbn [files].
  rewrite (Hframe lpath Hp Htmp). injection Hread1 as ->. done.
Qed.

(** X27: With no failing call and new plugins that are names the load-order
    file keeps, the load order read after [sync_new_plugins_incremental] is
    the order read before with the new plugins inserted one by one: each turn
    reads the order the turn before wrote. *)
Theorem sync_new_plugins_incremental_order
    (anchors_for : string → list string → gset string * gset string)
    (lpath ppath : string) (discovered : list string) (st : fs) :
  lpath ≠ ppath → lpath ≠ ppath +:+ ".tmp" →
  let order :=
    match files st !! lpath with
    | Some t => _read_loadorder_lines (splitlines false t)
    | None => []
    end in
  let new_plugins :=
    filter (fun p => name_key p ∉ (list_to_set (map name_key order)
                                     : gset string)) discovered in
  Forall loadorder_name new_plugins →
  ∃ st',
    sync_new_plugins_incremental no_fault anchors_for lpath ppath
      discovered st = (Returned (), st') ∧
    _read_loadorder_file lpath st'
    = (Returned (insert_new_plugins anchors_for order new_plugins), st').
Proof.
  apply sync_new_plugins_incremental_reads.
Qed.

Lemma sync_new_plugins_incremental_order_witness :
  ∃ st',
    sync_new_plugins_incremental no_fault (fun _ _ => ({["B.esp"]}, ∅))
      "loadorder.txt" "plugins.txt" ["b.esp"; "Lib.esm"; "New.esp"]
      (mk_fs {["loadorder.txt" := "A.esm" +:+ nl +:+ "B.esp" +:+ nl]} [] [])
    = (Returned (), st') ∧
    _read_loadorder_file "loadorder.txt" st'
    = (Returned ["A.esm"; "Lib.esm"; "New.esp"; "B.esp"], st').
Proof.
  destruct (sync_new_plugins_incremental_order
              (fun _ _ => ({["B.esp"]}, ∅))
              "loadorder.txt" "plugins.txt" ["b.esp"; "Lib.esm"; "New.esp"]
              (mk_fs {["loadorder.txt" := "A.esm" +:+ nl +:+ "B.esp" +:+ nl]}
                 [] []))
    as (st' & Hrun & Hread); [done|done| |].
  - assert (Forall loadorder_name ["Lib.esm"; "New.esp"]) as Hnames
      by (by repeat constructor).
    exact Hnames.
  - exists st'. split; [exact Hrun|]. rewrite Hread. reflexivity.
Defined.

(** X18: With no failing call, for new plugins that are names the load-order
    file keeps and that differ from one another (names compared stripped and
    lower-cased), nothing is lost and nothing is duplicated: the load order
    read after [sync_new_plugins_incremental] is a permutation of the order
    read before and the new plugins. *)
Theorem sync_new_plugins_permutation
    (anchors_for : string → list string → gset string * gset string)
    (lpath ppath : string) (discovered : list string) (st : fs) :
  lpath ≠ ppath → lpath ≠ ppath +:+ ".tmp" →
  let order :=
    match files st !! lpath with
    | Some t => _read_loadorder_lines (splitlines false t)
    | None => []
    end in
  let new_plugins :=
    filter (fun p => name_key p ∉ (list_to_set (map name_key order)
                                     : gset string)) discovered in
  Forall loadorder_name new_plugins →
  NoDup (map name_key new_plugins) →
  ∃ st' final,
    sync_new_plugins_incremental no_fault anchors_for lpath ppath
      discovered st = (Returned (), st') ∧
    _read_loadorder_file lpath st' = (Returned final, st') ∧
    final ≡ₚ order ++ new_plugins.
Proof.
  intros Hp Htmp order new_plugins Hnames Hnd.
  destruct (sync_new_plugins_incremental_reads anchors_for lpath ppath
              discovered st Hp Htmp Hnames) as (st' & Hrun & Hread).
  exists st', (insert_new_plugins anchors_for order new_plugins).
  split_and!; [done..|].
  apply _insert_new_plugins_perm; [done|].
  intros p n Hin Hn Hkey. subst new_plugins.
  apply list_elem_of_filter in Hin as [Hnew _]. apply Hnew.
  apply elem_of_list_to_set, list_elem_of_fmap. by exists n.
Qed.

Lemma sync_new_plugins_permutation_witness :
  ∃ st' final,
    sync_new_plugins_incremental no_fault (fun _ _ => ({["B.esp"]}, ∅))
      "loadorder.txt" "plugins.txt" ["b.esp"; "Lib.esm"; "New.esp"]
      (mk_fs {["loadorder.txt" := "A.esm" +:+ nl +:+ "B.esp" +:+ nl]} [] [])
    = (Returned (), st') ∧
    _read_loadorder_file "loadorder.txt" st' = (Returned final, st') ∧
    final ≡ₚ ["A.esm"; "B.esp"] ++ ["Lib.esm"; "New.esp"].
Proof.
  destruct (sync_new_plugins_permutation
              (fun _ _ => ({["B.esp"]}, ∅))
              "loadorder.txt" "plugins.txt" ["b.esp"; "Lib.esm"; "New.esp"]
              (mk_fs {["loadorder.txt" := "A.esm" +:+ nl +:+ "B.esp" +:+ nl]}
                 [] []))
    as (st' & final & Hrun & Hread & Hperm); [done|done| | |].
  - assert (Forall loadorder_name ["Lib.esm"; "New.esp"]) as Hnames
      by (by repeat constructor).
    exact Hnames.
  - assert (NoDup (map name_key ["Lib.esm"; "New.esp"])) as Hnd
      by (apply (bool_decide_unpack _); by vm_compute).
    exact Hnd.
  - exists st', final. split_and!; [exact Hrun|exact Hread|exact Hperm].
Defined.
